(** * clawdbot internship automation: question answering, configuration,
      filtering, slugs and the apply flow, embedded from the Python sources.

    Python [str] values are carried as [string]; a character stands for the
    code point of the same number (0..255), so [lower] and [strip] below
    follow [str.lower] and [str.strip] on that range only.  Code points
    above 255 are outside the model: what is proved about case holds for
    text in that range, and nothing here is stated about characters such
    as the Kelvin sign, which [str.lower] sends into the range.  Python
    dictionaries with string keys are [gmap string _]. *)

From Stdlib Require Import ZArith QArith Ascii String List Bool Lia.
From stdpp Require Import base option gmap strings list pretty.

Local Open Scope string_scope.
Local Open Scope list_scope.
Local Open Scope Z_scope.

(** ** Python string primitives used by the sources *)

Module PyStr.

Definition code (c : ascii) : N := N_of_ascii c.

Definition in_range (lo hi : N) (c : ascii) : bool :=
  ((lo <=? code c) && (code c <=? hi))%N.

(** [str.lower] on one character of the range 0..255: A-Z, and the
    upper-case letters of the Latin-1 block (192..222 without the
    multiplication sign 215). *)
Definition is_upper (c : ascii) : bool :=
  in_range 65 90 c || (in_range 192 222 c && negb (code c =? 215)%N).

Definition char_lower (c : ascii) : ascii :=
  if is_upper c then ascii_of_N (code c + 32) else c.

Fixpoint lower (s : string) : string :=
  match s with
  | EmptyString => EmptyString
  | String c r => String (char_lower c) (lower r)
  end.

(** [str.isspace] on one character. *)
Definition is_space (c : ascii) : bool :=
  in_range 9 13 c || in_range 28 32 c || (code c =? 133)%N || (code c =? 160)%N.

(** [lstrip], [rstrip] and [strip] over the characters picked by [p]. *)
Fixpoint lstrip_with (p : ascii -> bool) (s : string) : string :=
  match s with
  | EmptyString => EmptyString
  | String c r => if p c then lstrip_with p r else s
  end.

Fixpoint rstrip_with (p : ascii -> bool) (s : string) : string :=
  match s with
  | EmptyString => EmptyString
  | String c r =>
      match rstrip_with p r with
      | EmptyString => if p c then EmptyString else String c EmptyString
      | r' => String c r'
      end
  end.

Definition strip_with (p : ascii -> bool) (s : string) : string :=
  rstrip_with p (lstrip_with p s).

(** [s.strip()] *)
Definition strip (s : string) : string := strip_with is_space s.

(** [s.strip(chars)] *)
Definition strip_chars (chars : string) (s : string) : string :=
  strip_with (fun c => existsb (Ascii.eqb c) (list_ascii_of_string chars)) s.

(** Truthiness of a string: [if s]. *)
Definition truthy (s : string) : bool :=
  match s with EmptyString => false | _ => true end.

(** [a or b] on strings. *)
Definition or_else (a b : string) : string := if truthy a then a else b.

Fixpoint startswith (p s : string) : bool :=
  match p with
  | EmptyString => true
  | String a p' =>
      match s with
      | EmptyString => false
      | String b s' => Ascii.eqb a b && startswith p' s'
      end
  end.

(** [p in s] on strings: [p] occurs in [s] as a contiguous block. *)
Fixpoint str_in (p s : string) : bool :=
  startswith p s ||
  match s with
  | EmptyString => false
  | String _ s' => str_in p s'
  end.

(** [p] occurs in [s]: the meaning of [p in s]. *)
Definition occurs_in (p s : string) : Prop :=
  exists a b : string, s = a +:+ p +:+ b.

Fixpoint take (n : nat) (s : string) : string :=
  match n, s with
  | S n', String c r => String c (take n' r)
  | _, _ => EmptyString
  end.

(** [s[:n]] for a Python int [n]: a negative bound counts from the end. *)
Definition slice_to (s : string) (n : Z) : string :=
  if 0 <=? n then take (Z.to_nat n) s
  else take (Z.to_nat (Z.of_nat (String.length s) + n)) s.

(** [x in xs] on a list of strings. *)
Definition list_in (x : string) (xs : list string) : bool :=
  existsb (String.eqb x) xs.

(** Every character of [s] passes [p]. *)
Fixpoint forall_chars (p : ascii -> bool) (s : string) : bool :=
  match s with
  | EmptyString => true
  | String c r => p c && forall_chars p r
  end.

(** The line feed of ["\n"]. *)
Definition nl : string := String (ascii_of_nat 10) EmptyString.

(** [{c.lower(): c for c in choices}]: a later choice replaces an earlier
    one with the same lower-cased key. *)
Definition lowered (choices : list string) : gmap string string :=
  foldl (fun m c => <[lower c := c]> m) ∅ choices.

End PyStr.

(** ** Python values, exceptions and the builtins the sources call *)

Module Py.

Inductive exn : Type :=
| FileNotFoundError (msg : string)
| ValueError (msg : string)
| RuntimeError (msg : string)
| KeyError (key : string)
| TypeError
| AttributeError
| OverflowError
| HostError (msg : string).

(** [str(exc)]; the interpreter's own messages are not modelled. *)
Definition exn_str (e : exn) : string :=
  match e with
  | FileNotFoundError m | ValueError m | RuntimeError m | HostError m => m
  | KeyError k => "'" +:+ k +:+ "'"
  | TypeError | AttributeError | OverflowError => ""
  end.

Inductive result (A : Type) : Type :=
| Ok (a : A)
| Raise (e : exn).
Arguments Ok {A} a.
Arguments Raise {A} e.

Definition bind {A B : Type} (m : result A) (k : A -> result B) : result B :=
  match m with
  | Ok a => k a
  | Raise e => Raise e
  end.

Definition is_ok {A : Type} (m : result A) : bool :=
  match m with Ok _ => true | Raise _ => false end.

(** Floats are carried as the rational they denote; the sources never
    compute with them. *)
Inductive pyfloat : Type :=
| FFinite (q : Q)
| FInf (negative : bool)
| FNan.

(** What [yaml.safe_load] and [json.loads] hand back. *)
#[warnings="-register-all"] Inductive pyval : Type :=
| PNone
| PBool (b : bool)
| PInt (z : Z)
| PFloat (f : pyfloat)
| PStr (s : string)
| PList (l : list pyval)
| PDict (d : list (pyval * pyval)).

(** The parts of the interpreter the sources reach but do not define. *)
Record Builtins : Type := {
  repr : pyval -> string;
  int_of_str : string -> result Z;
  float_of_str : string -> result pyfloat;
  float_of_int : Z -> result pyfloat
}.

(** [bool(v)] *)
Definition py_bool (v : pyval) : bool :=
  match v with
  | PNone => false
  | PBool b => b
  | PInt z => negb (z =? 0)
  | PFloat (FFinite q) => negb (Qnum q =? 0)
  | PFloat _ => true
  | PStr s => PyStr.truthy s
  | PList l => match l with [] => false | _ => true end
  | PDict d => match d with [] => false | _ => true end
  end.

(** [str(v)] *)
Definition py_str (B : Builtins) (v : pyval) : string :=
  match v with
  | PStr s => s
  | PNone => "None"
  | PBool true => "True"
  | PBool false => "False"
  | PInt z => pretty z
  | _ => repr B v
  end.

(** [int(v)] *)
Definition py_int (B : Builtins) (v : pyval) : result Z :=
  match v with
  | PInt z => Ok z
  | PBool b => Ok (if b then 1 else 0)
  | PFloat (FFinite q) => Ok (Z.quot (Qnum q) (Zpos (Qden q)))
  | PFloat (FInf _) => Raise OverflowError
  | PFloat FNan => Raise (ValueError "cannot convert float NaN to integer")
  | PStr s => int_of_str B s
  | PNone | PList _ | PDict _ => Raise TypeError
  end.

(** [float(v)] *)
Definition py_float (B : Builtins) (v : pyval) : result pyfloat :=
  match v with
  | PFloat f => Ok f
  | PInt z => float_of_int B z
  | PBool b => Ok (FFinite (if b then 1 else 0)%Q)
  | PStr s => float_of_str B s
  | PNone | PList _ | PDict _ => Raise TypeError
  end.

(** Lookup of a string key in a dictionary. *)
Fixpoint dict_lookup (k : string) (d : list (pyval * pyval)) : option pyval :=
  match d with
  | [] => None
  | (PStr k', v) :: r => if String.eqb k k' then Some v else dict_lookup k r
  | _ :: r => dict_lookup k r
  end.

(** [v.get(k, dflt)] *)
Definition get (v : pyval) (k : string) (dflt : pyval) : result pyval :=
  match v with
  | PDict d => Ok (default dflt (dict_lookup k d))
  | _ => Raise AttributeError
  end.

(** [k in v] *)
Definition contains (v : pyval) (k : string) : result bool :=
  match v with
  | PDict d => Ok (bool_decide (is_Some (dict_lookup k d)))
  | PStr s => Ok (PyStr.str_in k s)
  | PList l =>
      Ok (existsb (fun x => match x with PStr s => String.eqb k s | _ => false end) l)
  | PNone | PBool _ | PInt _ | PFloat _ => Raise TypeError
  end.

(** [v[k]] *)
Definition getitem (v : pyval) (k : string) : result pyval :=
  match v with
  | PDict d =>
      match dict_lookup k d with
      | Some x => Ok x
      | None => Raise (KeyError k)
      end
  | _ => Raise TypeError
  end.

(** [v or {}] and [v or []] *)
Definition or_dict (v : pyval) : pyval := if py_bool v then v else PDict [].
Definition or_list (v : pyval) : pyval := if py_bool v then v else PList [].

End Py.

Notation "x <- m ;; k" := (Py.bind m (fun x => k))
  (at level 100, m at next level, right associativity).

(** ** settings.py *)

Module Settings.
Import Py.

Definition DEFAULT_HANDSHAKE_LOGIN_URL := "https://app.joinhandshake.com/login".
Definition DEFAULT_HANDSHAKE_JOBS_URL := "https://app.joinhandshake.com/stu/postings".

Definition DEFAULT_BROWSER_HEADLESS := false.
Definition DEFAULT_BROWSER_SLOW_MO_MS := 120.
Definition DEFAULT_BROWSER_TIMEOUT_MS := 25000.

Definition DEFAULT_FILTER_SEARCH_QUERY := "software engineer intern".
Definition DEFAULT_INCLUDE_KEYWORDS := ["software"; "engineer"; "intern"].
Definition DEFAULT_EXCLUDE_KEYWORDS : list string := [].
Definition DEFAULT_PREFERRED_LOCATIONS : list string := [].
Definition DEFAULT_FILTER_REMOTE_ONLY := false.
Definition DEFAULT_FILTER_MAX_DISCOVERED := 150.

Definition DEFAULT_APP_DRY_RUN := true.
Definition DEFAULT_APP_AUTO_SUBMIT := false.
Definition DEFAULT_APP_MAX_APPLICATIONS := 25.
Definition DEFAULT_APP_PAUSE_BETWEEN_SEC := 2.
Definition DEFAULT_APP_SAVE_HTML_ON_FAILURE := true.

Definition DEFAULT_RESUME_MODE := "markdown_template".
Definition DEFAULT_RESUME_BASE_PATH := "artifacts/base_resume.txt".
Definition DEFAULT_RESUME_TEMPLATE_PATH := "config/resume_template.md".
Definition DEFAULT_RESUME_OUTPUT_DIR := "artifacts/resumes".

Definition DEFAULT_LLM_ENABLED := true.
Definition DEFAULT_LLM_PROVIDER := "openai".
Definition DEFAULT_LLM_API_KEY_ENV := "OPENAI_API_KEY".
Definition DEFAULT_LLM_MODEL := "gpt-4o-mini".
Definition DEFAULT_LLM_TEMPERATURE := FFinite (2 # 10).

Definition DEFAULT_QA_DEFAULTS_PATH := "config/qa_defaults.yaml".
Definition DEFAULT_QA_MAX_ANSWER_CHARS := 1000.

Definition _as_list (B : Builtins) (value : pyval) : list string :=
  match value with
  | PNone => []
  | PList l => map (py_str B) l
  | _ => [py_str B value]
  end.

Record HandshakeConfig : Type := {
  email : string;
  password : string;
  login_url : string;
  jobs_url : string
}.

Record BrowserConfig : Type := {
  headless : bool;
  slow_mo_ms : Z;
  timeout_ms : Z
}.

Record FilterConfig : Type := {
  search_query : string;
  include_keywords : list string;
  exclude_keywords : list string;
  preferred_locations : list string;
  remote_only : bool;
  max_discovered_jobs : Z
}.

Record ApplicationConfig : Type := {
  dry_run : bool;
  auto_submit : bool;
  max_applications : Z;
  pause_between_apps_sec : Z;
  save_html_on_failure : bool
}.

Record ResumeConfig : Type := {
  mode : string;
  base_resume_path : string;
  template_path : string;
  output_dir : string
}.

Record LLMConfig : Type := {
  enabled : bool;
  provider : string;
  api_key_env : string;
  model : string;
  temperature : pyfloat
}.

Record QAConfig : Type := {
  defaults_path : string;
  max_answer_chars : Z
}.

Record AutomationConfig : Type := {
  handshake : HandshakeConfig;
  browser : BrowserConfig;
  filters : FilterConfig;
  application : ApplicationConfig;
  resume : ResumeConfig;
  llm : LLMConfig;
  qa : QAConfig
}.

(** The dataclass defaults: [BrowserConfig()], [FilterConfig()], ... *)
Definition default_BrowserConfig : BrowserConfig :=
  {| headless := DEFAULT_BROWSER_HEADLESS;
     slow_mo_ms := DEFAULT_BROWSER_SLOW_MO_MS;
     timeout_ms := DEFAULT_BROWSER_TIMEOUT_MS |}.

Definition default_FilterConfig : FilterConfig :=
  {| search_query := DEFAULT_FILTER_SEARCH_QUERY;
     include_keywords := DEFAULT_INCLUDE_KEYWORDS;
     exclude_keywords := DEFAULT_EXCLUDE_KEYWORDS;
     preferred_locations := DEFAULT_PREFERRED_LOCATIONS;
     remote_only := DEFAULT_FILTER_REMOTE_ONLY;
     max_discovered_jobs := DEFAULT_FILTER_MAX_DISCOVERED |}.

Definition default_ApplicationConfig : ApplicationConfig :=
  {| dry_run := DEFAULT_APP_DRY_RUN;
     auto_submit := DEFAULT_APP_AUTO_SUBMIT;
     max_applications := DEFAULT_APP_MAX_APPLICATIONS;
     pause_between_apps_sec := DEFAULT_APP_PAUSE_BETWEEN_SEC;
     save_html_on_failure := DEFAULT_APP_SAVE_HTML_ON_FAILURE |}.

Definition default_ResumeConfig : ResumeConfig :=
  {| mode := DEFAULT_RESUME_MODE;
     base_resume_path := DEFAULT_RESUME_BASE_PATH;
     template_path := DEFAULT_RESUME_TEMPLATE_PATH;
     output_dir := DEFAULT_RESUME_OUTPUT_DIR |}.

Definition default_LLMConfig : LLMConfig :=
  {| enabled := DEFAULT_LLM_ENABLED;
     provider := DEFAULT_LLM_PROVIDER;
     api_key_env := DEFAULT_LLM_API_KEY_ENV;
     model := DEFAULT_LLM_MODEL;
     temperature := DEFAULT_LLM_TEMPERATURE |}.

Definition default_QAConfig : QAConfig :=
  {| defaults_path := DEFAULT_QA_DEFAULTS_PATH;
     max_answer_chars := DEFAULT_QA_MAX_ANSWER_CHARS |}.

(** [AutomationConfig(handshake=HandshakeConfig(email, password))]: every
    field but the credentials at its default. *)
Definition defaults_with (email password : string) : AutomationConfig :=
  {| handshake := {| email := email; password := password;
                     login_url := DEFAULT_HANDSHAKE_LOGIN_URL;
                     jobs_url := DEFAULT_HANDSHAKE_JOBS_URL |};
     browser := default_BrowserConfig;
     filters := default_FilterConfig;
     application := default_ApplicationConfig;
     resume := default_ResumeConfig;
     llm := default_LLMConfig;
     qa := default_QAConfig |}.

(** The file system and the YAML parser, as the loader sees them.
    [path_str p] is [str(Path(p))], the path as [pathlib] writes it
    (repeated slashes and [.] components dropped). *)
Record Host : Type := {
  path_str : string -> string;
  path_exists : string -> bool;
  read_text : string -> result string;
  safe_load : string -> result pyval;
  builtins : Builtins
}.

(** The file at [path] is there, reads, and parses to [doc]. *)
Definition loads (H : Host) (path : string) (doc : pyval) : Prop :=
  path_exists H path = true /\
  exists text, read_text H path = Ok text /\ safe_load H text = Ok doc.

(** Lines 129-204 of [load_config]: from the parsed document on. *)
Definition config_of_document (B : Builtins) (doc : pyval) : result AutomationConfig :=
  let raw := or_dict doc in
  has <- contains raw "handshake" ;;
  if negb has then Raise (ValueError "Missing required section: handshake")
  else
    hs0 <- getitem raw "handshake" ;;
    let hs := or_dict hs0 in
    hs_email <- get hs "email" PNone ;;
    hs_password <- (if py_bool hs_email then get hs "password" PNone else Ok PNone) ;;
    if negb (py_bool hs_email) || negb (py_bool hs_password) then
      Raise (ValueError "handshake.email and handshake.password are required")
    else
      browser0 <- get raw "browser" (PDict []) ;;
      filters0 <- get raw "filters" (PDict []) ;;
      application0 <- get raw "application" (PDict []) ;;
      resume0 <- get raw "resume" (PDict []) ;;
      llm0 <- get raw "llm" (PDict []) ;;
      qa0 <- get raw "qa" (PDict []) ;;
      let browser := or_dict browser0 in
      let filters := or_dict filters0 in
      let application := or_dict application0 in
      let resume := or_dict resume0 in
      let llm := or_dict llm0 in
      let qa := or_dict qa0 in
      (* HandshakeConfig(...) *)
      v_email <- getitem hs "email" ;;
      v_password <- getitem hs "password" ;;
      v_login <- get hs "login_url" (PStr DEFAULT_HANDSHAKE_LOGIN_URL) ;;
      v_jobs <- get hs "jobs_url" (PStr DEFAULT_HANDSHAKE_JOBS_URL) ;;
      (* BrowserConfig(...) *)
      v_headless <- get browser "headless" (PBool DEFAULT_BROWSER_HEADLESS) ;;
      v_slow <- get browser "slow_mo_ms" (PInt DEFAULT_BROWSER_SLOW_MO_MS) ;;
      i_slow <- py_int B v_slow ;;
      v_timeout <- get browser "timeout_ms" (PInt DEFAULT_BROWSER_TIMEOUT_MS) ;;
      i_timeout <- py_int B v_timeout ;;
      (* FilterConfig(...) *)
      v_query <- get filters "search_query" (PStr DEFAULT_FILTER_SEARCH_QUERY) ;;
      v_include <- get filters "include_keywords"
                     (PList (map PStr DEFAULT_INCLUDE_KEYWORDS)) ;;
      v_exclude <- get filters "exclude_keywords"
                     (PList (map PStr DEFAULT_EXCLUDE_KEYWORDS)) ;;
      v_locations <- get filters "preferred_locations"
                       (PList (map PStr DEFAULT_PREFERRED_LOCATIONS)) ;;
      v_remote <- get filters "remote_only" (PBool DEFAULT_FILTER_REMOTE_ONLY) ;;
      v_maxdisc <- get filters "max_discovered_jobs"
                     (PInt DEFAULT_FILTER_MAX_DISCOVERED) ;;
      i_maxdisc <- py_int B v_maxdisc ;;
      (* ApplicationConfig(...) *)
      v_dry <- get application "dry_run" (PBool DEFAULT_APP_DRY_RUN) ;;
      v_auto <- get application "auto_submit" (PBool DEFAULT_APP_AUTO_SUBMIT) ;;
      v_maxapp <- get application "max_applications"
                    (PInt DEFAULT_APP_MAX_APPLICATIONS) ;;
      i_maxapp <- py_int B v_maxapp ;;
      v_pause <- get application "pause_between_apps_sec"
                   (PInt DEFAULT_APP_PAUSE_BETWEEN_SEC) ;;
      i_pause <- py_int B v_pause ;;
      v_save <- get application "save_html_on_failure"
                  (PBool DEFAULT_APP_SAVE_HTML_ON_FAILURE) ;;
      (* ResumeConfig(...) *)
      v_mode <- get resume "mode" (PStr DEFAULT_RESUME_MODE) ;;
      v_base <- get resume "base_resume_path" (PStr DEFAULT_RESUME_BASE_PATH) ;;
      v_template <- get resume "template_path" (PStr DEFAULT_RESUME_TEMPLATE_PATH) ;;
      v_outdir <- get resume "output_dir" (PStr DEFAULT_RESUME_OUTPUT_DIR) ;;
      (* LLMConfig(...) *)
      v_enabled <- get llm "enabled" (PBool DEFAULT_LLM_ENABLED) ;;
      v_provider <- get llm "provider" (PStr DEFAULT_LLM_PROVIDER) ;;
      v_keyenv <- get llm "api_key_env" (PStr DEFAULT_LLM_API_KEY_ENV) ;;
      v_model <- get llm "model" (PStr DEFAULT_LLM_MODEL) ;;
      v_temp <- get llm "temperature" (PFloat DEFAULT_LLM_TEMPERATURE) ;;
      f_temp <- py_float B v_temp ;;
      (* QAConfig(...) *)
      v_defpath <- get qa "defaults_path" (PStr DEFAULT_QA_DEFAULTS_PATH) ;;
      v_maxchars <- get qa "max_answer_chars" (PInt DEFAULT_QA_MAX_ANSWER_CHARS) ;;
      i_maxchars <- py_int B v_maxchars ;;
      Ok {| handshake :=
              {| email := py_str B v_email;
                 password := py_str B v_password;
                 login_url := py_str B v_login;
                 jobs_url := py_str B v_jobs |};
            browser :=
              {| headless := py_bool v_headless;
                 slow_mo_ms := i_slow;
                 timeout_ms := i_timeout |};
            filters :=
              {| search_query := py_str B v_query;
                 include_keywords := _as_list B v_include;
                 exclude_keywords := _as_list B v_exclude;
                 preferred_locations := _as_list B v_locations;
                 remote_only := py_bool v_remote;
                 max_discovered_jobs := i_maxdisc |};
            application :=
              {| dry_run := py_bool v_dry;
                 auto_submit := py_bool v_auto;
                 max_applications := i_maxapp;
                 pause_between_apps_sec := i_pause;
                 save_html_on_failure := py_bool v_save |};
            resume :=
              {| mode := py_str B v_mode;
                 base_resume_path := py_str B v_base;
                 template_path := py_str B v_template;
                 output_dir := py_str B v_outdir |};
            llm :=
              {| enabled := py_bool v_enabled;
                 provider := py_str B v_provider;
                 api_key_env := py_str B v_keyenv;
                 model := py_str B v_model;
                 temperature := f_temp |};
            qa :=
              {| defaults_path := py_str B v_defpath;
                 max_answer_chars := i_maxchars |} |}.

Definition load_config (H : Host) (config_path : string) : result AutomationConfig :=
  if negb (path_exists H config_path) then
    Raise (FileNotFoundError ("Config not found: " +:+ path_str H config_path))
  else
    text <- read_text H config_path ;;
    doc <- safe_load H text ;;
    config_of_document (builtins H) doc.

End Settings.

(** ** cli.py: the overrides applied between [load_config] and the bot *)

Module Cli.
Import Settings.

(** The parsed flags [--dry-run], [--max-applications] and [--headless]. *)
Record Args : Type := {
  arg_dry_run : bool;
  arg_max_applications : option Z;
  arg_headless : bool
}.

Definition set_application (c : AutomationConfig) (a : ApplicationConfig) :=
  {| handshake := handshake c; browser := browser c; filters := filters c;
     application := a; resume := resume c; llm := llm c; qa := qa c |}.

Definition set_browser (c : AutomationConfig) (b : BrowserConfig) :=
  {| handshake := handshake c; browser := b; filters := filters c;
     application := application c; resume := resume c; llm := llm c; qa := qa c |}.

(** Lines 64-71 of [main]. *)
Definition apply_overrides (args : Args) (config : AutomationConfig) : AutomationConfig :=
  let config :=
    if arg_dry_run args then
      set_application config
        {| dry_run := true;
           auto_submit := false;
           max_applications := max_applications (application config);
           pause_between_apps_sec := pause_between_apps_sec (application config);
           save_html_on_failure := save_html_on_failure (application config) |}
    else config in
  let config :=
    match arg_max_applications args with
    | Some n =>
        set_application config
          {| dry_run := dry_run (application config);
             auto_submit := auto_submit (application config);
             max_applications := n;
             pause_between_apps_sec := pause_between_apps_sec (application config);
             save_html_on_failure := save_html_on_failure (application config) |}
    | None => config
    end in
  if arg_headless args then
    set_browser config
      {| headless := true;
         slow_mo_ms := slow_mo_ms (browser config);
         timeout_ms := timeout_ms (browser config) |}
  else config.

(** [config = load_config(args.config)] followed by the overrides. *)
Definition main_config (H : Host) (path : string) (args : Args) : Py.result AutomationConfig :=
  config <- load_config H path ;;
  Py.Ok (apply_overrides args config).

End Cli.

(** ** models.py *)

Module JobPosting.
Record t : Type := {
  job_id : string;
  title : string;
  company : string;
  location : string;
  description : string;
  url : string
}.
End JobPosting.

Module ApplicationResult.
Record t : Type := {
  job_id : string;
  title : string;
  company : string;
  url : string;
  status : string;
  reason : string
}.
End ApplicationResult.

(** ** llm.py *)

Module Llm.
Import Py PyStr.

(** One [chat.completions.create] request. *)
Record Request : Type := {
  req_model : string;
  req_temperature : pyfloat;
  req_system : string;
  req_user : string
}.

(** The hosted API: [completion.choices[0].message.content] (possibly
    [None]) or whatever the call raises. *)
Definition Provider : Type := Request -> result (option string).

Record Env : Type := {
  getenv : string -> string;
  OpenAI : option Provider
}.

Record LLMClient : Type := {
  config : Settings.LLMConfig;
  _client : option Provider
}.

(** [LLMClient.__init__] *)
Definition init (E : Env) (config : Settings.LLMConfig) : LLMClient :=
  {| config := config;
     _client :=
       if Settings.enabled config
          && String.eqb (lower (Settings.provider config)) "openai"
          && truthy (getenv E (Settings.api_key_env config))
       then OpenAI E else None |}.

Definition enabled (c : LLMClient) : bool :=
  match _client c with Some _ => true | None => false end.

(** The arguments of [chat.completions.create] in [_chat]. *)
Definition mk_request (c : LLMClient) (system_prompt user_prompt : string) : Request :=
  {| req_model := Settings.model (config c);
     req_temperature := Settings.temperature (config c);
     req_system := system_prompt;
     req_user := user_prompt |}.

(** [_chat] with the requests it sent. *)
Definition _chat (c : LLMClient) (system_prompt user_prompt : string)
  : string * list Request :=
  match _client c with
  | None => ("", [])
  | Some create =>
      let rq := mk_request c system_prompt user_prompt in
      (match create rq with
       | Ok message => strip (default "" message)
       | Raise _ => ""
       end, [rq])
  end.

Definition answer_system : string :=
  "You answer internship application questions concisely and truthfully. " +:+
  "If choices are given, answer with one exact choice. " +:+
  "Otherwise keep answer to one sentence.".

Definition answer_user (B : Builtins) (prompt : string) (job : JobPosting.t)
    (choices : list string) (default_answer : string) : string :=
  "Question: " +:+ prompt +:+ nl +:+
  "Job: " +:+ JobPosting.title job +:+ " at " +:+ JobPosting.company job +:+ nl +:+
  "Allowed choices: " +:+ repr B (PList (map PStr choices)) +:+ nl +:+
  "Default answer: " +:+ default_answer +:+ nl.

Definition answer_application_question (B : Builtins) (c : LLMClient)
    (prompt : string) (job : JobPosting.t) (default_answer : string)
    (allowed_choices : list string) : string * list Request :=
  if negb (enabled c) then (default_answer, [])
  else
    let choices := allowed_choices in
    let '(raw, sent) :=
      _chat c answer_system (answer_user B prompt job choices default_answer) in
    let answer := strip raw in
    if negb (truthy answer) then (default_answer, sent)
    else
      match choices with
      | [] => (answer, sent)
      | first :: _ =>
          match lowered choices !! lower answer with
          | Some choice => (choice, sent)
          | None =>
              match List.find (fun choice => str_in (lower choice) (lower answer)) choices with
              | Some choice => (choice, sent)
              | None =>
                  (if list_in default_answer choices then default_answer else first, sent)
              end
          end
      end.

End Llm.

(** ** question_answerer.py *)

Module QuestionAnswerer.
Import Py PyStr.

Record AliasRule : Type := {
  key : string;
  patterns : list string
}.

Record t : Type := {
  qa_config : Settings.QAConfig;
  llm : Llm.LLMClient;
  defaults : gmap string string;
  alias_rules : list AliasRule
}.

(** Iterating over a value: a list gives its items, a dictionary its
    keys, a string its characters; anything else is not iterable. *)
Definition iterate (v : pyval) : result (list pyval) :=
  match v with
  | PList l => Ok l
  | PDict d => Ok (map fst d)
  | PStr s => Ok (map (fun c => PStr (String c EmptyString)) (list_ascii_of_string s))
  | PNone | PBool _ | PInt _ | PFloat _ => Raise TypeError
  end.

(** [d.items()] *)
Definition items (v : pyval) : result (list (pyval * pyval)) :=
  match v with
  | PDict d => Ok d
  | _ => Raise AttributeError
  end.

Definition load_rule (B : Builtins) (item : pyval) : result AliasRule :=
  k <- get item "key" (PStr "") ;;
  ps0 <- get item "patterns" PNone ;;
  ps <- iterate (or_list ps0) ;;
  Ok {| key := py_str B k; patterns := map (fun p => lower (py_str B p)) ps |}.

Fixpoint load_rules (B : Builtins) (l : list pyval) : result (list AliasRule) :=
  match l with
  | [] => Ok []
  | item :: rest =>
      r <- load_rule B item ;;
      rs <- load_rules B rest ;;
      Ok (r :: rs)
  end.

Definition _load_defaults (H : Settings.Host) (path : string)
  : result (gmap string string * list AliasRule) :=
  let B := Settings.builtins H in
  if negb (Settings.path_exists H path) then Ok (∅, [])
  else
    text <- Settings.read_text H path ;;
    doc <- Settings.safe_load H text ;;
    let raw := or_dict doc in
    d0 <- get raw "defaults" PNone ;;
    kvs <- items (or_dict d0) ;;
    let defaults :=
      foldl (fun (m : gmap string string) kv => <[py_str B kv.1 := py_str B kv.2]> m) ∅ kvs in
    a0 <- get raw "prompt_aliases" PNone ;;
    l <- iterate (or_list a0) ;;
    alias_rules <- load_rules B l ;;
    Ok (defaults, alias_rules).

(** [QuestionAnswerer.__init__] *)
Definition init (H : Settings.Host) (qa_config : Settings.QAConfig) (llm : Llm.LLMClient)
  : result t :=
  loaded <- _load_defaults H (Settings.defaults_path qa_config) ;;
  Ok {| qa_config := qa_config; llm := llm;
        defaults := loaded.1; alias_rules := loaded.2 |}.

(** The inner loop of [_alias_key_for_prompt]: some non-empty pattern of
    the rule occurs in the prompt. *)
Fixpoint any_pattern_in (prompt : string) (patterns : list string) : bool :=
  match patterns with
  | [] => false
  | pattern :: rest =>
      if truthy pattern && str_in pattern prompt then true
      else any_pattern_in prompt rest
  end.

(** The outer loop: the key of the first rule that hits, else [""]. *)
Fixpoint scan_rules (rules : list AliasRule) (prompt : string) : string :=
  match rules with
  | [] => ""
  | rule :: rest =>
      if any_pattern_in prompt (patterns rule) then key rule
      else scan_rules rest prompt
  end.

Definition _alias_key_for_prompt (self : t) (prompt : string) : string :=
  scan_rules (alias_rules self) prompt.

Definition _match_choice (answer : string) (choices : list string) : string :=
  if negb (truthy answer) then ""
  else
    match lowered choices !! lower answer with
    | Some choice => choice
    | None =>
        match List.find (fun choice => str_in (lower choice) (lower answer)
                                       || str_in (lower answer) (lower choice)) choices with
        | Some choice => choice
        | None => ""
        end
    end.

Definition _heuristic_default (prompt : string) : string :=
  if existsb (fun token => str_in token prompt) ["authorized to work"; "work authorization"]
  then "Yes"
  else if existsb (fun token => str_in token prompt) ["sponsorship"; "visa"]
  then "No"
  else if str_in "relocate" prompt then "Yes"
  else "".

(** Line 51: the choices trimmed, blank ones dropped. *)
Definition normalize_choices (choices : list string) : list string :=
  map strip (List.filter (fun choice => truthy (strip choice)) choices).

(** Lines 53-56: the default answer of a normalized prompt. *)
Definition default_answer_for (self : t) (prompt_norm : string) : string :=
  let key := _alias_key_for_prompt self prompt_norm in
  let default_answer :=
    if truthy key then default "" (defaults self !! key) else "" in
  if negb (truthy default_answer) then _heuristic_default prompt_norm
  else default_answer.

(** Lines 83-93: the fallbacks by input type and keyword. *)
Definition fallback_answer (self : t) (input_type prompt_norm : string) : string :=
  if String.eqb input_type "email" then default "" (defaults self !! "email")
  else if String.eqb input_type "tel" then default "" (defaults self !! "phone")
  else if str_in "linkedin" prompt_norm then default "" (defaults self !! "linkedin")
  else if str_in "github" prompt_norm then default "" (defaults self !! "github")
  else if str_in "portfolio" prompt_norm || str_in "website" prompt_norm
  then default "" (defaults self !! "portfolio")
  else "".

(** [answer], with the requests sent to the hosted model. *)
Definition answer (B : Builtins) (self : t) (prompt input_type : string)
    (job : JobPosting.t) (choices : list string) : string * list Llm.Request :=
  let prompt_norm := lower (strip prompt) in
  let choices := normalize_choices choices in
  let default_answer := default_answer_for self prompt_norm in
  let choice_answer :=
    match choices with
    | [] => ""
    | _ => _match_choice default_answer choices
    end in
  if truthy choice_answer then (choice_answer, [])
  else
    let '(llm_answer, sent) :=
      if Llm.enabled (llm self)
      then Llm.answer_application_question B (llm self) prompt job default_answer choices
      else ("", []) in
    if truthy llm_answer then
      match choices with
      | first :: _ => (or_else (_match_choice llm_answer choices) first, sent)
      | [] => (slice_to llm_answer (Settings.max_answer_chars (qa_config self)), sent)
      end
    else if truthy default_answer then
      match choices with
      | first :: _ => (or_else (_match_choice default_answer choices) first, sent)
      | [] => (slice_to default_answer (Settings.max_answer_chars (qa_config self)), sent)
      end
    else
      match choices with
      | first :: _ => (first, sent)
      | [] => (fallback_answer self input_type prompt_norm, sent)
      end.

End QuestionAnswerer.

(** ** resume_builder.py *)

Module ResumeBuilder.
Import PyStr.

(** The class [[a-zA-Z0-9]]. *)
Definition is_alnum (c : ascii) : bool :=
  in_range 48 57 c || in_range 65 90 c || in_range 97 122 c.

(** [re.sub(r"[^a-zA-Z0-9]+", "-", value)]: every maximal run of
    characters outside the class becomes one hyphen.  [in_run] tells that
    the hyphen of the current run is already written. *)
Fixpoint sub_runs (in_run : bool) (value : string) : string :=
  match value with
  | EmptyString => EmptyString
  | String c r =>
      if is_alnum c then String c (sub_runs false r)
      else if in_run then sub_runs true r
      else String "-" (sub_runs true r)
  end.

Definition _safe_slug (value : string) (limit : Z) : string :=
  let cleaned := lower (strip_chars "-" (sub_runs false value)) in
  or_else (slice_to cleaned limit) "job".

(** What a file name may hold: a lower-case letter, a digit or a hyphen. *)
Definition is_hyphen (c : ascii) : bool := Ascii.eqb c "-".

Definition is_slug_char (c : ascii) : bool :=
  in_range 97 122 c || in_range 48 57 c || is_hyphen c.

Definition head_hyphen (s : string) : bool :=
  match s with
  | String c _ => is_hyphen c
  | EmptyString => false
  end.

(** No hyphen of [s] is followed by another one. *)
Fixpoint single_hyphens (s : string) : bool :=
  match s with
  | EmptyString => true
  | String c r => negb (is_hyphen c && head_hyphen r) && single_hyphens r
  end.

(** Line 43 of [build]: the slug of a job, at the default limit. *)
Definition build_slug (job : JobPosting.t) : string :=
  _safe_slug (JobPosting.company job +:+ "-" +:+ JobPosting.title job +:+ "-"
              +:+ JobPosting.job_id job) 60.

End ResumeBuilder.

(** ** handshake_bot.py *)

Module HandshakeBot.
Import Py PyStr.

(** What the bot did to the browser, in order.  A probe and a click carry
    what the browser answered. *)
Inductive Event : Type :=
| EvNewPage
| EvSetDefaultTimeout (ms : Z)
| EvGoto (url : string)
| EvWait (ms : Z)
| EvButtonProbe (pattern : string) (visible : bool)
| EvClickButton (patterns : list string) (clicked : bool)
| EvApplyLinkProbe (visible : bool)
| EvApplyLinkClick
| EvBuildResume (job_id : string)
| EvUpload (path : string)
| EvFillFields
| EvFirstText (selectors : list string)
| EvSaveFailureHtml (job_id : string)
| EvClosePage
| EvSleep (seconds : Z)
| EvLaunch
| EvLogin
| EvDiscover (found : nat)
| EvCloseBrowser
| EvWriteResults (written : nat).

(** The browser session and the collaborators of the apply flow, over a
    state [W] the bot does not look into.  [click_button] is
    [_click_button], which swallows every exception; [button_visible p] is
    [get_by_role("button", name=p).count() > 0 and _is_visible(...first)]. *)
Record Browser (W : Type) : Type := {
  new_page : W -> result unit * W;
  set_default_timeout : Z -> W -> result unit * W;
  page_goto : string -> W -> result unit * W;
  page_wait : Z -> W -> result unit * W;
  button_visible : string -> W -> result bool * W;
  click_button : list string -> W -> bool * W;
  apply_link_visible : W -> result bool * W;
  apply_link_click : W -> result unit * W;
  resume_build : JobPosting.t -> W -> result string * W;
  upload_resume_if_visible : string -> W -> result bool * W;
  fill_visible_fields : JobPosting.t -> W -> result unit * W;
  first_text : list string -> W -> string * W;
  save_failure_html : string -> W -> W;
  page_close : W -> result unit * W
}.
Arguments new_page {W}.
Arguments set_default_timeout {W}.
Arguments page_goto {W}.
Arguments page_wait {W}.
Arguments button_visible {W}.
Arguments click_button {W}.
Arguments apply_link_visible {W}.
Arguments apply_link_click {W}.
Arguments resume_build {W}.
Arguments upload_resume_if_visible {W}.
Arguments fill_visible_fields {W}.
Arguments first_text {W}.
Arguments save_failure_html {W}.
Arguments page_close {W}.

(** The parts of a run around the loop over the jobs: starting the
    browser, [_login], [_discover_jobs], [browser.close()] and
    [_write_results]. *)
Record Session (W : Type) : Type := {
  launch : W -> result unit * W;
  login : W -> result unit * W;
  discover_jobs : W -> result (list JobPosting.t) * W;
  browser_close : W -> result unit * W;
  write_results : list ApplicationResult.t -> W -> result unit * W
}.
Arguments launch {W}.
Arguments login {W}.
Arguments discover_jobs {W}.
Arguments browser_close {W}.
Arguments write_results {W}.

(** State of a run: the browser and the events so far. *)
Definition St (W : Type) : Type := (W * list Event)%type.

(** An action that may raise. *)
Definition Act (W A : Type) : Type := St W -> result A * St W.

Definition ret {W A : Type} (a : A) : Act W A := fun st => (Ok a, st).

Definition raise {W A : Type} (e : exn) : Act W A := fun st => (Raise e, st).

Definition bind_act {W A B : Type} (m : Act W A) (k : A -> Act W B) : Act W B :=
  fun st =>
    match m st with
    | (Ok a, st') => k a st'
    | (Raise e, st') => (Raise e, st')
    end.

(** [try: m / except Exception: h] *)
Definition try_except {W A : Type} (m : Act W A) (h : exn -> Act W A) : Act W A :=
  fun st =>
    match m st with
    | (Ok a, st') => (Ok a, st')
    | (Raise e, st') => h e st'
    end.

(** A call into the browser that may raise, logged with its answer. *)
Definition call {W A : Type} (f : W -> result A * W) (ev : A -> Event) : Act W A :=
  fun st =>
    match f st.1 with
    | (Ok a, w) => (Ok a, (w, st.2 ++ [ev a]))
    | (Raise e, w) => (Raise e, (w, st.2))
    end.

(** A call that cannot raise. *)
Definition call_total {W A : Type} (f : W -> A * W) (ev : A -> Event) : Act W A :=
  fun st => let '(a, w) := f st.1 in (Ok a, (w, st.2 ++ [ev a])).

(** A call logged whether or not it raises. *)
Definition attempt {W : Type} (f : W -> result unit * W) (ev : Event) : Act W unit :=
  fun st => let '(r, w) := f st.1 in (r, (w, st.2 ++ [ev])).

(** [try: m / finally: f]: [f] runs whatever [m] did, and what it raises
    replaces the outcome of [m]. *)
Definition finally {W A : Type} (m : Act W A) (f : Act W unit) : Act W A :=
  fun st =>
    let '(r, st1) := m st in
    match f st1 with
    | (Ok _, st2) => (r, st2)
    | (Raise e, st2) => (Raise e, st2)
    end.

(** A state change that cannot raise. *)
Definition step {W : Type} (f : W -> W) (ev : Event) (st : St W) : St W :=
  (f st.1, st.2 ++ [ev]).

End HandshakeBot.

Notation "x <~ m ;; k" := (HandshakeBot.bind_act m (fun x => k))
  (at level 100, m at next level, right associativity).

Module Bot.
Import Py PyStr HandshakeBot.

Definition submit_patterns : list string := ["submit"; "send application"; "finish"].
Definition next_patterns : list string :=
  ["next"; "continue"; "review"; "save and continue"].
Definition apply_patterns : list string :=
  ["easy apply"; "quick apply"; "apply now"; "^apply$"].

Definition mk_result (job : JobPosting.t) (status reason : string) : ApplicationResult.t :=
  {| ApplicationResult.job_id := JobPosting.job_id job;
     ApplicationResult.title := JobPosting.title job;
     ApplicationResult.company := JobPosting.company job;
     ApplicationResult.url := JobPosting.url job;
     ApplicationResult.status := status;
     ApplicationResult.reason := reason |}.

(** Line 262: the text the filters look at. *)
Definition job_text (job : JobPosting.t) : string :=
  lower (JobPosting.title job +:+ nl +:+ JobPosting.company job +:+ nl +:+
         JobPosting.location job +:+ nl +:+ JobPosting.description job).

(** [[kw.lower() for kw in kws if kw.strip()]] *)
Definition lowered_keywords (kws : list string) : list string :=
  map lower (List.filter (fun kw => truthy (strip kw)) kws).

(** Truthiness of a list. *)
Definition nonempty (l : list string) : bool :=
  match l with [] => false | _ => true end.

Section Flow.
Context {W : Type}.
Variable config : Settings.AutomationConfig.
Variable Br : Browser W.

Definition goto (url : string) : Act W unit :=
  call (page_goto Br url) (fun _ => EvGoto url).

Definition wait_for_timeout (ms : Z) : Act W unit :=
  call (page_wait Br ms) (fun _ => EvWait ms).

Definition _click_button (patterns : list string) : Act W bool :=
  call_total (click_button Br patterns) (EvClickButton patterns).

Definition _matches_filters (job : JobPosting.t) : bool :=
  let text := job_text job in
  let include := lowered_keywords (Settings.include_keywords (Settings.filters config)) in
  let exclude := lowered_keywords (Settings.exclude_keywords (Settings.filters config)) in
  let preferred_locations :=
    lowered_keywords (Settings.preferred_locations (Settings.filters config)) in
  if nonempty include && negb (existsb (fun kw => str_in kw text) include) then false
  else if nonempty exclude && existsb (fun kw => str_in kw text) exclude then false
  else if Settings.remote_only (Settings.filters config) && negb (str_in "remote" text)
  then false
  else if nonempty preferred_locations
          && negb (existsb (fun loc => str_in loc text) preferred_locations)
  then false
  else true.

Definition _click_apply : Act W bool :=
  _ <~ wait_for_timeout 800 ;;
  clicked <~ _click_button apply_patterns ;;
  if clicked then
    _ <~ wait_for_timeout 900 ;; ret true
  else
    visible <~ call (apply_link_visible Br) EvApplyLinkProbe ;;
    if visible then
      try_except
        (_ <~ call (apply_link_click Br) (fun _ => EvApplyLinkClick) ;;
         _ <~ wait_for_timeout 900 ;;
         ret true)
        (fun _ => ret false)
    else ret false.

Fixpoint probe_buttons (patterns : list string) : Act W bool :=
  match patterns with
  | [] => ret false
  | pattern :: rest =>
      visible <~ call (button_visible Br pattern) (EvButtonProbe pattern) ;;
      if visible then ret true else probe_buttons rest
  end.

Definition _has_submit_button : Act W bool := probe_buttons submit_patterns.

Definition _click_submit : Act W unit :=
  clicked <~ _click_button submit_patterns ;;
  if clicked then wait_for_timeout 1500
  else raise (RuntimeError "Submit button not clickable").

Definition _click_next_step : Act W bool := _click_button next_patterns.

(** The loop [for _ in range(14)] of [_apply_to_job]: [Some r] when an
    iteration returns [r], [None] when the loop ends or breaks. *)
Fixpoint apply_steps (n : nat) (job : JobPosting.t) (resume_path : string)
    (uploaded_resume : bool) : Act W (option ApplicationResult.t) :=
  match n with
  | O => ret None
  | S n' =>
      uploaded_resume <~
        (if negb uploaded_resume
         then call (upload_resume_if_visible Br resume_path) (fun _ => EvUpload resume_path)
         else ret uploaded_resume) ;;
      _ <~ call (fill_visible_fields Br job) (fun _ => EvFillFields) ;;
      has_submit <~ _has_submit_button ;;
      if has_submit then
        if Settings.dry_run (Settings.application config)
           || negb (Settings.auto_submit (Settings.application config))
        then ret (Some (mk_result job "dry_run_ready" "submit_button_reached"))
        else
          _ <~ _click_submit ;;
          ret (Some (mk_result job "applied" ""))
      else
        advanced <~ _click_next_step ;;
        if negb advanced then ret None
        else
          _ <~ wait_for_timeout 1000 ;;
          apply_steps n' job resume_path uploaded_resume
  end.

(** The [try] block of [_apply_to_job]. *)
Definition apply_body (job : JobPosting.t) : Act W ApplicationResult.t :=
  _ <~ goto (JobPosting.url job) ;;
  _ <~ wait_for_timeout 1000 ;;
  found <~ _click_apply ;;
  if negb found then ret (mk_result job "skipped" "apply_button_not_found")
  else
    resume_path <~ call (resume_build Br job) (fun _ => EvBuildResume (JobPosting.job_id job)) ;;
    r <~ apply_steps 14 job resume_path false ;;
    match r with
    | Some result => ret result
    | None => ret (mk_result job "failed" "unable_to_reach_submit")
    end.

Definition _save_failure_html (job_id : string) (st : St W) : St W :=
  if Settings.save_html_on_failure (Settings.application config)
  then step (save_failure_html Br job_id) (EvSaveFailureHtml job_id) st
  else st.

(** [page = context.new_page(); page.set_default_timeout(...)], before
    the [try] of [_apply_to_job] and of [_enrich_job] and inside that of
    [run]. *)
Definition open_page : Act W unit :=
  _ <~ call (new_page Br) (fun _ => EvNewPage) ;;
  call (set_default_timeout Br (Settings.timeout_ms (Settings.browser config)))
    (fun _ => EvSetDefaultTimeout (Settings.timeout_ms (Settings.browser config))).

(** [finally: page.close()] *)
Definition close_page : Act W unit := attempt (page_close Br) EvClosePage.

(** The [except Exception as exc] block of [_apply_to_job]. *)
Definition apply_failed (job : JobPosting.t) (exc : exn) : Act W ApplicationResult.t :=
  fun st => (Ok (mk_result job "failed" (exn_str exc)),
             _save_failure_html (JobPosting.job_id job) st).

(** The page is opened before the [try]: what opening it raises is not
    caught, and neither is what [page.close()] raises in the [finally]. *)
Definition _apply_to_job (job : JobPosting.t) : Act W ApplicationResult.t :=
  _ <~ open_page ;;
  finally (try_except (apply_body job) (apply_failed job)) close_page.

(** The [try] block of [_enrich_job]. *)
Definition enrich_body (seed : JobPosting.t) : Act W JobPosting.t :=
  _ <~ goto (JobPosting.url seed) ;;
  _ <~ wait_for_timeout 900 ;;
  h1 <~ call_total (first_text Br ["h1"]) (fun _ => EvFirstText ["h1"]) ;;
  let title := or_else h1 (JobPosting.title seed) in
  let company_sel := ["a[href*='/employers/']"; "[data-testid='employer-name']";
                      "[data-qa='employer-name']"] in
  company <~ call_total (first_text Br company_sel) (fun _ => EvFirstText company_sel) ;;
  let location_sel := ["[data-testid='location']"; "[data-qa='job-location']";
                       "main span"] in
  location <~ call_total (first_text Br location_sel) (fun _ => EvFirstText location_sel) ;;
  let description_sel := ["main"; "article"; "body"] in
  body <~ call_total (first_text Br description_sel) (fun _ => EvFirstText description_sel) ;;
  let description := slice_to body 12000 in
  ret {| JobPosting.job_id := JobPosting.job_id seed;
         JobPosting.title := or_else title (JobPosting.title seed);
         JobPosting.company := company;
         JobPosting.location := location;
         JobPosting.description := description;
         JobPosting.url := JobPosting.url seed |}.

Definition _enrich_job (seed : JobPosting.t) : Act W JobPosting.t :=
  _ <~ open_page ;;
  finally (try_except (enrich_body seed) (fun _ => ret seed)) close_page.

(** [time.sleep]: a negative length raises. *)
Definition sleep (seconds : Z) : Act W unit :=
  fun st =>
    if seconds <? 0 then (Raise (ValueError "sleep length must be non-negative"), st)
    else (Ok tt, (st.1, st.2 ++ [EvSleep seconds])).

Definition counts_as_application (status : string) : bool :=
  list_in status ["applied"; "ready_to_submit"; "dry_run_ready"].

(** Where the loop over the discovered jobs stands: the [results] list,
    the counter, and the exception that ended the loop, if any. *)
Record LoopState : Type := {
  results : list ApplicationResult.t;
  applied_or_ready : Z;
  raised : option exn
}.

(** The loop [for seed_job in jobs] of [run]. *)
Fixpoint run_jobs (jobs : list JobPosting.t) (results : list ApplicationResult.t)
    (applied_or_ready : Z) (st : St W) : LoopState * St W :=
  match jobs with
  | [] => ({| results := results; applied_or_ready := applied_or_ready;
              raised := None |}, st)
  | seed_job :: rest =>
      if Settings.max_applications (Settings.application config) <=? applied_or_ready
      then ({| results := results; applied_or_ready := applied_or_ready;
               raised := None |}, st)
      else
        match _enrich_job seed_job st with
        | (Raise e, st) =>
            ({| results := results; applied_or_ready := applied_or_ready;
                raised := Some e |}, st)
        | (Ok job, st) =>
            if negb (_matches_filters job) then
              run_jobs rest (results ++ [mk_result job "skipped" "filter_mismatch"])
                applied_or_ready st
            else
              match _apply_to_job job st with
              | (Raise e, st) =>
                  ({| results := results; applied_or_ready := applied_or_ready;
                      raised := Some e |}, st)
              | (Ok result, st) =>
                  let results := results ++ [result] in
                  if counts_as_application (ApplicationResult.status result) then
                    let applied_or_ready := applied_or_ready + 1 in
                    match sleep (Settings.pause_between_apps_sec
                                   (Settings.application config)) st with
                    | (Ok _, st) => run_jobs rest results applied_or_ready st
                    | (Raise e, st) =>
                        ({| results := results; applied_or_ready := applied_or_ready;
                            raised := Some e |}, st)
                    end
                  else run_jobs rest results applied_or_ready st
              end
        end
  end.

(** [run]: the browser is closed whatever happens after its launch; the
    results are written and returned when nothing raised. *)
Definition run (Se : Session W) (st : St W)
  : result (list ApplicationResult.t) * St W :=
  match call (launch Se) (fun _ => EvLaunch) st with
  | (Raise e, st) => (Raise e, st)
  | (Ok _, st) =>
      let '(outcome, st) :=
        match (_ <~ open_page ;;
               _ <~ call (login Se) (fun _ => EvLogin) ;;
               call (discover_jobs Se) (fun jobs => EvDiscover (length jobs))) st with
        | (Raise e, st) => (Raise e, st)
        | (Ok jobs, st) =>
            let '(final, st) := run_jobs jobs [] 0 st in
            (match raised final with
             | Some e => Raise e
             | None => Ok (results final)
             end, st)
        end in
      match attempt (browser_close Se) EvCloseBrowser st with
      | (Raise e, st) => (Raise e, st)
      | (Ok _, st) =>
          match outcome with
          | Raise e => (Raise e, st)
          | Ok results =>
              match call (write_results Se results)
                      (fun _ => EvWriteResults (length results)) st with
              | (Ok _, st) => (Ok results, st)
              | (Raise e, st) => (Raise e, st)
              end
          end
      end
  end.

End Flow.

(** The bot pressed a button looked up by the submit patterns. *)
Definition is_submit_click (e : Event) : bool :=
  match e with
  | EvClickButton patterns _ => bool_decide (patterns = submit_patterns)
  | _ => false
  end.

(** The bot saw a visible button matching one of the submit patterns. *)
Definition is_submit_sighting (e : Event) : bool :=
  match e with
  | EvButtonProbe pattern true => list_in pattern submit_patterns
  | _ => false
  end.

(** Neither of the two. *)
Definition quiet (e : Event) : bool :=
  negb (is_submit_click e) && negb (is_submit_sighting e).

(** [m] only ever appends events that pass [P]. *)
Definition appends {W A : Type} (P : Event -> bool) (m : Act W A) : Prop :=
  forall st r st', m st = (r, st') ->
    exists evs, st'.2 = st.2 ++ evs /\ forallb P evs = true.

(** [m] appends no submit click, and when it appends a submit sighting its
    outcome satisfies [T]. *)
Definition guarded {W A : Type} (T : result A -> Prop) (m : Act W A) : Prop :=
  forall st r st', m st = (r, st') ->
    exists evs, st'.2 = st.2 ++ evs
                /\ forallb (fun e => negb (is_submit_click e)) evs = true
                /\ (existsb is_submit_sighting evs = true -> T r).

(** Whatever [m] returns without raising satisfies [Q]. *)
Definition returns {W A : Type} (Q : A -> Prop) (m : Act W A) : Prop :=
  forall st a st', m st = (Ok a, st') -> Q a.

(** The statuses a result may carry. *)
Definition statuses : list string :=
  ["applied"; "ready_to_submit"; "dry_run_ready"; "skipped"; "failed"].

(** [e] is what opening a job page, setting its timeout or closing it
    raises in some state of the browser. *)
Definition raised_at_page {W : Type} (config : Settings.AutomationConfig) (Br : Browser W)
    (e : exn) : Prop :=
  (exists w, (new_page Br w).1 = Raise e)
  \/ (exists w, (set_default_timeout Br (Settings.timeout_ms (Settings.browser config))
                   w).1 = Raise e)
  \/ (exists w, (page_close Br w).1 = Raise e).

(** What the loop of [run] does with one discovered job, [seed], from the
    state [st]: the result it appends. *)
Definition result_for {W : Type} (config : Settings.AutomationConfig) (Br : Browser W)
    (seed : JobPosting.t) (st : St W) : result ApplicationResult.t :=
  match _enrich_job config Br seed st with
  | (Raise e, _) => Raise e
  | (Ok job, st1) =>
      if negb (_matches_filters config job)
      then Ok (mk_result job "skipped" "filter_mismatch")
      else (_apply_to_job config Br job st1).1
  end.

End Bot.

(** ** Concrete instances *)

Module Examples.
Import Py PyStr.

Definition builtins0 : Builtins :=
  {| repr := fun _ => "[]";
     int_of_str := fun _ => Raise (ValueError "invalid literal for int()");
     float_of_str := fun _ => Raise (ValueError "could not convert string to float");
     float_of_int := fun z => Ok (FFinite (z # 1)) |}.

Definition job0 : JobPosting.t :=
  {| JobPosting.job_id := "42";
     JobPosting.title := "SWE Intern";
     JobPosting.company := "Acme, Inc.";
     JobPosting.location := "";
     JobPosting.description := "";
     JobPosting.url := "https://app.joinhandshake.com/stu/jobs/42" |}.

(** A client that never got its API key. *)
Definition no_llm : Llm.LLMClient :=
  {| Llm.config := Settings.default_LLMConfig; Llm._client := None |}.

(** A client whose hosted model always replies [reply]. *)
Definition llm_says (reply : string) : Llm.LLMClient :=
  {| Llm.config := Settings.default_LLMConfig;
     Llm._client := Some (fun _ => Ok (Some reply)) |}.

(** A client whose requests always fail. *)
Definition llm_down : Llm.LLMClient :=
  {| Llm.config := Settings.default_LLMConfig;
     Llm._client := Some (fun _ => Raise (HostError "connection refused")) |}.

Definition qa_with (llm : Llm.LLMClient) (defaults : gmap string string)
    (rules : list QuestionAnswerer.AliasRule) : QuestionAnswerer.t :=
  {| QuestionAnswerer.qa_config := Settings.default_QAConfig;
     QuestionAnswerer.llm := llm;
     QuestionAnswerer.defaults := defaults;
     QuestionAnswerer.alias_rules := rules |}.

Definition rule_work : QuestionAnswerer.AliasRule :=
  {| QuestionAnswerer.key := "work_authorization_us";
     QuestionAnswerer.patterns := ["authorized to work"] |}.

Definition rule_visa : QuestionAnswerer.AliasRule :=
  {| QuestionAnswerer.key := "needs_sponsorship";
     QuestionAnswerer.patterns := ["sponsorship"; "visa"] |}.

Definition rule_blank : QuestionAnswerer.AliasRule :=
  {| QuestionAnswerer.key := "full_name";
     QuestionAnswerer.patterns := [""] |}.

(** The answerer of tests/test_question_answerer.py, with one more rule. *)
Definition qa_test : QuestionAnswerer.t :=
  qa_with no_llm {[ "work_authorization_us" := "Yes" ]} [rule_work; rule_visa].

Definition qa_blank_rule : QuestionAnswerer.t :=
  qa_with no_llm ∅ [rule_blank; rule_visa].

(** No defaults file. *)
Definition qa_empty : QuestionAnswerer.t := qa_with no_llm ∅ [].

(** No defaults file, and answers capped at two characters. *)
Definition qa_short : QuestionAnswerer.t :=
  {| QuestionAnswerer.qa_config :=
       {| Settings.defaults_path := Settings.DEFAULT_QA_DEFAULTS_PATH;
          Settings.max_answer_chars := 2 |};
     QuestionAnswerer.llm := no_llm;
     QuestionAnswerer.defaults := ∅;
     QuestionAnswerer.alias_rules := [] |}.

(** A machine without the defaults file, and one where the file is empty. *)
Definition host_no_file : Settings.Host :=
  {| Settings.path_str := fun path => path;
     Settings.path_exists := fun _ => false;
     Settings.read_text := fun _ => Raise (FileNotFoundError "No such file or directory");
     Settings.safe_load := fun _ => Ok PNone;
     Settings.builtins := builtins0 |}.

Definition host_empty_file : Settings.Host :=
  {| Settings.path_str := fun path => path;
     Settings.path_exists := fun _ => true;
     Settings.read_text := fun _ => Ok "";
     Settings.safe_load := fun _ => Ok PNone;
     Settings.builtins := builtins0 |}.

(** A browser whose form shows its submit button after two presses of
    "next"; the state counts the presses.  Pages carry no text to scrape. *)
Definition browser_two_steps : HandshakeBot.Browser nat :=
  {| HandshakeBot.new_page := fun w => (Ok tt, w);
     HandshakeBot.set_default_timeout := fun _ w => (Ok tt, w);
     HandshakeBot.page_goto := fun _ _ => (Ok tt, 0%nat);
     HandshakeBot.page_wait := fun _ w => (Ok tt, w);
     HandshakeBot.button_visible :=
       fun pattern w => (Ok (String.eqb pattern "submit" && (2 <=? w)%nat), w);
     HandshakeBot.click_button :=
       fun patterns w =>
         if bool_decide (patterns = Bot.next_patterns) then (true, S w) else (true, w);
     HandshakeBot.apply_link_visible := fun w => (Ok false, w);
     HandshakeBot.apply_link_click := fun w => (Ok tt, w);
     HandshakeBot.resume_build := fun _ w => (Ok "artifacts/resumes/job.pdf", w);
     HandshakeBot.upload_resume_if_visible := fun _ w => (Ok true, w);
     HandshakeBot.fill_visible_fields := fun _ w => (Ok tt, w);
     HandshakeBot.first_text := fun _ w => ("", w);
     HandshakeBot.save_failure_html := fun _ w => w;
     HandshakeBot.page_close := fun w => (Ok tt, w) |}.

(** A browser that can open [limit] pages and no more; the state counts
    the pages opened.  No page shows an apply button. *)
Definition browser_pages (limit : nat) : HandshakeBot.Browser nat :=
  {| HandshakeBot.new_page :=
       fun w => if (w <? limit)%nat then (Ok tt, S w)
                else (Raise (HostError "Target page, context or browser has been closed"), w);
     HandshakeBot.set_default_timeout := fun _ w => (Ok tt, w);
     HandshakeBot.page_goto := fun _ w => (Ok tt, w);
     HandshakeBot.page_wait := fun _ w => (Ok tt, w);
     HandshakeBot.button_visible := fun _ w => (Ok false, w);
     HandshakeBot.click_button := fun _ w => (false, w);
     HandshakeBot.apply_link_visible := fun w => (Ok false, w);
     HandshakeBot.apply_link_click := fun w => (Ok tt, w);
     HandshakeBot.resume_build := fun _ w => (Ok "artifacts/resumes/job.pdf", w);
     HandshakeBot.upload_resume_if_visible := fun _ w => (Ok false, w);
     HandshakeBot.fill_visible_fields := fun _ w => (Ok tt, w);
     HandshakeBot.first_text := fun _ w => ("", w);
     HandshakeBot.save_failure_html := fun _ w => w;
     HandshakeBot.page_close := fun w => (Ok tt, w) |}.

(** A session that starts, logs in, finds [jobs] and writes its log. *)
Definition session_finding (jobs : list JobPosting.t) : HandshakeBot.Session nat :=
  {| HandshakeBot.launch := fun w => (Ok tt, w);
     HandshakeBot.login := fun w => (Ok tt, w);
     HandshakeBot.discover_jobs := fun w => (Ok jobs, w);
     HandshakeBot.browser_close := fun w => (Ok tt, w);
     HandshakeBot.write_results := fun _ w => (Ok tt, w) |}.

(** A posting as discovery leaves it: id, title and URL. *)
Definition seed_job (job_id title : string) : JobPosting.t :=
  {| JobPosting.job_id := job_id;
     JobPosting.title := title;
     JobPosting.company := "";
     JobPosting.location := "";
     JobPosting.description := "";
     JobPosting.url := "https://app.joinhandshake.com/stu/jobs/" +:+ job_id |}.

Definition config_with_filters (f : Settings.FilterConfig) : Settings.AutomationConfig :=
  {| Settings.handshake :=
       {| Settings.email := "test@example.com"; Settings.password := "secret";
          Settings.login_url := Settings.DEFAULT_HANDSHAKE_LOGIN_URL;
          Settings.jobs_url := Settings.DEFAULT_HANDSHAKE_JOBS_URL |};
     Settings.browser := Settings.default_BrowserConfig;
     Settings.filters := f;
     Settings.application := Settings.default_ApplicationConfig;
     Settings.resume := Settings.default_ResumeConfig;
     Settings.llm := Settings.default_LLMConfig;
     Settings.qa := Settings.default_QAConfig |}.

Definition filters_of (include exclude : list string) : Settings.FilterConfig :=
  {| Settings.search_query := Settings.DEFAULT_FILTER_SEARCH_QUERY;
     Settings.include_keywords := include;
     Settings.exclude_keywords := exclude;
     Settings.preferred_locations := [];
     Settings.remote_only := false;
     Settings.max_discovered_jobs := Settings.DEFAULT_FILTER_MAX_DISCOVERED |}.

(** Dry run (the default), keywords "software" and "Intern" wanted,
    "senior" unwanted. *)
Definition config_keywords : Settings.AutomationConfig :=
  config_with_filters (filters_of ["software"; "Intern"] ["senior"]).

(** A blank exclude keyword. *)
Definition config_blank_exclude : Settings.AutomationConfig :=
  config_with_filters (filters_of [] [" "]).

(** No filter configured at all: [FilterConfig()]. *)
Definition config_no_filters : Settings.AutomationConfig :=
  config_with_filters Settings.default_FilterConfig.

(** A machine whose configuration file parses to [doc]; no other file exists. *)
Definition host_with_config (doc : pyval) : Settings.Host :=
  {| Settings.path_str := fun path => path;
     Settings.path_exists := fun path => String.eqb path "config/application.yaml";
     Settings.read_text := fun _ => Ok "(the text of config/application.yaml)";
     Settings.safe_load := fun _ => Ok doc;
     Settings.builtins := builtins0 |}.

(** [handshake: {email: ..., password: ...}] and nothing else. *)
Definition doc_handshake_only : pyval :=
  PDict [(PStr "handshake",
          PDict [(PStr "email", PStr "test@example.com");
                 (PStr "password", PStr "secret")])].

(** A document with filters but no [handshake] section. *)
Definition doc_no_handshake : pyval :=
  PDict [(PStr "filters", PDict [(PStr "remote_only", PBool true)])].

(** A [handshake] section whose password is empty. *)
Definition doc_blank_password : pyval :=
  PDict [(PStr "handshake",
          PDict [(PStr "email", PStr "test@example.com");
                 (PStr "password", PStr "")])].

(** The flags [--dry-run --max-applications 3 --headless]. *)
Definition args_all : Cli.Args :=
  {| Cli.arg_dry_run := true; Cli.arg_max_applications := Some 3;
     Cli.arg_headless := true |}.

(** A loaded configuration that asks for real submissions. *)
Definition config_live : Settings.AutomationConfig :=
  {| Settings.handshake :=
       {| Settings.email := "test@example.com"; Settings.password := "secret";
          Settings.login_url := Settings.DEFAULT_HANDSHAKE_LOGIN_URL;
          Settings.jobs_url := Settings.DEFAULT_HANDSHAKE_JOBS_URL |};
     Settings.browser := Settings.default_BrowserConfig;
     Settings.filters := Settings.default_FilterConfig;
     Settings.application :=
       {| Settings.dry_run := false; Settings.auto_submit := true;
          Settings.max_applications := 7; Settings.pause_between_apps_sec := 2;
          Settings.save_html_on_failure := true |};
     Settings.resume := Settings.default_ResumeConfig;
     Settings.llm := Settings.default_LLMConfig;
     Settings.qa := Settings.default_QAConfig |}.

End Examples.

(** ** llm.py: the resume sections *)

Module LlmResume.
Import Py PyStr.

(** The dictionary [generate_resume_sections] returns. *)
Record Sections : Type := {
  summary : string;
  top_skills : list string;
  experience_highlights : list string
}.

Definition default_sections : Sections :=
  {| summary :=
       "Motivated software engineering student focused on shipping reliable products.";
     top_skills := ["Python"; "Java"; "TypeScript"; "SQL"; "Testing"];
     experience_highlights :=
       ["Built and shipped production-ready features across backend and frontend stacks.";
        "Improved reliability and observability with metrics, tests, and incident fixes.";
        "Collaborated in agile teams using code reviews and iterative delivery."] |}.

Definition resume_system : string :=
  "You tailor internship resumes. Return only strict JSON with keys " +:+
  "'summary', 'top_skills', 'experience_highlights'. " +:+
  "top_skills and experience_highlights must be arrays of short strings.".

Definition resume_user (job : JobPosting.t) (base_resume_text : string) : string :=
  "Job Title: " +:+ JobPosting.title job +:+ nl +:+
  "Company: " +:+ JobPosting.company job +:+ nl +:+
  "Location: " +:+ JobPosting.location job +:+ nl +:+
  "Job Description:" +:+ nl +:+ slice_to (JobPosting.description job) 5000 +:+ nl +:+ nl +:+
  "Candidate Resume Text:" +:+ nl +:+ slice_to base_resume_text 5000 +:+ nl +:+ nl +:+
  "Create a targeted but truthful internship resume angle.".

(** [xs or dflt] on lists of strings. *)
Definition list_or (xs dflt : list string) : list string :=
  match xs with [] => dflt | _ => xs end.

(** The [try] block: parse the reply and sanitize the three fields. *)
Definition parse_sections (B : Builtins) (json_loads : string -> result pyval)
    (raw : string) : result Sections :=
  parsed <- json_loads raw ;;
  s0 <- get parsed "summary" (PStr (summary default_sections)) ;;
  let summary0 := strip (py_str B s0) in
  t0 <- get parsed "top_skills" (PList (map PStr (top_skills default_sections))) ;;
  t1 <- QuestionAnswerer.iterate t0 ;;
  let top_skills0 := map (fun item => strip (py_str B item)) t1 in
  h0 <- get parsed "experience_highlights"
          (PList (map PStr (experience_highlights default_sections))) ;;
  h1 <- QuestionAnswerer.iterate h0 ;;
  let highlights := map (fun item => strip (py_str B item)) h1 in
  Ok {| summary := or_else summary0 (summary default_sections);
        top_skills :=
          list_or (firstn 8 (List.filter truthy top_skills0)) (top_skills default_sections);
        experience_highlights :=
          list_or (firstn 6 (List.filter truthy highlights))
            (experience_highlights default_sections) |}.

(** [generate_resume_sections], with the requests it sent. *)
Definition generate_resume_sections (B : Builtins) (json_loads : string -> result pyval)
    (c : Llm.LLMClient) (job : JobPosting.t) (base_resume_text : string)
  : Sections * list Llm.Request :=
  if negb (Llm.enabled c) then (default_sections, [])
  else
    let '(raw, sent) := Llm._chat c resume_system (resume_user job base_resume_text) in
    if negb (truthy raw) then (default_sections, sent)
    else
      match parse_sections B json_loads raw with
      | Ok sections => (sections, sent)
      | Raise _ => (default_sections, sent)
      end.

End LlmResume.

(** ** resume_builder.py: markdown to plain text *)

Module PlainText.
Import PyStr.

Definition is_hash (c : ascii) : bool := Ascii.eqb c "#".
Definition is_newline (c : ascii) : bool := (code c =? 10)%N.

(** Where the scan of [re.sub(r"^#+\s*", "", markdown, flags=re.MULTILINE)]
    stands: in ordinary text (at the start of a line or not), inside the
    hashes of a match, or inside the white space that ends a match (the
    last character eaten being a line feed or not). *)
Inductive heading_mode : Type :=
| AtText (line_start : bool)
| InHashes
| InBlank (after_newline : bool).

Fixpoint strip_headings (m : heading_mode) (s : string) : string :=
  match s with
  | EmptyString => EmptyString
  | String c r =>
      match m with
      | AtText line_start =>
          if line_start && is_hash c then strip_headings InHashes r
          else String c (strip_headings (AtText (is_newline c)) r)
      | InHashes =>
          if is_hash c then strip_headings InHashes r
          else if is_space c then strip_headings (InBlank (is_newline c)) r
          else String c (strip_headings (AtText false) r)
      | InBlank after_newline =>
          if is_space c then strip_headings (InBlank (is_newline c)) r
          else if after_newline && is_hash c then strip_headings InHashes r
          else String c (strip_headings (AtText false) r)
      end
  end.

(** The class [[*_`>-]]. *)
Definition is_markup (c : ascii) : bool :=
  existsb (Ascii.eqb c) (list_ascii_of_string "*_`>-").

(** [re.sub] of a one-character class by nothing. *)
Fixpoint remove_chars (p : ascii -> bool) (s : string) : string :=
  match s with
  | EmptyString => EmptyString
  | String c r => if p c then remove_chars p r else String c (remove_chars p r)
  end.

Definition _markdown_to_plain_text (markdown : string) : string :=
  let text := strip_headings (AtText true) markdown in
  let text := remove_chars is_markup text in
  strip text.

End PlainText.

(** ** handshake_bot.py: the helpers that do not touch the browser *)

Module BotHelpers.
Import Py PyStr.

(** [\d] on the modelled range. *)
Definition is_digit (c : ascii) : bool := in_range 48 57 c.

Fixpoint digits_prefix (s : string) : string :=
  match s with
  | String c r => if is_digit c then String c (digits_prefix r) else EmptyString
  | EmptyString => EmptyString
  end.

Fixpoint drop (n : nat) (s : string) : string :=
  match n, s with
  | S n', String _ r => drop n' r
  | _, _ => s
  end.

(** [/word/(\d+)] tried at the start of [s]. *)
Definition digits_after (word : string) (s : string) : option string :=
  if startswith word s then
    let d := digits_prefix (drop (String.length word) s) in
    if truthy d then Some d else None
  else None.

(** [/(?:jobs|postings)/(\d+)] tried at the start of [s]. *)
Definition id_here (s : string) : option string :=
  match digits_after "/jobs/" s with
  | Some d => Some d
  | None => digits_after "/postings/" s
  end.

(** [re.search]: the leftmost position where the pattern matches. *)
Fixpoint id_search (s : string) : option string :=
  match id_here s with
  | Some d => Some d
  | None =>
      match s with
      | EmptyString => None
      | String _ r => id_search r
      end
  end.

Definition _extract_job_id (url : string) (index_fallback : Z) : string :=
  match id_search url with
  | Some d => d
  | None => "idx-" +:+ pretty index_fallback
  end.

(** The URL holds [/jobs/] or [/postings/] followed by a digit. *)
Definition has_numbered_segment (url : string) : Prop :=
  exists p c r, is_digit c = true
                /\ (url = p +:+ "/jobs/" +:+ String c r
                    \/ url = p +:+ "/postings/" +:+ String c r).

Definition _is_authenticated_url (url : string) : bool :=
  let normalized := lower url in
  if negb (truthy normalized) then false
  else if str_in "app.joinhandshake.com/stu/" normalized then true
  else str_in "app.joinhandshake.com" normalized
       && negb (str_in "/login" normalized)
       && negb (str_in "/auth/" normalized).

Definition _best_choice (answer : string) (options : list string) : string :=
  if negb (truthy answer) then ""
  else
    match lowered options !! lower answer with
    | Some option => option
    | None =>
        match List.find (fun option => str_in (lower option) (lower answer)
                                       || str_in (lower answer) (lower option)) options with
        | Some option => option
        | None => ""
        end
    end.

(** Lines 427-432 of [_fill_select_inputs]: the label to select for the
    answer; [None] when the select has no option (it is skipped). *)
Definition select_label (answer : string) (labels : list string) : option string :=
  match labels with
  | [] => None
  | first :: _ =>
      let selected := if truthy answer then _best_choice answer labels else "" in
      Some (if negb (truthy selected) then first else selected)
  end.

(** Lines 434-438: the value of the first option carrying the label. *)
Fixpoint option_value (selected : string) (options : list (string * string)) : string :=
  match options with
  | [] => ""
  | (label, value) :: rest =>
      if String.eqb label selected then value else option_value selected rest
  end.

(** [options.index(selected)] *)
Fixpoint index_of (x : string) (xs : list string) : nat :=
  match xs with
  | [] => O
  | y :: rest => if String.eqb y x then O else S (index_of x rest)
  end.

(** Lines 474-475 of [_fill_radio_inputs]: the radio to check, for a group
    with at least one label. *)
Definition radio_index (answer : string) (options : list string) : nat :=
  let selected :=
    if truthy answer then _best_choice answer options
    else match options with first :: _ => first | [] => "" end in
  if list_in selected options then index_of selected options else O.

(** An anchor of the listing page, as [_discover_jobs] reads it. *)
Record Anchor : Type := {
  href : option string;
  inner_text : option string
}.

(** The characters [str.splitlines] breaks at. *)
Definition is_linebreak (c : ascii) : bool :=
  in_range 10 13 c || in_range 28 30 c || (code c =? 133)%N.

(** [s.splitlines()[0]] for a non-empty [s]. *)
Fixpoint first_line (s : string) : string :=
  match s with
  | EmptyString => EmptyString
  | String c r => if is_linebreak c then EmptyString else String c (first_line r)
  end.

(** [s.split(sep)[0]] *)
Fixpoint before_char (sep : ascii) (s : string) : string :=
  match s with
  | EmptyString => EmptyString
  | String c r => if Ascii.eqb c sep then EmptyString else String c (before_char sep r)
  end.

(** What the harvesting loop ends with: the jobs, or the [IndexError] of
    [splitlines()[0]] on a link without text. *)
Inductive harvest : Type :=
| Harvested (jobs : list JobPosting.t)
| IndexErrorRaised.

(** The loop [for idx in range(count)] of [_discover_jobs], over the
    anchors still to visit. *)
Fixpoint harvest_loop (urljoin : string -> string -> string) (page_url : string)
    (max_discovered_jobs : Z) (anchors : list Anchor) (idx : Z)
    (seen_urls : gset string) (jobs : list JobPosting.t) : harvest :=
  match anchors with
  | [] => Harvested jobs
  | node :: rest =>
      let href := strip (default "" (href node)) in
      if negb (truthy href) then
        harvest_loop urljoin page_url max_discovered_jobs rest (idx + 1) seen_urls jobs
      else if negb (str_in "/jobs/" href) && negb (str_in "/postings/" href) then
        harvest_loop urljoin page_url max_discovered_jobs rest (idx + 1) seen_urls jobs
      else
        let url := urljoin page_url (before_char "?" href) in
        if bool_decide (url ∈ seen_urls) then
          harvest_loop urljoin page_url max_discovered_jobs rest (idx + 1) seen_urls jobs
        else
          let seen_urls := {[ url ]} ∪ seen_urls in
          match default "" (inner_text node) with
          | EmptyString => IndexErrorRaised
          | text =>
              let title := strip (first_line text) in
              let job_id := _extract_job_id url idx in
              let jobs :=
                jobs ++ [ {| JobPosting.job_id := job_id;
                             JobPosting.title := or_else title "Unknown Role";
                             JobPosting.company := "";
                             JobPosting.location := "";
                             JobPosting.description := "";
                             JobPosting.url := url |} ] in
              if max_discovered_jobs <=? Z.of_nat (length jobs) then Harvested jobs
              else
                harvest_loop urljoin page_url max_discovered_jobs rest (idx + 1)
                  seen_urls jobs
          end
  end.

(** Lines 194-218 of [_discover_jobs]: at most four times the limit of
    anchors are looked at. *)
Definition harvest_jobs (urljoin : string -> string -> string) (page_url : string)
    (max_discovered_jobs : Z) (anchors : list Anchor) : harvest :=
  let count := Z.min (Z.of_nat (length anchors)) (max_discovered_jobs * 4) in
  harvest_loop urljoin page_url max_discovered_jobs
    (firstn (Z.to_nat count) anchors) 0 ∅ [].

(** What every harvested job satisfies: a title, an identifier, and a URL
    built from the link of one of the anchors. *)
Definition well_formed (urljoin : string -> string -> string) (page_url : string)
    (anchors : list Anchor) (job : JobPosting.t) : Prop :=
  JobPosting.title job <> ""
  /\ JobPosting.job_id job <> ""
  /\ exists node,
      In node anchors
      /\ JobPosting.url job
         = urljoin page_url (before_char "?" (strip (default "" (href node))))
      /\ (occurs_in "/jobs/" (strip (default "" (href node)))
          \/ occurs_in "/postings/" (strip (default "" (href node)))).

(** How many results count against [max_applications]. *)
Definition count_ready (results : list ApplicationResult.t) : Z :=
  Z.of_nat (length (List.filter
                      (fun r => Bot.counts_as_application (ApplicationResult.status r))
                      results)).

End BotHelpers.

(** ** scripts/answer_application_question.py *)

Module Scripts.
Import Py PyStr.

(** [s.split(sep)] for a one-character separator. *)
Fixpoint split_on (sep : ascii) (s : string) : list string :=
  match s with
  | EmptyString => [EmptyString]
  | String c r =>
      if Ascii.eqb c sep then EmptyString :: split_on sep r
      else
        match split_on sep r with
        | h :: t => String c h :: t
        | [] => [String c EmptyString]
        end
  end.

(** [[p.strip() for p in parts if p.strip()]] *)
Definition trimmed_nonblank (parts : list string) : list string :=
  map strip (List.filter (fun part => truthy (strip part)) parts).

Definition _parse_choices (B : Builtins) (json_loads : string -> result pyval)
    (raw : string) : list string :=
  let text := strip raw in
  if negb (truthy text) then []
  else
    let from_json :=
      if startswith "[" text then
        match json_loads text with
        | Ok (PList items) => Some (trimmed_nonblank (map (py_str B) items))
        | _ => None
        end
      else None in
    match from_json with
    | Some choices => choices
    | None => trimmed_nonblank (split_on "|" text)
    end.

End Scripts.

(** ** Reading the event log *)

Module BotTrace.
Import Py PyStr HandshakeBot Bot.

(** An event of the work inside one page. *)
Definition in_page (e : Event) : bool :=
  match e with
  | EvNewPage | EvSetDefaultTimeout _ | EvClosePage | EvSleep _
  | EvLaunch | EvLogin | EvDiscover _ | EvCloseBrowser | EvWriteResults _ => false
  | _ => true
  end.

(** An event of the loop over the jobs: page work, pages opened and closed,
    pauses. *)
Definition in_loop (e : Event) : bool :=
  match e with
  | EvLaunch | EvLogin | EvDiscover _ | EvCloseBrowser | EvWriteResults _ => false
  | _ => true
  end.

(** An event between the launch of the browser and its closing. *)
Definition in_session (e : Event) : bool :=
  match e with
  | EvLaunch | EvCloseBrowser | EvWriteResults _ => false
  | _ => true
  end.

(** The bot pressed a button found by the submit patterns, and the press
    went through. *)
Definition submit_pressed : Event := EvClickButton submit_patterns true.

(** [m] appends events that relate to its outcome by [R]. *)
Definition shows {W A : Type} (R : result A -> list Event -> Prop) (m : Act W A) : Prop :=
  forall st r st', m st = (r, st') -> exists evs, st'.2 = st.2 ++ evs /\ R r evs.

(** Not a press of a button found by the submit patterns. *)
Definition no_submit_click (e : Event) : bool := negb (is_submit_click e).

(** What a run logs after closing the browser. *)
Definition written (r : result (list ApplicationResult.t)) : list Event :=
  match r with
  | Ok results => [EvWriteResults (length results)]
  | Raise _ => []
  end.

(** What a flow that works on a page of its own leaves, from the state
    [st]: nothing when the page cannot be opened; an open page when its
    timeout cannot be set; otherwise the page opened, its timeout set, work
    in the class [P], and the page closed.  In the first two cases the
    exception goes to the caller. *)
Definition page_bracket {W A : Type} (config : Settings.AutomationConfig) (Br : Browser W)
    (P : Event -> bool) (st : St W) (out : result A * St W) : Prop :=
  (exists e, out.1 = Raise e /\ (new_page Br st.1).1 = Raise e /\ out.2.2 = st.2)
  \/ (exists e w,
        out.1 = Raise e
        /\ (set_default_timeout Br (Settings.timeout_ms (Settings.browser config)) w).1
           = Raise e
        /\ out.2.2 = st.2 ++ [EvNewPage])
  \/ (exists mid,
        out.2.2 = st.2 ++ EvNewPage
                  :: EvSetDefaultTimeout (Settings.timeout_ms (Settings.browser config))
                  :: mid ++ [EvClosePage]
        /\ forallb P mid = true).

(** What the log must hold for a result to be reported. *)
Definition backed_by (res : ApplicationResult.t) (evs : list Event) : Prop :=
  (ApplicationResult.status res = "applied" -> In submit_pressed evs)
  /\ (ApplicationResult.status res = "dry_run_ready" ->
      existsb is_submit_sighting evs = true).

End BotTrace.

(** ** handshake_bot.py: signing in *)

Module Login.
Import Py PyStr BotHelpers.

(** What the bot does to the page while signing in.  [EvUrl] carries what
    [_safe_page_url] returned; [EvFillFirst] carries the URL the bot last
    read, then the arguments of [_fill_first]. *)
Inductive Event : Type :=
| EvGoto (url : string)
| EvWait (ms : Z)
| EvIsClosed (closed : bool)
| EvUrl (url : string)
| EvFillFirst (current_url : string) (selectors : list string) (value : string)
| EvClickButton (patterns : list string) (clicked : bool)
| EvClickSubmitIfEnabled
| EvPressEnterFirst (selectors : list string).

(** How [page.goto] and [page.wait_for_timeout] end: normally, with
    Playwright's [Error] (or its subclass [TimeoutError]), or with another
    exception. *)
Inductive outcome : Type :=
| Done
| PlaywrightError (msg : string)
| OtherError (e : exn).

(** The page, over a state [W] the bot does not look into.  [url] is the
    property [page.url], with [None] read as the empty string;
    [fill_first], [click_submit_if_enabled] and [press_enter_first] are the
    helpers of the same names, which raise what [page.locator] and
    [count()] raise; [click_button] is [_click_button], which swallows every
    exception. *)
Record Page (W : Type) : Type := {
  is_closed : W -> bool * W;
  url : W -> result string * W;
  goto : string -> W -> outcome * W;
  wait_for_timeout : Z -> W -> outcome * W;
  fill_first : list string -> string -> W -> result unit * W;
  click_button : list string -> W -> bool * W;
  click_submit_if_enabled : W -> result bool * W;
  press_enter_first : list string -> W -> result unit * W
}.
Arguments is_closed {W}.
Arguments url {W}.
Arguments goto {W}.
Arguments wait_for_timeout {W}.
Arguments fill_first {W}.
Arguments click_button {W}.
Arguments click_submit_if_enabled {W}.
Arguments press_enter_first {W}.

Definition St (W : Type) : Type := (W * list Event)%type.

Definition M (W A : Type) : Type := St W -> result A * St W.

Definition ret {W A : Type} (a : A) : M W A := fun st => (Ok a, st).

Definition raise {W A : Type} (e : exn) : M W A := fun st => (Raise e, st).

Definition bind {W A B : Type} (m : M W A) (k : A -> M W B) : M W B :=
  fun st =>
    match m st with
    | (Ok a, st') => k a st'
    | (Raise e, st') => (Raise e, st')
    end.

(** A call on the page, logged as [ev], whose outcome [f] gives. *)
Definition call {W O A : Type} (f : W -> O * W) (ev : Event) (after : O -> result A)
  : M W A :=
  fun st => let '(o, w) := f st.1 in (after o, (w, st.2 ++ [ev])).

(** A call that cannot raise, logged with its answer. *)
Definition ask {W A : Type} (f : W -> A * W) (ev : A -> Event) : M W A :=
  fun st => let '(a, w) := f st.1 in (Ok a, (w, st.2 ++ [ev a])).

Notation "x <-- m ;; k" := (bind m (fun x => k))
  (at level 100, m at next level, right associativity).

Definition email_selectors : list string :=
  ["input[type='email']"; "input[name='email']"; "input[name='username']"; "input#email"].

Definition password_selectors : list string :=
  ["input[type='password']"; "input[name='password']"; "input#password"].

Definition button_patterns : list string := ["sign in"; "log in"; "continue"; "next"].

(** [except PlaywrightError as exc: if "closed" in str(exc).lower(): raise
    RuntimeError(message) from exc; raise] *)
Definition reraise (message : string) (o : outcome) : result unit :=
  match o with
  | Done => Ok tt
  | PlaywrightError msg =>
      if str_in "closed" (lower msg) then Raise (RuntimeError message)
      else Raise (HostError msg)
  | OtherError e => Raise e
  end.

Section Flow.
Context {W : Type}.
Variable config : Settings.AutomationConfig.
Variable P : Page W.

Definition _safe_page_url : M W string :=
  ask (fun w => let '(r, w') := url P w in
                (match r with Ok u => u | Raise _ => "" end, w'))
      EvUrl.

Definition _safe_wait (milliseconds : Z) : M W unit :=
  call (wait_for_timeout P milliseconds) (EvWait milliseconds)
    (reraise ("Browser page was closed during login/apply flow. "
              +:+ "Keep it open while automation runs.")).

Definition _safe_goto (target : string) : M W unit :=
  call (goto P target) (EvGoto target)
    (reraise "Browser page was closed before navigation finished.").

Definition _fill_first (current_url : string) (selectors : list string) (value : string)
  : M W unit :=
  call (fill_first P selectors value) (EvFillFirst current_url selectors value) id.

Definition _click_button (patterns : list string) : M W bool :=
  ask (click_button P patterns) (EvClickButton patterns).

Definition _click_submit_if_enabled : M W bool :=
  call (click_submit_if_enabled P) EvClickSubmitIfEnabled id.

Definition _press_enter_first (selectors : list string) : M W unit :=
  call (press_enter_first P selectors) (EvPressEnterFirst selectors) id.

(** The loop [for _ in range(max(1, attempts))], over the rounds left. *)
Fixpoint attempt_rounds (rounds : nat) : M W unit :=
  match rounds with
  | O => ret tt
  | S rounds' =>
      closed <-- ask (is_closed P) EvIsClosed ;;
      if closed then raise (RuntimeError "Browser page was closed during login.")
      else
        current_url <-- _safe_page_url ;;
        if _is_authenticated_url current_url then ret tt
        else if negb (str_in "app.joinhandshake.com" (lower current_url)) then ret tt
        else
          _ <-- _fill_first current_url email_selectors
                  (Settings.email (Settings.handshake config)) ;;
          _ <-- _fill_first current_url password_selectors
                  (Settings.password (Settings.handshake config)) ;;
          clicked <-- _click_button button_patterns ;;
          clicked <-- (if negb clicked then _click_submit_if_enabled else ret clicked) ;;
          _ <-- (if negb clicked
                 then _press_enter_first (password_selectors ++ email_selectors)
                 else ret tt) ;;
          _ <-- _safe_wait 900 ;;
          attempt_rounds rounds'
  end.

Definition _attempt_login_submission (attempts : Z) : M W unit :=
  attempt_rounds (Z.to_nat (Z.max 1 attempts)).

(** The loop [for second in range(timeout_sec)], over the seconds left;
    running out of them is the time-out. *)
Fixpoint wait_seconds (left : nat) (second : Z) : M W unit :=
  match left with
  | O => raise (RuntimeError
                  ("Timed out waiting for Handshake login completion. "
                   +:+ "Finish SSO/2FA in the opened browser and re-run."))
  | S left' =>
      closed <-- ask (is_closed P) EvIsClosed ;;
      if closed then
        raise (RuntimeError
                 ("Browser page was closed during login. "
                  +:+ "Keep the window open through SSO/2FA."))
      else
        current <-- _safe_page_url ;;
        if _is_authenticated_url current then ret tt
        else
          _ <-- (if second mod 5 =? 0 then _attempt_login_submission 1 else ret tt) ;;
          _ <-- _safe_wait 1000 ;;
          wait_seconds left' (second + 1)
  end.

Definition _wait_for_login_completion (timeout_sec : Z) : M W unit :=
  wait_seconds (Z.to_nat timeout_sec) 0.

Definition _login : M W unit :=
  _ <-- _safe_goto (Settings.login_url (Settings.handshake config)) ;;
  _ <-- _attempt_login_submission 3 ;;
  _ <-- _wait_for_login_completion 180 ;;
  _ <-- _safe_goto (Settings.jobs_url (Settings.handshake config)) ;;
  _safe_wait 1500.

End Flow.

(** [m] appends events that relate to its outcome by [R]. *)
Definition shows {W A : Type} (R : result A -> list Event -> Prop) (m : M W A) : Prop :=
  forall st r st', m st = (r, st') -> exists evs, st'.2 = st.2 ++ evs /\ R r evs.

(** The value handed to [_fill_first] is one of the two credentials, for
    its own selectors, and the URL read just before is a Handshake URL that
    does not count as signed in. *)
Definition fill_is_due (config : Settings.AutomationConfig) (e : Event) : Prop :=
  match e with
  | EvFillFirst current_url selectors value =>
      str_in "app.joinhandshake.com" (lower current_url) = true
      /\ _is_authenticated_url current_url = false
      /\ ((selectors = email_selectors
           /\ value = Settings.email (Settings.handshake config))
          \/ (selectors = password_selectors
              /\ value = Settings.password (Settings.handshake config)))
  | _ => True
  end.

Definition is_fill (e : Event) : bool :=
  match e with
  | EvFillFirst _ _ _ => true
  | _ => false
  end.

(** How many times [_fill_first] was called. *)
Definition fills (evs : list Event) : nat := length (List.filter is_fill evs).

(** How many of the [left] seconds from [second] on are multiples of 5. *)
Fixpoint due (left : nat) (second : Z) : nat :=
  match left with
  | O => O
  | S left' => ((if (second mod 5 =? 0)%Z then 1 else 0) + due left' (second + 1)%Z)%nat
  end.

(** The bot read a URL that counts as signed in. *)
Definition saw_signed_in (evs : list Event) : Prop :=
  exists u, In (EvUrl u) evs /\ _is_authenticated_url u = true.

End Login.

(** ** cli.py: the summary of a run *)

Module CliSummary.
Import Py PyStr.

(** [status_counts[result.status] = status_counts.get(result.status, 0) + 1] *)
Definition count_result (status_counts : gmap string Z) (result : ApplicationResult.t)
  : gmap string Z :=
  <[ApplicationResult.status result :=
      default 0 (status_counts !! ApplicationResult.status result) + 1]> status_counts.

(** The loop [for result in results] of [main]. *)
Definition status_counts (results : list ApplicationResult.t) : gmap string Z :=
  fold_left count_result results ∅.

(** The results that carry [status]. *)
Definition with_status (status : string) (results : list ApplicationResult.t)
  : list ApplicationResult.t :=
  List.filter (fun r => String.eqb (ApplicationResult.status r) status) results.

End CliSummary.

(** ** handshake_bot.py: the prompt of a form field *)

Module Prompt.
Import Py PyStr.

(** A form control as [_prompt_for_input] reads it: [get_attribute], the
    label [label[for='id']] of the page ([None] when [count()] is 0,
    otherwise [inner_text()] of the first), the text [evaluate] finds in
    the closest label or legend, and [_is_visible]. *)
Record Field : Type := {
  get_attribute : string -> result (option string);
  label_for : string -> result (option (option string));
  closest_text : result (option string);
  is_visible : bool
}.

(** The loop [for attr in ("aria-label", "placeholder", "name")]: the
    first value that is not blank. *)
Fixpoint first_attribute (locator : Field) (attrs : list string) : result (option string) :=
  match attrs with
  | [] => Ok None
  | attr :: rest =>
      v <- get_attribute locator attr ;;
      let value := strip (default "" v) in
      if truthy value then Ok (Some value) else first_attribute locator rest
  end.

Definition _prompt_for_input (locator : Field) : result string :=
  v <- get_attribute locator "id" ;;
  let input_id := strip (default "" v) in
  labelled <-
    (if truthy input_id then
       label <- label_for locator input_id ;;
       match label with
       | Some inner_text =>
           let text := strip (default "" inner_text) in
           Ok (if truthy text then Some text else None)
       | None => Ok None
       end
     else Ok None) ;;
  match labelled with
  | Some text => Ok text
  | None =>
      named <- first_attribute locator ["aria-label"; "placeholder"; "name"] ;;
      match named with
      | Some value => Ok value
      | None =>
          match closest_text locator with
          | Ok (Some text) => Ok (if truthy text then text else "Application question")
          | Ok None => Ok "Application question"
          | Raise _ => Ok "Application question"
          end
      end
  end.

(** The loop of [_radio_group_labels] over the radios still to visit,
    [i] being the index of the first. *)
Fixpoint radio_labels (group : list Field) (i : Z) : result (list string) :=
  match group with
  | [] => Ok []
  | radio :: rest =>
      if negb (is_visible radio) then radio_labels rest (i + 1)
      else
        label <- _prompt_for_input radio ;;
        v <- get_attribute radio "value" ;;
        let value := strip (default "" v) in
        let choice := or_else label (or_else value ("Option " +:+ pretty (i + 1))) in
        labels <- radio_labels rest (i + 1) ;;
        Ok (choice :: labels)
  end.

Definition _radio_group_labels (group : list Field) : result (list string) :=
  let count := Z.min (Z.of_nat (length group)) 30 in
  radio_labels (firstn (Z.to_nat count) group) 0.

(** The prompts of the visible radios, when reading them does not raise. *)
Fixpoint visible_prompts (group : list Field) : list string :=
  match group with
  | [] => []
  | radio :: rest =>
      if is_visible radio then
        match _prompt_for_input radio with
        | Ok label => label :: visible_prompts rest
        | Raise _ => visible_prompts rest
        end
      else visible_prompts rest
  end.

End Prompt.

(** ** resume_builder.py: laying the text out on pages *)

Module Pdf.
Import Py PyStr.

(** What [_render_pdf] asks of the canvas. *)
Inductive Op : Type :=
| DrawString (x y : Z) (segment : string)
| ShowPage
| Save.

(** The page is [LETTER], 612 by 792 points.  The source computes [y] in
    floats; every value it takes is a whole number of points, which floats
    hold exactly. *)
Definition height : Z := 792.
Definition margin : Z := 48.
Definition line_height : Z := 14.

(** [y -= line_height; if y < margin: c.showPage(); y = height - margin] *)
Definition advance (y : Z) : Z * list Op :=
  let y := y - line_height in
  if y <? margin then (height - margin, [ShowPage]) else (y, []).

(** The loop [for segment in wrapped]. *)
Fixpoint draw_segments (wrapped : list string) (y : Z) : Z * list Op :=
  match wrapped with
  | [] => (y, [])
  | segment :: rest =>
      let '(y', turned) := advance y in
      let '(y'', ops) := draw_segments rest y' in
      (y'', DrawString margin y segment :: turned ++ ops)
  end.

Section Render.
(** [textwrap.wrap(line, width=95)] *)
Variable wrap : string -> list string.

(** The loop [for raw_line in text.splitlines()]. *)
Fixpoint render_lines (lines : list string) (y : Z) : list Op :=
  match lines with
  | [] => []
  | raw_line :: rest =>
      let line := strip raw_line in
      if negb (truthy line) then
        let '(y', turned) := advance y in
        turned ++ render_lines rest y'
      else
        let wrapped := match wrap line with [] => [""] | segments => segments end in
        let '(y', ops) := draw_segments wrapped y in
        ops ++ render_lines rest y'
  end.

(** [_render_pdf], on the lines of the text. *)
Definition _render_pdf (lines : list string) : list Op :=
  render_lines lines (height - margin) ++ [Save].

End Render.

(** Every string is drawn at the left margin, between the bottom and the
    top margin, and below the string drawn before it on the same page;
    [last] is the height of that string, if the page has one. *)
Fixpoint well_paged (last : option Z) (ops : list Op) : bool :=
  match ops with
  | [] => true
  | DrawString x y _ :: rest =>
      (x =? margin) && (margin <=? y) && (y <=? height - margin)
      && match last with Some l => y <? l | None => true end
      && well_paged (Some y) rest
  | ShowPage :: rest => well_paged None rest
  | Save :: rest => well_paged last rest
  end.

(** The next string fits the page: [y] is between the margins and below
    the last string of the page. *)
Definition fits (y : Z) (last : option Z) : Prop :=
  margin <= y <= height - margin
  /\ match last with Some l => y < l | None => True end.

End Pdf.

(** ** Further concrete instances *)

Module MoreExamples.
Import Py PyStr.

(** A reader of JSON that knows one reply. *)
Definition json_skills (raw : string) : result pyval :=
  if String.eqb raw "SKILLS: Rust, blank, Go"
  then Ok (PDict [(PStr "top_skills", PList [PStr "Rust"; PStr " "; PStr "Go"])])
  else Raise (ValueError "Expecting value").

(** [urllib.parse.urljoin] on absolute paths of one site. *)
Definition urljoin_site (base path : string) : string :=
  "https://app.joinhandshake.com" +:+ path.

Definition anchor (href text : string) : BotHelpers.Anchor :=
  {| BotHelpers.href := Some href; BotHelpers.inner_text := Some text |}.

(** A listing with a repeated posting, a link that is no posting, and more
    postings than wanted. *)
Definition listing : list BotHelpers.Anchor :=
  [anchor "/stu/jobs/101?ref=search" "Software Engineer Intern";
   anchor "  /stu/jobs/101  " "Software Engineer Intern (again)";
   anchor "/stu/employers/7" "Acme";
   anchor "/stu/postings/202" "   ";
   anchor "/stu/jobs/303" "Data Intern"].

(** A defaults file whose patterns are written with capitals. *)
Definition doc_capital_patterns : pyval :=
  PDict [(PStr "defaults", PDict [(PStr "work_authorization_us", PStr "Yes")]);
         (PStr "prompt_aliases",
          PList [PDict [(PStr "key", PStr "work_authorization_us");
                        (PStr "patterns",
                         PList [PStr "Authorized To Work"; PStr "WORK AUTHORIZATION"])]])].

(** No defaults file, answers capped at two characters, and a hosted
    model. *)
Definition qa_short_with (llm : Llm.LLMClient) : QuestionAnswerer.t :=
  {| QuestionAnswerer.qa_config :=
       {| Settings.defaults_path := Settings.DEFAULT_QA_DEFAULTS_PATH;
          Settings.max_answer_chars := 2 |};
     QuestionAnswerer.llm := llm;
     QuestionAnswerer.defaults := ∅;
     QuestionAnswerer.alias_rules := [] |}.

(** A page that is signed in from the start. *)
Definition page_signed_in : Login.Page nat :=
  {| Login.is_closed := fun w => (false, w);
     Login.url := fun w => (Ok "https://app.joinhandshake.com/stu/postings", w);
     Login.goto := fun _ w => (Login.Done, w);
     Login.wait_for_timeout := fun _ w => (Login.Done, w);
     Login.fill_first := fun _ _ w => (Ok tt, w);
     Login.click_button := fun _ w => (true, w);
     Login.click_submit_if_enabled := fun w => (Ok true, w);
     Login.press_enter_first := fun _ w => (Ok tt, w) |}.

(** A control with nothing to name it. *)
Definition field_bare : Prompt.Field :=
  {| Prompt.get_attribute := fun _ => Ok None;
     Prompt.label_for := fun _ => Ok None;
     Prompt.closest_text := Raise (HostError "element is detached");
     Prompt.is_visible := true |}.

(** A control named by its [aria-label], with a value. *)
Definition field_named (name : string) : Prompt.Field :=
  {| Prompt.get_attribute :=
       fun attr => Ok (if String.eqb attr "aria-label" then Some name
                       else if String.eqb attr "value" then Some "1" else None);
     Prompt.label_for := fun _ => Ok None;
     Prompt.closest_text := Ok None;
     Prompt.is_visible := true |}.

(** A control that is not shown. *)
Definition field_hidden : Prompt.Field :=
  {| Prompt.get_attribute := fun _ => Ok (Some "hidden");
     Prompt.label_for := fun _ => Ok None;
     Prompt.closest_text := Ok None;
     Prompt.is_visible := false |}.

End MoreExamples.

(** * Properties *)

(** ** Strings *)

Module PyStrFacts.
Import PyStr.

Lemma truthy_true (s : string) : truthy s = true <-> s <> "".
Proof. destruct s; simpl; split; congruence. Qed.

Lemma truthy_false (s : string) : truthy s = false <-> s = "".
Proof. destruct s; simpl; split; congruence. Qed.

Lemma append_nil (t : string) : "" +:+ t = t.
Proof. reflexivity. Qed.

Lemma append_cons (c : ascii) (s t : string) : String c s +:+ t = String c (s +:+ t).
Proof. reflexivity. Qed.

Lemma append_empty_r (s : string) : s +:+ "" = s.
Proof.
  induction s as [|c s IH]; [reflexivity | now rewrite append_cons, IH].
Qed.

Lemma append_assoc (a b c : string) : (a +:+ b) +:+ c = a +:+ (b +:+ c).
Proof.
  induction a as [|x a IH]; [reflexivity | now rewrite !append_cons, IH].
Qed.

Lemma startswith_spec (p s : string) :
  startswith p s = true <-> exists t, s = p +:+ t.
Proof.
  revert s. induction p as [|a p IH]; intros s; cbn [startswith].
  - split; [intros _; now exists s | reflexivity].
  - destruct s as [|b s].
    + split; [discriminate | intros [t Ht]; discriminate].
    + rewrite andb_true_iff, Ascii.eqb_eq, IH. split.
      * intros [-> [t ->]]. now exists t.
      * intros [t Ht]. rewrite append_cons in Ht. injection Ht as -> ->.
        split; [reflexivity | now exists t].
Qed.

Lemma str_in_spec (p s : string) : str_in p s = true <-> occurs_in p s.
Proof.
  unfold occurs_in. induction s as [|c s IH].
  - cbn [str_in]. rewrite orb_false_r, startswith_spec. split.
    + intros [t Ht]. exists "", t. exact Ht.
    + intros [a [b H]]. destruct a as [|x a].
      * now exists b.
      * rewrite append_cons in H. discriminate.
  - cbn [str_in]. rewrite orb_true_iff, startswith_spec, IH. split.
    + intros [[t Ht] | [a [b H]]].
      * exists "", t. exact Ht.
      * exists (String c a), b. rewrite append_cons. now rewrite H.
    + intros [a [b H]]. destruct a as [|x a].
      * left. now exists b.
      * right. rewrite append_cons in H. injection H as _ H. now exists a, b.
Qed.

Lemma str_in_false (p s : string) : str_in p s = false <-> ~ occurs_in p s.
Proof.
  rewrite <- str_in_spec. destruct (str_in p s); split; intros; congruence.
Qed.

Lemma occurs_in_empty (s : string) : occurs_in "" s.
Proof. now exists "", s. Qed.

End PyStrFacts.

(** ** The question answerer *)

Module QuestionAnswererFacts.
Import Py PyStr PyStrFacts QuestionAnswerer.

Lemma foldl_lowered_Some (cs : list string) (m : gmap string string) (k c : string) :
  foldl (fun m c => <[lower c := c]> m) m cs !! k = Some c ->
  m !! k = Some c \/ (In c cs /\ lower c = k).
Proof.
  revert m. induction cs as [|x cs IH]; intros m H; cbn [foldl] in H.
  - now left.
  - apply IH in H as [H | [Hin Hk]].
    + destruct (decide (lower x = k)) as [Heq | Hne].
      * subst k. rewrite lookup_insert_eq in H. injection H as <-.
        right. split; [now left | reflexivity].
      * rewrite lookup_insert_ne in H by exact Hne. now left.
    + right. split; [now right | exact Hk].
Qed.

Lemma foldl_lowered_is_Some (cs : list string) (m : gmap string string) (k : string) :
  is_Some (m !! k) \/ (exists c, In c cs /\ lower c = k) ->
  is_Some (foldl (fun m c => <[lower c := c]> m) m cs !! k).
Proof.
  revert m. induction cs as [|x cs IH]; intros m H; cbn [foldl].
  - destruct H as [H | [c [[] _]]]. exact H.
  - apply IH. destruct H as [H | [c [[-> | Hin] Hk]]].
    + left. destruct (decide (lower x = k)) as [<- | Hne].
      * rewrite lookup_insert_eq. eauto.
      * now rewrite lookup_insert_ne.
    + left. subst k. rewrite lookup_insert_eq. eauto.
    + right. eauto.
Qed.

Lemma lowered_Some (cs : list string) (k c : string) :
  lowered cs !! k = Some c -> In c cs /\ lower c = k.
Proof.
  intros H. apply foldl_lowered_Some in H as [H | H]; [|exact H].
  rewrite lookup_empty in H. discriminate.
Qed.

Lemma lowered_is_Some (cs : list string) (k : string) :
  (exists c, In c cs /\ lower c = k) -> is_Some (lowered cs !! k).
Proof. intros H. apply foldl_lowered_is_Some. now right. Qed.

Lemma find_In {A : Type} (f : A -> bool) (l : list A) (x : A) :
  List.find f l = Some x -> In x l /\ f x = true.
Proof. apply List.find_some. Qed.

(** [_match_choice] answers with the empty string or with a listed choice. *)
Lemma match_choice_listed (answer : string) (choices : list string) :
  _match_choice answer choices = "" \/ In (_match_choice answer choices) choices.
Proof.
  unfold _match_choice. destruct (truthy answer); cbn [negb]; [|now left].
  destruct (lowered choices !! lower answer) as [c|] eqn:Hl.
  - right. now apply lowered_Some in Hl.
  - destruct (List.find _ choices) as [c|] eqn:Hf; [|now left].
    right. now apply find_In in Hf.
Qed.

Lemma or_else_match_choice_listed (answer first : string) (rest : list string) :
  In (or_else (_match_choice answer (first :: rest)) first) (first :: rest).
Proof.
  unfold or_else.
  destruct (match_choice_listed answer (first :: rest)) as [-> | H].
  - now left.
  - destruct (truthy _); [exact H | now left].
Qed.

Lemma normalize_choices_truthy (choices : list string) (c : string) :
  In c (normalize_choices choices) -> truthy c = true.
Proof.
  unfold normalize_choices. rewrite in_map_iff.
  intros [x [<- Hx]]. now apply List.filter_In in Hx.
Qed.

Lemma scan_rules_none (rules : list AliasRule) (prompt : string) :
  (forall r pat, In r rules -> In pat (patterns r) -> pat <> "" -> ~ occurs_in pat prompt) ->
  scan_rules rules prompt = "".
Proof.
  induction rules as [|r rules IH]; intros H; cbn [scan_rules]; [reflexivity|].
  assert (Hr : any_pattern_in prompt (patterns r) = false).
  { assert (Hp : forall pat, In pat (patterns r) -> pat <> "" -> ~ occurs_in pat prompt)
      by (intros pat; apply H; now left).
    induction (patterns r) as [|pat ps IHp]; cbn [any_pattern_in]; [reflexivity|].
    destruct (truthy pat) eqn:Ht; cbn [andb].
    - apply truthy_true in Ht.
      rewrite (proj2 (str_in_false pat prompt)) by (apply Hp; [now left | exact Ht]).
      apply IHp. intros q Hq. apply Hp. now right.
    - apply IHp. intros q Hq. apply Hp. now right. }
  rewrite Hr. apply IH. intros r' pat Hin. apply H. now right.
Qed.

Lemma any_pattern_in_hit (prompt : string) (ps : list string) :
  (exists pat, In pat ps /\ pat <> "" /\ occurs_in pat prompt) ->
  any_pattern_in prompt ps = true.
Proof.
  intros [pat [Hin [Hne Hocc]]].
  induction ps as [|q ps IH]; [destruct Hin|]. cbn [any_pattern_in].
  destruct (truthy q && str_in q prompt) eqn:Hq; [reflexivity|].
  destruct Hin as [-> | Hin]; [|now apply IH].
  apply truthy_true in Hne. apply str_in_spec in Hocc.
  rewrite Hne, Hocc in Hq. discriminate.
Qed.

Lemma any_pattern_in_miss (prompt : string) (ps : list string) :
  (forall pat, In pat ps -> pat <> "" -> ~ occurs_in pat prompt) ->
  any_pattern_in prompt ps = false.
Proof.
  induction ps as [|q ps IH]; intros H; cbn [any_pattern_in]; [reflexivity|].
  destruct (truthy q) eqn:Ht; cbn [andb].
  - apply truthy_true in Ht.
    rewrite (proj2 (str_in_false q prompt)) by (apply H; [now left | exact Ht]).
    apply IH. intros p Hp. apply H. now right.
  - apply IH. intros p Hp. apply H. now right.
Qed.

Lemma scan_rules_first (pre post : list AliasRule) (r : AliasRule) (prompt : string) :
  (forall r' pat, In r' pre -> In pat (patterns r') -> pat <> "" -> ~ occurs_in pat prompt) ->
  (exists pat, In pat (patterns r) /\ pat <> "" /\ occurs_in pat prompt) ->
  scan_rules (pre ++ r :: post) prompt = key r.
Proof.
  intros Hpre Hr. induction pre as [|x pre IH]; cbn [app scan_rules].
  - now rewrite any_pattern_in_hit.
  - rewrite any_pattern_in_miss by (intros pat; apply Hpre; now left).
    apply IH. intros r' pat Hin. apply Hpre. now right.
Qed.

End QuestionAnswererFacts.

(** ** Claims about the question answerer and the hosted-model client *)

Module QuestionAnswererClaims.
Import Py PyStr PyStrFacts QuestionAnswerer QuestionAnswererFacts.

(** C2 (as amended).  For a normalized prompt, the resolved key is the key
    of the first rule, in list order, one of whose non-empty patterns
    occurs in the prompt, whatever later rules match; when no non-empty
    pattern of any rule occurs in it, the resolved key is the empty string
    (no key).  Empty patterns never match. *)
Theorem alias_key_first_nonempty_match (self : t) (prompt : string) :
  let p := lower (strip prompt) in
  (forall pre r post,
      alias_rules self = pre ++ r :: post ->
      (forall r' pat, In r' pre -> In pat (patterns r') -> pat <> "" -> ~ occurs_in pat p) ->
      (exists pat, In pat (patterns r) /\ pat <> "" /\ occurs_in pat p) ->
      _alias_key_for_prompt self p = key r)
  /\ ((forall r pat, In r (alias_rules self) -> In pat (patterns r) -> pat <> "" ->
                     ~ occurs_in pat p) ->
      _alias_key_for_prompt self p = "").
Proof.
  intros p. unfold _alias_key_for_prompt. split.
  - intros pre r post -> Hpre Hr. now apply scan_rules_first.
  - apply scan_rules_none.
Qed.

Lemma alias_key_first_nonempty_match_witness :
  _alias_key_for_prompt Examples.qa_test
    (lower (strip "Are you legally authorized to work without visa sponsorship?"))
  = "work_authorization_us"
  /\ _alias_key_for_prompt Examples.qa_test (lower (strip "Favorite colour?")) = "".
Proof.
  split.
  - apply (proj1 (alias_key_first_nonempty_match Examples.qa_test
                    "Are you legally authorized to work without visa sponsorship?")
             [] Examples.rule_work [Examples.rule_visa]).
    + reflexivity.
    + intros r' pat [].
    + exists "authorized to work". split; [now left|]. split; [discriminate|].
      apply str_in_spec. vm_compute. reflexivity.
  - apply (proj2 (alias_key_first_nonempty_match Examples.qa_test "Favorite colour?")).
    intros r pat [<- | [<- | []]] Hpat _; cbn in Hpat;
      repeat (destruct Hpat as [<- | Hpat]); try (destruct Hpat);
      apply str_in_false; vm_compute; reflexivity.
Defined.

(** C2 as stated fails on a rule with an empty pattern: the empty string
    is a substring of every prompt, yet the rule is passed over. *)
Lemma alias_key_empty_pattern_counterexample :
  let p := lower (strip "Do you need a visa?") in
  (exists pat, In pat (patterns Examples.rule_blank) /\ occurs_in pat p)
  /\ alias_rules Examples.qa_blank_rule = [] ++ Examples.rule_blank :: [Examples.rule_visa]
  /\ _alias_key_for_prompt Examples.qa_blank_rule p = key Examples.rule_visa
  /\ _alias_key_for_prompt Examples.qa_blank_rule p <> key Examples.rule_blank.
Proof.
  cbv zeta. split; [|split; [|split]].
  - exists "". split; [now left | apply occurs_in_empty].
  - reflexivity.
  - vm_compute. reflexivity.
  - vm_compute. discriminate.
Qed.

(** C3.  When the default answer resolved for the prompt is non-empty and
    the normalized choice list holds a case-insensitive variant of it,
    [answer] returns a choice of that list (in the list's own casing),
    equal to the default up to case, and sends nothing to the hosted
    model. *)
Theorem answer_returns_listed_variant (B : Builtins) (self : t)
    (prompt input_type : string) (job : JobPosting.t) (choices : list string) :
  let cs := normalize_choices choices in
  let d := default_answer_for self (lower (strip prompt)) in
  d <> "" ->
  (exists c, In c cs /\ lower c = lower d) ->
  exists c, answer B self prompt input_type job choices = (c, [])
            /\ In c cs /\ lower c = lower d.
Proof.
  intros cs d Hd Hex.
  destruct (lowered_is_Some cs (lower d) Hex) as [c Hc].
  destruct (lowered_Some _ _ _ Hc) as [Hin Hlow].
  exists c. split; [|split; assumption].
  unfold answer. fold cs. fold d.
  assert (Hm : _match_choice d cs = c).
  { unfold _match_choice. apply truthy_true in Hd. rewrite Hd. cbn [negb].
    now rewrite Hc. }
  destruct cs as [|first rest] eqn:Hcs; [destruct Hin|].
  rewrite Hm.
  assert (Ht : truthy c = true).
  { apply (normalize_choices_truthy choices). fold cs. rewrite Hcs. exact Hin. }
  now rewrite Ht.
Qed.

Lemma answer_returns_listed_variant_witness :
  exists c,
    answer Examples.builtins0 (Examples.qa_with (Examples.llm_says "No")
                                 {[ "work_authorization_us" := "Yes" ]}
                                 [Examples.rule_work])
      "Are you legally authorized to work in the US?" "radio" Examples.job0
      [" YES "; "no"; ""]
    = (c, [])
    /\ In c (normalize_choices [" YES "; "no"; ""])
    /\ lower c = lower (default_answer_for
                          (Examples.qa_with (Examples.llm_says "No")
                             {[ "work_authorization_us" := "Yes" ]}
                             [Examples.rule_work])
                          (lower (strip "Are you legally authorized to work in the US?"))).
Proof.
  apply answer_returns_listed_variant.
  - vm_compute. discriminate.
  - exists "YES". split; [now left | vm_compute; reflexivity].
Defined.

(** C10.  Whenever the normalized choice list is not empty, [answer]
    returns one of its elements, unchanged, whatever the defaults, the
    alias rules, the answer-length cap and the hosted model say. *)
Theorem answer_is_a_listed_choice (B : Builtins) (self : t)
    (prompt input_type : string) (job : JobPosting.t) (choices : list string) :
  normalize_choices choices <> [] ->
  In (answer B self prompt input_type job choices).1 (normalize_choices choices).
Proof.
  intros Hne. unfold answer.
  destruct (normalize_choices choices) as [|first rest] eqn:Hcs; [congruence|].
  set (d := default_answer_for self (lower (strip prompt))).
  destruct (truthy (_match_choice d (first :: rest))) eqn:Hm.
  - cbn [fst]. destruct (match_choice_listed d (first :: rest)) as [He | Hin];
      [rewrite He in Hm; discriminate | exact Hin].
  - destruct (if Llm.enabled (llm self) then _ else _) as [llm_answer sent].
    destruct (truthy llm_answer); [apply or_else_match_choice_listed|].
    destruct (truthy d); [apply or_else_match_choice_listed | now left].
Qed.

Lemma answer_is_a_listed_choice_witness :
  In (answer Examples.builtins0
        (Examples.qa_with (Examples.llm_says "Definitely the second option") ∅ [])
        "Preferred start date" "select" Examples.job0
        [" May 2026 "; ""; "second option: June 2026"]).1
     (normalize_choices [" May 2026 "; ""; "second option: June 2026"]).
Proof.
  apply answer_is_a_listed_choice. vm_compute. discriminate.
Defined.

End QuestionAnswererClaims.


(** ** Claims about the hosted-model client and the heuristic table *)

Module LlmClaims.
Import Py PyStr PyStrFacts QuestionAnswerer QuestionAnswererFacts.

Lemma find_first {A : Type} (f : A -> bool) (pre post : list A) (x : A) :
  (forall y, In y pre -> f y = false) -> f x = true ->
  List.find f (pre ++ x :: post) = Some x.
Proof.
  intros Hpre Hx. induction pre as [|y pre IH]; cbn [app List.find].
  - now rewrite Hx.
  - rewrite (Hpre y) by now left. apply IH. intros z Hz. apply Hpre. now right.
Qed.

Lemma find_all_false {A : Type} (f : A -> bool) (l : list A) :
  (forall y, In y l -> f y = false) -> List.find f l = None.
Proof.
  induction l as [|y l IH]; intros H; cbn [List.find]; [reflexivity|].
  rewrite (H y) by now left. apply IH. intros z Hz. apply H. now right.
Qed.

Lemma list_in_spec (x : string) (xs : list string) : list_in x xs = true <-> In x xs.
Proof.
  unfold list_in. rewrite existsb_exists. split.
  - intros [y [Hy Heq]]. apply String.eqb_eq in Heq. now subst.
  - intros H. exists x. split; [exact H | apply String.eqb_refl].
Qed.

(** What [answer_application_question] does, case by case.  It returns
    the default answer verbatim when the client is disabled, when the remote
    call raises, and when the reply is empty after trimming.  Otherwise,
    without choices it returns the trimmed reply; with choices the reply is
    matched case-insensitively: a choice equal to it first, else the first
    choice that is contained in the reply, else the default answer when it
    is one of the choices, else the first choice.  A reply that is contained
    in a choice is not matched to it: see
    [reply_contained_in_choice_is_missed]. *)
Lemma client_policy (B : Builtins) (c : Llm.LLMClient)
    (prompt : string) (job : JobPosting.t) (d : string) (choices : list string) :
  let out := (Llm.answer_application_question B c prompt job d choices).1 in
  (Llm.enabled c = false -> out = d)
  /\ (forall create, Llm._client c = Some create ->
      let rq := Llm.mk_request c Llm.answer_system
                  (Llm.answer_user B prompt job choices d) in
      (forall e, create rq = Raise e -> out = d)
      /\ (forall message, create rq = Ok message ->
          let raw := strip (strip (default "" message)) in
          (raw = "" -> out = d)
          /\ (raw <> "" -> choices = [] -> out = raw)
          /\ (raw <> "" ->
              (exists ch, In ch choices /\ lower ch = lower raw) ->
              In out choices /\ lower out = lower raw)
          /\ (raw <> "" ->
              (forall ch, In ch choices -> lower ch <> lower raw) ->
              (forall pre ch post,
                  choices = pre ++ ch :: post ->
                  (forall x, In x pre -> ~ occurs_in (lower x) (lower raw)) ->
                  occurs_in (lower ch) (lower raw) ->
                  out = ch)
              /\ ((forall ch, In ch choices -> ~ occurs_in (lower ch) (lower raw)) ->
                  (In d choices -> out = d)
                  /\ (~ In d choices ->
                      forall first rest, choices = first :: rest -> out = first))))).
Proof.
  intros out. subst out. unfold Llm.answer_application_question. split.
  - intros ->. reflexivity.
  - intros create Hc. unfold Llm.enabled, Llm._chat. rewrite Hc. cbn [negb].
    cbv zeta. split.
    + intros e ->. reflexivity.
    + intros message ->. set (raw := strip (strip (default "" message))).
      destruct (truthy raw) eqn:Ht; cbn [negb].
      * apply truthy_true in Ht.
        split; [congruence|]. split; [intros _ ->; reflexivity|].
        split.
        -- intros _ Hex. destruct choices as [|first rest]; [destruct Hex as [? [[] _]]|].
           destruct (lowered_is_Some _ _ Hex) as [ch Hch]. rewrite Hch. cbn [fst].
           now apply lowered_Some in Hch.
        -- intros _ Hno.
           assert (Hl : lowered choices !! lower raw = None).
           { destruct (lowered choices !! lower raw) as [ch|] eqn:Hl; [|reflexivity].
             apply lowered_Some in Hl as [Hin Hlow]. now apply Hno in Hin. }
           split.
           ++ intros pre ch post Hsplit Hpre Hocc.
              destruct choices as [|first rest]; [now destruct pre|].
              rewrite Hl, Hsplit.
              rewrite (find_first _ pre post ch); [reflexivity | | now apply str_in_spec].
              intros y Hy. apply str_in_false. now apply Hpre.
           ++ intros Hnone. split.
              ** intros Hin. destruct choices as [|first rest]; [destruct Hin|].
                 rewrite Hl, find_all_false
                   by (intros y Hy; apply str_in_false; now apply Hnone).
                 cbn [fst]. now rewrite (proj2 (list_in_spec d (first :: rest)) Hin).
              ** intros Hnin first rest ->.
                 rewrite Hl, find_all_false
                   by (intros y Hy; apply str_in_false; now apply Hnone).
                 cbn [fst]. destruct (list_in d (first :: rest)) eqn:Hd; [|reflexivity].
                 apply list_in_spec in Hd. contradiction.
      * apply truthy_false in Ht. split; [reflexivity|].
        split; [congruence|]. split; congruence.
Qed.

Lemma client_policy_instances :
  (Llm.answer_application_question Examples.builtins0 Examples.no_llm
     "Why us?" Examples.job0 "Because." []).1 = "Because."
  /\ (Llm.answer_application_question Examples.builtins0 Examples.llm_down
        "Why us?" Examples.job0 "Because." []).1 = "Because."
  /\ (Llm.answer_application_question Examples.builtins0
        (Examples.llm_says " I would say yes. ")
        "Are you willing to relocate?" Examples.job0 "" ["No"; "Yes"]).1 = "Yes".
Proof.
  split; [|split].
  - apply (proj1 (client_policy Examples.builtins0 Examples.no_llm
                    "Why us?" Examples.job0 "Because." [])).
    reflexivity.
  - destruct (proj2 (client_policy Examples.builtins0
                       Examples.llm_down "Why us?" Examples.job0 "Because." [])
                (fun _ => Raise (HostError "connection refused")) eq_refl) as [Hraise _].
    apply (Hraise (HostError "connection refused")). reflexivity.
  - destruct (proj2 (client_policy Examples.builtins0
                       (Examples.llm_says " I would say yes. ")
                       "Are you willing to relocate?" Examples.job0 "" ["No"; "Yes"])
                (fun _ => Ok (Some " I would say yes. ")) eq_refl) as [_ Hok].
    destruct (Hok (Some " I would say yes. ") eq_refl) as (_ & _ & _ & Hcontain).
    destruct Hcontain as [Hfirst _].
    + vm_compute. discriminate.
    + intros ch [<- | [<- | []]]; vm_compute; discriminate.
    + apply (Hfirst ["No"] "Yes" []).
      * reflexivity.
      * intros x [<- | []]. apply str_in_false. vm_compute. reflexivity.
      * apply str_in_spec. vm_compute. reflexivity.
Defined.

(** C4.  The client misses the containment of the reply in a choice.  On
    the reply "yes" with the choices "No thanks" and "Yes please", the reply
    is contained in the second choice and in no other, and the two other
    matchers of the repository, [_match_choice] and [_best_choice], pick
    "Yes please"; the client tries only whether a choice is contained in the
    reply, finds none, and falls back to the first choice, "No thanks",
    which [answer] then hands on. *)
Theorem reply_contained_in_choice_is_missed :
  let choices := ["No thanks"; "Yes please"] in
  let reply := "yes" in
  occurs_in (lower reply) (lower "Yes please")
  /\ ~ occurs_in (lower reply) (lower "No thanks")
  /\ (forall ch, In ch choices ->
        lower ch <> lower reply /\ ~ occurs_in (lower ch) (lower reply))
  /\ QuestionAnswerer._match_choice reply choices = "Yes please"
  /\ BotHelpers._best_choice reply choices = "Yes please"
  /\ (Llm.answer_application_question Examples.builtins0 (Examples.llm_says reply)
        "Would you like a mentor?" Examples.job0 "" choices).1 = "No thanks"
  /\ (QuestionAnswerer.answer Examples.builtins0
        (Examples.qa_with (Examples.llm_says reply) ∅ [])
        "Would you like a mentor?" "radio" Examples.job0 choices).1 = "No thanks".
Proof.
  cbv zeta. split; [|split; [|split; [|split; [|split; [|split]]]]].
  - apply str_in_spec. vm_compute. reflexivity.
  - apply str_in_false. vm_compute. reflexivity.
  - intros ch [<- | [<- | []]]; (split; [vm_compute; discriminate |
      apply str_in_false; vm_compute; reflexivity]).
  - vm_compute. reflexivity.
  - vm_compute. reflexivity.
  - vm_compute. reflexivity.
  - vm_compute. reflexivity.
Qed.

Lemma take_all (s : string) (n : nat) : (String.length s <= n)%nat -> take n s = s.
Proof.
  revert n. induction s as [|c s IH]; intros n H.
  - now destruct n.
  - destruct n as [|n]; cbn in H; [lia|]. cbn [take]. f_equal. apply IH. lia.
Qed.

Lemma slice_to_all (s : string) (n : Z) :
  Z.of_nat (String.length s) <= n -> slice_to s n = s.
Proof.
  intros H. unfold slice_to.
  destruct (0 <=? n) eqn:Hn; [|apply Z.leb_gt in Hn; lia].
  apply take_all. lia.
Qed.

(** C6 (as amended).  A missing or empty defaults file loads no defaults
    and no alias rules.  With none of either, the hosted model disabled, no
    non-blank choice supplied and an answer cap of at least three
    characters, [answer] follows the heuristic table in its order: a
    normalized prompt containing "authorized to work" or "work
    authorization" gives "Yes"; otherwise one containing "sponsorship" or
    "visa" gives "No"; otherwise one containing "relocate" gives "Yes"; any
    other prompt gives the empty string. *)
Theorem heuristic_table_without_defaults (B : Builtins) (self : t)
    (prompt input_type : string) (job : JobPosting.t) (choices : list string) :
  (forall H path, Settings.path_exists H path = false ->
                  _load_defaults H path = Ok (∅, []))
  /\ (forall H path text,
        Settings.path_exists H path = true ->
        Settings.read_text H path = Ok text ->
        Settings.safe_load H text = Ok PNone ->
        _load_defaults H path = Ok (∅, []))
  /\ (defaults self = ∅ -> alias_rules self = [] ->
      Llm.enabled (llm self) = false ->
      normalize_choices choices = [] ->
      3 <= Settings.max_answer_chars (qa_config self) ->
      let p := lower (strip prompt) in
      let out := answer B self prompt input_type job choices in
      (occurs_in "authorized to work" p \/ occurs_in "work authorization" p ->
       out = ("Yes", []))
      /\ (~ occurs_in "authorized to work" p -> ~ occurs_in "work authorization" p ->
          occurs_in "sponsorship" p \/ occurs_in "visa" p ->
          out = ("No", []))
      /\ (~ occurs_in "authorized to work" p -> ~ occurs_in "work authorization" p ->
          ~ occurs_in "sponsorship" p -> ~ occurs_in "visa" p ->
          occurs_in "relocate" p ->
          out = ("Yes", []))
      /\ (~ occurs_in "authorized to work" p -> ~ occurs_in "work authorization" p ->
          ~ occurs_in "sponsorship" p -> ~ occurs_in "visa" p ->
          ~ occurs_in "relocate" p ->
          out = ("", []))).
Proof.
  split; [|split].
  - intros H path He. unfold _load_defaults. now rewrite He.
  - intros H path text He Hr Hl. unfold _load_defaults.
    rewrite He, Hr. cbn [negb bind]. rewrite Hl. reflexivity.
  - intros Hd Hr Hllm Hcs Hmax p out. subst out. unfold answer. fold p.
    rewrite Hcs, Hllm.
    unfold default_answer_for, _alias_key_for_prompt. rewrite Hr.
    cbn [scan_rules truthy negb].
    unfold _heuristic_default. cbn [existsb].
    rewrite !orb_false_r.
    assert (HY : slice_to "Yes" (Settings.max_answer_chars (qa_config self)) = "Yes")
      by (apply slice_to_all; cbn; lia).
    assert (HN : slice_to "No" (Settings.max_answer_chars (qa_config self)) = "No")
      by (apply slice_to_all; cbn; lia).
    repeat split.
    + intros Hocc.
      assert (Hb : str_in "authorized to work" p || str_in "work authorization" p = true)
        by (apply orb_true_iff; destruct Hocc as [H | H]; apply str_in_spec in H; auto).
      rewrite Hb. cbn [truthy]. now rewrite HY.
    + intros H1 H2 Hocc.
      apply str_in_false in H1, H2. rewrite H1, H2. cbn [orb].
      assert (Hb : str_in "sponsorship" p || str_in "visa" p = true)
        by (apply orb_true_iff; destruct Hocc as [H | H]; apply str_in_spec in H; auto).
      rewrite Hb. cbn [truthy]. now rewrite HN.
    + intros H1 H2 H3 H4 Hocc.
      apply str_in_false in H1, H2, H3, H4. apply str_in_spec in Hocc.
      rewrite H1, H2, H3, H4, Hocc. cbn [orb truthy]. now rewrite HY.
    + intros H1 H2 H3 H4 H5.
      apply str_in_false in H1, H2, H3, H4, H5.
      rewrite H1, H2, H3, H4, H5. cbn [orb truthy].
      unfold fallback_answer. rewrite Hd, !lookup_empty. cbn [default].
      repeat (match goal with |- context [if ?b then _ else _] => destruct b end);
        reflexivity.
Qed.

Lemma heuristic_table_without_defaults_witness :
  _load_defaults Examples.host_no_file "config/qa_defaults.yaml" = Ok (∅, [])
  /\ _load_defaults Examples.host_empty_file "config/qa_defaults.yaml" = Ok (∅, [])
  /\ answer Examples.builtins0 Examples.qa_empty
       "Are you legally authorized to work in the US?" "text" Examples.job0 []
     = ("Yes", [])
  /\ answer Examples.builtins0 Examples.qa_empty
       "Will you require visa sponsorship?" "text" Examples.job0 [" "]
     = ("No", [])
  /\ answer Examples.builtins0 Examples.qa_empty
       "Are you willing to relocate?" "text" Examples.job0 []
     = ("Yes", [])
  /\ answer Examples.builtins0 Examples.qa_empty
       "Favourite editor?" "text" Examples.job0 []
     = ("", []).
Proof.
  assert (Hcap : 3 <= Settings.max_answer_chars (qa_config Examples.qa_empty))
    by (apply Z.leb_le; reflexivity).
  split; [|split; [|split; [|split; [|split]]]].
  - apply (proj1 (heuristic_table_without_defaults Examples.builtins0 Examples.qa_empty
                    "" "" Examples.job0 [])).
    reflexivity.
  - apply (proj1 (proj2 (heuristic_table_without_defaults Examples.builtins0
                           Examples.qa_empty "" "" Examples.job0 [])) _ _ "");
      reflexivity.
  - destruct (proj2 (proj2 (heuristic_table_without_defaults Examples.builtins0
                Examples.qa_empty "Are you legally authorized to work in the US?" "text"
                Examples.job0 [])) eq_refl eq_refl eq_refl eq_refl Hcap) as (Ha & _).
    apply Ha. left. apply str_in_spec. vm_compute. reflexivity.
  - destruct (proj2 (proj2 (heuristic_table_without_defaults Examples.builtins0
                Examples.qa_empty "Will you require visa sponsorship?" "text"
                Examples.job0 [" "])) eq_refl eq_refl eq_refl eq_refl Hcap) as (_ & Hb & _).
    apply Hb; try (apply str_in_false; vm_compute; reflexivity).
    left. apply str_in_spec. vm_compute. reflexivity.
  - destruct (proj2 (proj2 (heuristic_table_without_defaults Examples.builtins0
                Examples.qa_empty "Are you willing to relocate?" "text"
                Examples.job0 [])) eq_refl eq_refl eq_refl eq_refl Hcap) as (_ & _ & Hc & _).
    apply Hc; try (apply str_in_false; vm_compute; reflexivity).
    apply str_in_spec. vm_compute. reflexivity.
  - destruct (proj2 (proj2 (heuristic_table_without_defaults Examples.builtins0
                Examples.qa_empty "Favourite editor?" "text"
                Examples.job0 [])) eq_refl eq_refl eq_refl eq_refl Hcap) as (_ & _ & _ & Hd).
    apply Hd; apply str_in_false; vm_compute; reflexivity.
Defined.

(** C6 as stated fails: the table is ordered, so a prompt that mentions a
    visa after "authorized to work" is answered "Yes"; an enabled hosted
    model answers in place of the table; and a cap below three characters
    cuts the answer. *)
Lemma heuristic_table_counterexample :
  let prompt := "Are you authorized to work without visa sponsorship?" in
  occurs_in "visa" (lower (strip prompt))
  /\ answer Examples.builtins0 Examples.qa_empty prompt "text" Examples.job0 []
     = ("Yes", [])
  /\ (answer Examples.builtins0 Examples.qa_empty prompt "text" Examples.job0 []).1 <> "No"
  /\ (answer Examples.builtins0
        (Examples.qa_with (Examples.llm_says "I hold a green card.") ∅ [])
        "Will you require visa sponsorship?" "text" Examples.job0 []).1
     = "I hold a green card."
  /\ (answer Examples.builtins0 Examples.qa_short
        "Are you willing to relocate?" "text" Examples.job0 []).1 = "Ye".
Proof.
  cbv zeta. split; [|split; [|split; [|split]]].
  - apply str_in_spec. vm_compute. reflexivity.
  - vm_compute. reflexivity.
  - vm_compute. discriminate.
  - vm_compute. reflexivity.
  - vm_compute. reflexivity.
Qed.

End LlmClaims.

(** ** The resume slug *)

Module ResumeBuilderClaims.
Import PyStr PyStrFacts ResumeBuilder.

Lemma char_lower_slug (c : ascii) :
  is_alnum c || is_hyphen c = true -> is_slug_char (char_lower c) = true.
Proof.
  destruct c as [[] [] [] [] [] [] [] []]; vm_compute; intros H;
    first [reflexivity | discriminate H].
Qed.

Lemma char_lower_hyphen (c : ascii) : is_hyphen (char_lower c) = is_hyphen c.
Proof. destruct c as [[] [] [] [] [] [] [] []]; vm_compute; reflexivity. Qed.

Lemma sub_runs_chars (b : bool) (s : string) :
  forall_chars (fun c => is_alnum c || is_hyphen c) (sub_runs b s) = true.
Proof.
  revert b. induction s as [|c s IH]; intros b; cbn [sub_runs]; [reflexivity|].
  destruct (is_alnum c) eqn:Hc.
  - cbn [forall_chars]. now rewrite Hc, IH.
  - destruct b; [apply IH|]. cbn [forall_chars]. now rewrite IH.
Qed.

Lemma sub_runs_head (s : string) : head_hyphen (sub_runs true s) = false.
Proof.
  induction s as [|c s IH]; cbn [sub_runs]; [reflexivity|].
  destruct (is_alnum c) eqn:Hc; [|exact IH].
  cbn [head_hyphen]. unfold is_hyphen.
  destruct (Ascii.eqb c "-") eqn:He; [|reflexivity].
  apply Ascii.eqb_eq in He. subst c. discriminate Hc.
Qed.

Lemma sub_runs_single (b : bool) (s : string) : single_hyphens (sub_runs b s) = true.
Proof.
  revert b. induction s as [|c s IH]; intros b; cbn [sub_runs]; [reflexivity|].
  destruct (is_alnum c) eqn:Hc.
  - cbn [single_hyphens]. rewrite IH.
    assert (Hh : is_hyphen c = false).
    { unfold is_hyphen. destruct (Ascii.eqb c "-") eqn:He; [|reflexivity].
      apply Ascii.eqb_eq in He. subst c. discriminate Hc. }
    now rewrite Hh.
  - destruct b; [apply IH|]. cbn [single_hyphens]. now rewrite sub_runs_head, IH, andb_false_r.
Qed.

Section Preserved.
Variable p : ascii -> bool.
Variable q : ascii -> bool.

Lemma lstrip_chars (s : string) :
  forall_chars q s = true -> forall_chars q (lstrip_with p s) = true.
Proof.
  induction s as [|c s IH]; cbn [lstrip_with forall_chars]; [trivial|].
  intros H. apply andb_true_iff in H as [Hc Hs].
  destruct (p c); [now apply IH|]. cbn [forall_chars]. now rewrite Hc, Hs.
Qed.

Lemma lstrip_single (s : string) :
  single_hyphens s = true -> single_hyphens (lstrip_with p s) = true.
Proof.
  induction s as [|c s IH]; cbn [lstrip_with]; [trivial|].
  intros H. destruct (p c); [|exact H].
  cbn [single_hyphens] in H. apply andb_true_iff in H as [_ Hs]. now apply IH.
Qed.

Lemma rstrip_chars (s : string) :
  forall_chars q s = true -> forall_chars q (rstrip_with p s) = true.
Proof.
  induction s as [|c s IH]; cbn [rstrip_with forall_chars]; [trivial|].
  intros H. apply andb_true_iff in H as [Hc Hs]. specialize (IH Hs).
  destruct (rstrip_with p s) as [|x t].
  - destruct (p c); [reflexivity|]. cbn [forall_chars]. now rewrite Hc.
  - cbn [forall_chars] in *. now rewrite Hc, IH.
Qed.

Lemma rstrip_head (s : string) :
  head_hyphen (rstrip_with p s) = true -> head_hyphen s = true.
Proof.
  destruct s as [|c s]; cbn [rstrip_with]; [trivial|].
  destruct (rstrip_with p s) as [|x t]; [|trivial].
  destruct (p c); [discriminate | trivial].
Qed.

Lemma rstrip_single (s : string) :
  single_hyphens s = true -> single_hyphens (rstrip_with p s) = true.
Proof.
  induction s as [|c s IH]; cbn [rstrip_with]; [trivial|].
  cbn [single_hyphens]. intros H. apply andb_true_iff in H as [Hc Hs].
  specialize (IH Hs). pose proof (rstrip_head s) as Hh.
  destruct (rstrip_with p s) as [|x t].
  - destruct (p c); [reflexivity|]. cbn [single_hyphens head_hyphen].
    now rewrite andb_false_r.
  - cbn [single_hyphens] in *. rewrite IH, andb_true_r.
    destruct (is_hyphen c); [|reflexivity].
    cbn [andb negb] in *. destruct (head_hyphen (String x t)); [|reflexivity].
    rewrite Hh in Hc by reflexivity. discriminate Hc.
Qed.

End Preserved.

Lemma lower_chars (s : string) :
  forall_chars (fun c => is_alnum c || is_hyphen c) s = true ->
  forall_chars is_slug_char (lower s) = true.
Proof.
  induction s as [|c s IH]; cbn [lower forall_chars]; [trivial|].
  intros H. apply andb_true_iff in H as [Hc Hs].
  now rewrite char_lower_slug, IH.
Qed.

Lemma lower_head (s : string) : head_hyphen (lower s) = head_hyphen s.
Proof. destruct s as [|c s]; [reflexivity | apply char_lower_hyphen]. Qed.

Lemma lower_single (s : string) : single_hyphens (lower s) = single_hyphens s.
Proof.
  induction s as [|c s IH]; [reflexivity|].
  cbn [lower single_hyphens]. now rewrite char_lower_hyphen, lower_head, IH.
Qed.

Lemma take_chars (q : ascii -> bool) (n : nat) (s : string) :
  forall_chars q s = true -> forall_chars q (take n s) = true.
Proof.
  revert n. induction s as [|c s IH]; intros [|n]; cbn [take forall_chars]; try trivial.
  intros H. apply andb_true_iff in H as [Hc Hs]. now rewrite Hc, IH.
Qed.

Lemma take_head (n : nat) (s : string) :
  head_hyphen (take n s) = true -> head_hyphen s = true.
Proof. destruct n, s; cbn [take head_hyphen]; trivial; discriminate. Qed.

Lemma take_single (n : nat) (s : string) :
  single_hyphens s = true -> single_hyphens (take n s) = true.
Proof.
  revert n. induction s as [|c s IH]; intros [|n]; cbn [take single_hyphens]; try trivial.
  intros H. apply andb_true_iff in H as [Hc Hs]. rewrite IH by exact Hs.
  rewrite andb_true_r. destruct (is_hyphen c); [|reflexivity].
  cbn [andb negb] in *. destruct (head_hyphen (take n s)) eqn:Hh; [|reflexivity].
  apply take_head in Hh. now rewrite Hh in Hc.
Qed.

Lemma take_length (n : nat) (s : string) : (String.length (take n s) <= n)%nat.
Proof.
  revert n. induction s as [|c s IH]; intros [|n]; cbn [take String.length]; try lia.
  specialize (IH n). lia.
Qed.

Lemma single_no_double (s : string) : single_hyphens s = true -> ~ occurs_in "--" s.
Proof.
  intros H Hocc. apply str_in_spec in Hocc.
  induction s as [|c s IH]; cbn [str_in startswith] in Hocc; [discriminate|].
  cbn [single_hyphens] in H. apply andb_true_iff in H as [Hc Hs].
  apply orb_true_iff in Hocc as [Hocc | Hocc]; [|now apply IH].
  destruct s as [|x s]; [now rewrite andb_false_r in Hocc|].
  rewrite andb_true_r in Hocc. apply andb_true_iff in Hocc as [H1 H2].
  apply Ascii.eqb_eq in H1, H2. subst c x. discriminate Hc.
Qed.

Lemma sub_runs_after_alnum (b : bool) (a : string) (x : ascii) (t : string) :
  is_alnum x = true ->
  sub_runs b (a +:+ String x t) = sub_runs b (a +:+ String x "") +:+ sub_runs false t.
Proof.
  intros Hx. revert b. induction a as [|c a IH]; intros b.
  - rewrite !append_nil. cbn [sub_runs]. rewrite Hx. reflexivity.
  - rewrite !append_cons. cbn [sub_runs].
    destruct (is_alnum c); [now rewrite IH|].
    destruct b; now rewrite IH.
Qed.

Lemma sub_runs_inside_run (run rest : string) :
  forall_chars (fun c => negb (is_alnum c)) run = true ->
  sub_runs true (run +:+ rest) = sub_runs true rest.
Proof.
  induction run as [|c run IH]; [reflexivity|].
  cbn [forall_chars]. intros H. apply andb_true_iff in H as [Hc Hr].
  rewrite append_cons. cbn [sub_runs].
  apply negb_true_iff in Hc. rewrite Hc. now apply IH.
Qed.

(** C9.  The slug of a value at the limit [build] uses (60) holds only
    lower-case letters, digits and hyphens, never two hyphens in a row, at
    most 60 characters, and at least one.  In the substitution it starts
    from, a run of characters outside [a-zA-Z0-9] that stands between two
    characters of that class becomes exactly one hyphen (the runs at the two
    ends are then trimmed away).  The slug of a job whose company, title and
    id are all empty is "job"; the one of "Acme, Inc.", "SWE Intern!!", "42"
    is "acme-inc-swe-intern-42".  Being a function of the value, the slug is
    deterministic. *)
Theorem safe_slug_filesystem_safe (value : string) :
  let slug := _safe_slug value 60 in
  forall_chars is_slug_char slug = true
  /\ ~ occurs_in "--" slug
  /\ (String.length slug <= 60)%nat
  /\ slug <> ""
  /\ (forall a x run y b,
        is_alnum x = true -> is_alnum y = true -> run <> "" ->
        forall_chars (fun c => negb (is_alnum c)) run = true ->
        sub_runs false (a +:+ String x (run +:+ String y b))
        = sub_runs false (a +:+ String x "") +:+ "-" +:+ sub_runs false (String y b))
  /\ (forall job, build_slug job
                  = _safe_slug (JobPosting.company job +:+ "-" +:+ JobPosting.title job
                                +:+ "-" +:+ JobPosting.job_id job) 60)
  /\ build_slug {| JobPosting.job_id := ""; JobPosting.title := "";
                   JobPosting.company := ""; JobPosting.location := "";
                   JobPosting.description := ""; JobPosting.url := "" |} = "job"
  /\ build_slug {| JobPosting.job_id := "42"; JobPosting.title := "SWE Intern!!";
                   JobPosting.company := "Acme, Inc."; JobPosting.location := "";
                   JobPosting.description := ""; JobPosting.url := "" |}
     = "acme-inc-swe-intern-42".
Proof.
  intros slug. subst slug. unfold _safe_slug.
  set (cleaned := lower (strip_chars "-" (sub_runs false value))).
  assert (Hchars : forall_chars is_slug_char cleaned = true).
  { apply lower_chars, rstrip_chars, lstrip_chars, sub_runs_chars. }
  assert (Hsingle : single_hyphens cleaned = true).
  { unfold cleaned. rewrite lower_single.
    apply rstrip_single, lstrip_single, sub_runs_single. }
  assert (Hslice : slice_to cleaned 60 = take 60 cleaned) by reflexivity.
  rewrite Hslice. unfold or_else.
  repeat split.
  - destruct (truthy (take 60 cleaned)); [now apply take_chars | reflexivity].
  - destruct (truthy (take 60 cleaned)).
    + apply single_no_double. now apply take_single.
    + apply str_in_false. reflexivity.
  - destruct (truthy (take 60 cleaned)); [apply take_length | cbn; lia].
  - destruct (truthy (take 60 cleaned)) eqn:Ht; [now apply truthy_true | discriminate].
  - intros a x run y b Hx Hy Hne Hrun.
    rewrite sub_runs_after_alnum by exact Hx. f_equal.
    destruct run as [|c run]; [congruence|].
    cbn [forall_chars] in Hrun. apply andb_true_iff in Hrun as [Hc Hrun].
    apply negb_true_iff in Hc.
    rewrite append_cons. cbn [sub_runs]. rewrite Hc, Hy.
    rewrite sub_runs_inside_run by exact Hrun. cbn [sub_runs]. now rewrite Hy.
Qed.

Lemma safe_slug_filesystem_safe_witness :
  sub_runs false ("Acme" +:+ String "e" (", " +:+ String "I" "nc."))
  = sub_runs false ("Acme" +:+ String "e" "") +:+ "-" +:+ sub_runs false (String "I" "nc.").
Proof.
  destruct (safe_slug_filesystem_safe "") as (_ & _ & _ & _ & Hrun & _).
  apply Hrun; try reflexivity. discriminate.
Defined.

End ResumeBuilderClaims.

(** ** The configuration loader and the command-line overrides *)

Module SettingsClaims.
Import Py PyStr PyStrFacts Settings.

Lemma or_dict_nonempty (d : list (pyval * pyval)) (k : string) (v : pyval) :
  dict_lookup k d = Some v -> or_dict (PDict d) = PDict d.
Proof. destruct d; [discriminate | reflexivity]. Qed.

Lemma or_dict_falsy (v : pyval) : py_bool v = false -> or_dict v = PDict [].
Proof. unfold or_dict. now intros ->. Qed.

Lemma get_absent (d : list (pyval * pyval)) (k : string) (dflt : pyval) :
  dict_lookup k d = None -> get (PDict d) k dflt = Ok dflt.
Proof. unfold get. now intros ->. Qed.

Lemma get_present (d : list (pyval * pyval)) (k : string) (dflt v : pyval) :
  dict_lookup k d = Some v -> get (PDict d) k dflt = Ok v.
Proof. unfold get. now intros ->. Qed.

Lemma getitem_present (d : list (pyval * pyval)) (k : string) (v : pyval) :
  dict_lookup k d = Some v -> getitem (PDict d) k = Ok v.
Proof. unfold getitem. now intros ->. Qed.

Lemma bind_Ok {A B : Type} (a : A) (k : A -> result B) : bind (Ok a) k = k a.
Proof. reflexivity. Qed.

Lemma get_empty (k : string) (dflt : pyval) : get (PDict []) k dflt = Ok dflt.
Proof. reflexivity. Qed.

Lemma get_default (d : list (pyval * pyval)) (k : string) (dflt : pyval) :
  get (PDict d) k dflt = Ok (default dflt (dict_lookup k d)).
Proof. reflexivity. Qed.

Lemma contains_absent (d : list (pyval * pyval)) (k : string) :
  dict_lookup k d = None -> contains (PDict d) k = Ok false.
Proof. unfold contains. intros ->. reflexivity. Qed.

Lemma contains_present (d : list (pyval * pyval)) (k : string) (v : pyval) :
  dict_lookup k d = Some v -> contains (PDict d) k = Ok true.
Proof. unfold contains. intros ->. reflexivity. Qed.

Lemma load_config_loads (H : Host) (path : string) (doc : pyval) :
  loads H path doc -> load_config H path = config_of_document (builtins H) doc.
Proof.
  intros [He [text [Hr Hl]]]. unfold load_config.
  rewrite He, Hr. cbn [negb bind]. now rewrite Hl.
Qed.

(** C5.  [load_config] raises [FileNotFoundError] when the file is absent,
    and [ValueError] when the document has no [handshake] section or when
    the e-mail or the password of that section is absent or empty.  On a
    document that holds only a [handshake] section with both credentials it
    succeeds, and every other field has its documented default.  The flags
    [--dry-run], [--max-applications] and [--headless], applied after
    loading, decide the fields they name whatever the file said. *)
Theorem load_config_contract (H : Host) (path : string) (args : Cli.Args) :
  (path_exists H path = false ->
   load_config H path
   = Raise (FileNotFoundError ("Config not found: " +:+ path_str H path)))
  /\ (forall doc, loads H path doc ->
      (py_bool doc = false \/ (exists d, doc = PDict d /\ dict_lookup "handshake" d = None) ->
       load_config H path = Raise (ValueError "Missing required section: handshake"))
      /\ (forall d hs,
            doc = PDict d -> dict_lookup "handshake" d = Some hs ->
            (py_bool hs = false
             \/ (exists h, hs = PDict h
                           /\ (py_bool (default PNone (dict_lookup "email" h)) = false
                               \/ py_bool (default PNone (dict_lookup "password" h)) = false)) ->
             load_config H path
             = Raise (ValueError "handshake.email and handshake.password are required"))
            /\ (forall h e pw,
                  hs = PDict h ->
                  dict_lookup "email" h = Some e -> py_bool e = true ->
                  dict_lookup "password" h = Some pw -> py_bool pw = true ->
                  dict_lookup "login_url" h = None -> dict_lookup "jobs_url" h = None ->
                  (forall k, In k ["browser"; "filters"; "application"; "resume"; "llm"; "qa"] ->
                             dict_lookup k d = None) ->
                  load_config H path
                  = Ok (defaults_with (py_str (builtins H) e) (py_str (builtins H) pw)))))
  /\ (forall config,
        let config' := Cli.apply_overrides args config in
        (Cli.arg_dry_run args = true ->
         dry_run (application config') = true /\ auto_submit (application config') = false)
        /\ (forall n, Cli.arg_max_applications args = Some n ->
                      max_applications (application config') = n)
        /\ (Cli.arg_headless args = true -> headless (browser config') = true)).
Proof.
  split; [|split].
  - intros He. unfold load_config. now rewrite He.
  - intros doc Hdoc. rewrite (load_config_loads H path doc Hdoc).
    set (B := builtins H). split.
    + intros [Hf | [d [-> Hd]]]; unfold config_of_document.
      * rewrite (or_dict_falsy doc Hf). reflexivity.
      * destruct d as [|kv d].
        -- reflexivity.
        -- change (or_dict (PDict (kv :: d))) with (PDict (kv :: d)).
           rewrite (contains_absent _ _ Hd), bind_Ok. reflexivity.
    + intros d hs -> Hhs. unfold config_of_document.
      rewrite (or_dict_nonempty d _ _ Hhs), (contains_present d _ _ Hhs).
      rewrite bind_Ok. cbv beta. cbn [negb].
      rewrite (getitem_present d _ _ Hhs), bind_Ok. cbv beta.
      split.
      * intros [Hf | [h [-> Hbad]]].
        -- rewrite (or_dict_falsy hs Hf), get_empty, bind_Ok. reflexivity.
        -- assert (Hraw : exists h', or_dict (PDict h) = PDict h'
                     /\ dict_lookup "email" h' = dict_lookup "email" h
                     /\ dict_lookup "password" h' = dict_lookup "password" h).
           { destruct h; [exists [] | eexists]; repeat split; reflexivity. }
           destruct Hraw as [h' [-> [He Hp]]].
           rewrite (get_default h' "email"), bind_Ok. cbv beta. rewrite He.
           destruct (py_bool (default PNone (dict_lookup "email" h))) eqn:Hem.
           ++ rewrite (get_default h' "password"), bind_Ok. cbv beta. rewrite Hp.
              destruct Hbad as [Hbad | Hbad]; [discriminate|].
              rewrite Hbad. reflexivity.
           ++ rewrite bind_Ok. reflexivity.
      * intros h e pw -> He Hbe Hp Hbp Hlogin Hjobs Hnone.
        rewrite (or_dict_nonempty h _ _ He).
        rewrite (get_present h "email" PNone e He), bind_Ok. cbv beta. rewrite Hbe.
        rewrite (get_present h "password" PNone pw Hp), bind_Ok. cbv beta. rewrite Hbp.
        cbn [negb orb].
        rewrite (get_absent d "browser"), (get_absent d "filters"),
          (get_absent d "application"), (get_absent d "resume"),
          (get_absent d "llm"), (get_absent d "qa")
          by (apply Hnone; cbn [In]; auto 10).
        rewrite !bind_Ok. cbv beta.
        rewrite (getitem_present h _ _ He), (getitem_present h _ _ Hp).
        rewrite (get_absent h "login_url" _ Hlogin), (get_absent h "jobs_url" _ Hjobs).
        rewrite !bind_Ok. cbv beta.
        vm_compute. reflexivity.
  - intros config config'. subst config'. unfold Cli.apply_overrides.
    destruct args as [dr mx hl]. cbn [Cli.arg_dry_run Cli.arg_max_applications Cli.arg_headless].
    split; [|split].
    + intros ->. destruct mx, hl; split; reflexivity.
    + intros n ->. destruct dr, hl; reflexivity.
    + intros ->. destruct dr, mx; reflexivity.
Qed.

Lemma load_config_contract_witness :
  load_config Examples.host_no_file "config/application.yaml"
  = Raise (FileNotFoundError "Config not found: config/application.yaml")
  /\ load_config (Examples.host_with_config Examples.doc_no_handshake)
       "config/application.yaml"
     = Raise (ValueError "Missing required section: handshake")
  /\ load_config (Examples.host_with_config Examples.doc_blank_password)
       "config/application.yaml"
     = Raise (ValueError "handshake.email and handshake.password are required")
  /\ load_config (Examples.host_with_config Examples.doc_handshake_only)
       "config/application.yaml"
     = Ok (defaults_with "test@example.com" "secret")
  /\ dry_run (application (Cli.apply_overrides Examples.args_all Examples.config_live)) = true
  /\ auto_submit (application (Cli.apply_overrides Examples.args_all Examples.config_live))
     = false
  /\ max_applications (application (Cli.apply_overrides Examples.args_all Examples.config_live))
     = 3
  /\ headless (browser (Cli.apply_overrides Examples.args_all Examples.config_live)) = true.
Proof.
  assert (Hloads : forall doc,
             loads (Examples.host_with_config doc) "config/application.yaml" doc).
  { intros doc. split; [reflexivity|]. eexists. split; reflexivity. }
  split; [|split; [|split; [|split]]].
  - apply (proj1 (load_config_contract Examples.host_no_file "config/application.yaml"
                    Examples.args_all)).
    reflexivity.
  - destruct (proj1 (proj2 (load_config_contract
                              (Examples.host_with_config Examples.doc_no_handshake)
                              "config/application.yaml" Examples.args_all))
                _ (Hloads _)) as [Hmissing _].
    apply Hmissing. right. eexists. split; reflexivity.
  - destruct (proj1 (proj2 (load_config_contract
                              (Examples.host_with_config Examples.doc_blank_password)
                              "config/application.yaml" Examples.args_all))
                _ (Hloads _)) as [_ Hhs].
    destruct (Hhs _ _ eq_refl eq_refl) as [Hbad _].
    apply Hbad. right. eexists. split; [reflexivity|]. right. reflexivity.
  - destruct (proj1 (proj2 (load_config_contract
                              (Examples.host_with_config Examples.doc_handshake_only)
                              "config/application.yaml" Examples.args_all))
                _ (Hloads _)) as [_ Hhs].
    destruct (Hhs _ _ eq_refl eq_refl) as [_ Hgood].
    apply (Hgood _ (PStr "test@example.com") (PStr "secret") eq_refl);
      try reflexivity.
    intros k Hk. cbn [In] in Hk.
    repeat (destruct Hk as [<- | Hk]; [reflexivity|]). destruct Hk.
  - destruct (proj2 (proj2 (load_config_contract Examples.host_no_file ""
                              Examples.args_all)) Examples.config_live)
      as ([Hdry Hauto] & Hmax & Hhead); try reflexivity.
    split; [exact Hdry|]. split; [exact Hauto|].
    split; [apply Hmax; reflexivity | apply Hhead; reflexivity].
Defined.

End SettingsClaims.

(** ** The browser-driving bot *)

Module BotFacts.
Import Py PyStr PyStrFacts HandshakeBot Bot.

Section Combinators.
Context {W : Type}.

Lemma bind_act_inv {A B : Type} (m : Act W A) (k : A -> Act W B) st r st' :
  bind_act m k st = (r, st') ->
  (exists e, m st = (Raise e, st') /\ r = Raise e)
  \/ (exists a st1, m st = (Ok a, st1) /\ k a st1 = (r, st')).
Proof.
  unfold bind_act. destruct (m st) as [[a | e] st1]; intros H.
  - right. now exists a, st1.
  - left. injection H as <- <-. now exists e.
Qed.

Lemma call_inv {A : Type} (f : W -> result A * W) (ev : A -> Event) st r st' :
  call f ev st = (r, st') ->
  (exists e, r = Raise e /\ st'.2 = st.2)
  \/ (exists a, r = Ok a /\ st'.2 = st.2 ++ [ev a]).
Proof.
  unfold call. destruct (f st.1) as [[a | e] w]; intros H; injection H as <- <-.
  - right. now exists a.
  - left. now exists e.
Qed.

Lemma call_total_inv {A : Type} (f : W -> A * W) (ev : A -> Event) st r st' :
  call_total f ev st = (r, st') -> exists a, r = Ok a /\ st'.2 = st.2 ++ [ev a].
Proof.
  unfold call_total. destruct (f st.1) as [a w]. intros H; injection H as <- <-.
  now exists a.
Qed.

Lemma appends_ret {A : Type} (P : Event -> bool) (a : A) : appends (W:=W) P (ret a).
Proof.
  intros st r st' H. injection H as <- <-. exists []. now rewrite app_nil_r.
Qed.

Lemma appends_raise {A : Type} (P : Event -> bool) (e : exn) :
  appends (W:=W) (A:=A) P (raise e).
Proof.
  intros st r st' H. injection H as <- <-. exists []. now rewrite app_nil_r.
Qed.

Lemma appends_bind {A B : Type} (P : Event -> bool) (m : Act W A) (k : A -> Act W B) :
  appends P m -> (forall a, appends P (k a)) -> appends P (bind_act m k).
Proof.
  intros Hm Hk st r st' H.
  apply bind_act_inv in H as [[e [H _]] | [a [st1 [H1 H2]]]].
  - now apply Hm in H.
  - apply Hm in H1 as [e1 [E1 F1]]. apply Hk in H2 as [e2 [E2 F2]].
    exists (e1 ++ e2). rewrite E2, E1, <- app_assoc. split; [reflexivity|].
    rewrite forallb_app. now rewrite F1, F2.
Qed.

Lemma appends_call {A : Type} (P : Event -> bool) (f : W -> result A * W)
    (ev : A -> Event) :
  (forall a, P (ev a) = true) -> appends P (call f ev).
Proof.
  intros Hev st r st' H. apply call_inv in H as [[e [_ E]] | [a [_ E]]].
  - exists []. now rewrite app_nil_r.
  - exists [ev a]. split; [exact E|]. cbn [forallb]. now rewrite Hev.
Qed.

Lemma appends_call_total {A : Type} (P : Event -> bool) (f : W -> A * W)
    (ev : A -> Event) :
  (forall a, P (ev a) = true) -> appends P (call_total f ev).
Proof.
  intros Hev st r st' H. apply call_total_inv in H as [a [_ E]].
  exists [ev a]. split; [exact E|]. cbn [forallb]. now rewrite Hev.
Qed.

Lemma appends_try_except {A : Type} (P : Event -> bool) (m : Act W A)
    (h : exn -> Act W A) :
  appends P m -> (forall e, appends P (h e)) -> appends P (try_except m h).
Proof.
  intros Hm Hh st r st' H. unfold try_except in H.
  destruct (m st) as [[a | e] st1] eqn:Em.
  - injection H as <- <-. now apply Hm in Em.
  - apply Hm in Em as [e1 [E1 F1]]. apply Hh in H as [e2 [E2 F2]].
    exists (e1 ++ e2). rewrite E2, E1, <- app_assoc. split; [reflexivity|].
    rewrite forallb_app. now rewrite F1, F2.
Qed.

Lemma try_except_inv {A : Type} (m : Act W A) (h : exn -> Act W A) st r st' :
  try_except m h st = (r, st') ->
  (exists a, m st = (Ok a, st') /\ r = Ok a)
  \/ (exists e st1, m st = (Raise e, st1) /\ h e st1 = (r, st')).
Proof.
  unfold try_except. destruct (m st) as [[a | e] st1]; intros H.
  - left. injection H as <- <-. now exists a.
  - right. now exists e, st1.
Qed.

Lemma attempt_inv (f : W -> result unit * W) (ev : Event) st r st' :
  attempt f ev st = (r, st') -> r = (f st.1).1 /\ st'.2 = st.2 ++ [ev].
Proof.
  unfold attempt. destruct (f st.1) as [r0 w]. intros H. injection H as <- <-.
  now split.
Qed.

Lemma finally_inv {A : Type} (m : Act W A) (f : Act W unit) st r st' :
  finally m f st = (r, st') ->
  exists r0 st1 u,
    m st = (r0, st1) /\ f st1 = (u, st')
    /\ r = match u with Ok _ => r0 | Raise e => Raise e end.
Proof.
  unfold finally. destruct (m st) as [r0 st1].
  destruct (f st1) as [[[] | e] st2] eqn:Ef; intros H; injection H as <- <-.
  - now exists r0, st1, (Ok tt).
  - now exists r0, st1, (Raise e).
Qed.

Lemma appends_attempt (P : Event -> bool) (f : W -> result unit * W) (ev : Event) :
  P ev = true -> appends P (attempt f ev).
Proof.
  intros Hev st r st' H. apply attempt_inv in H as [_ E].
  exists [ev]. split; [exact E|]. cbn [forallb]. now rewrite Hev.
Qed.

Lemma appends_finally {A : Type} (P : Event -> bool) (m : Act W A) (f : Act W unit) :
  appends P m -> appends P f -> appends P (finally m f).
Proof.
  intros Hm Hf st r st' H. apply finally_inv in H as (r0 & st1 & u & H1 & H2 & _).
  apply Hm in H1 as [e1 [E1 F1]]. apply Hf in H2 as [e2 [E2 F2]].
  exists (e1 ++ e2). rewrite E2, E1, <- app_assoc. split; [reflexivity|].
  rewrite forallb_app. now rewrite F1, F2.
Qed.

Lemma returns_ret {A : Type} (Q : A -> Prop) (a : A) : Q a -> returns (W:=W) Q (ret a).
Proof. intros Ha st b st' H. now injection H as <- <-. Qed.

Lemma returns_bind {A B : Type} (Q1 : A -> Prop) (Q : B -> Prop) (m : Act W A)
    (k : A -> Act W B) :
  returns Q1 m -> (forall a, Q1 a -> returns Q (k a)) -> returns Q (bind_act m k).
Proof.
  intros Hm Hk st b st' H.
  apply bind_act_inv in H as [[e [_ H]] | [a [st1 [H1 H2]]]]; [discriminate|].
  apply Hm in H1. now apply (Hk a H1) in H2.
Qed.

Lemma returns_any {A : Type} (m : Act W A) : returns (fun _ => True) m.
Proof. intros st a st' _. exact I. Qed.

Lemma returns_then {A B : Type} (Q : B -> Prop) (m : Act W A) (k : A -> Act W B) :
  (forall a, returns Q (k a)) -> returns Q (bind_act m k).
Proof.
  intros Hk. apply (returns_bind (fun _ => True)); [apply returns_any | auto].
Qed.

Lemma returns_raise {A : Type} (Q : A -> Prop) (e : exn) :
  returns (W:=W) Q (raise e).
Proof. intros st b st' H. discriminate H. Qed.

Lemma quiet_no_click (evs : list Event) :
  forallb quiet evs = true -> forallb (fun e => negb (is_submit_click e)) evs = true.
Proof.
  induction evs as [|e evs IH]; cbn [forallb]; [trivial|].
  unfold quiet at 1. intros H. apply andb_true_iff in H as [He Hs].
  apply andb_true_iff in He as [He _]. now rewrite He, IH.
Qed.

Lemma quiet_no_sighting (evs : list Event) :
  forallb quiet evs = true -> existsb is_submit_sighting evs = false.
Proof.
  induction evs as [|e evs IH]; cbn [forallb existsb]; [trivial|].
  unfold quiet at 1. intros H. apply andb_true_iff in H as [He Hs].
  apply andb_true_iff in He as [_ He]. apply negb_true_iff in He.
  now rewrite He, IH.
Qed.

Lemma guarded_quiet {A : Type} (T : result A -> Prop) (m : Act W A) :
  appends quiet m -> guarded T m.
Proof.
  intros Hm st r st' H. apply Hm in H as [evs [E F]].
  exists evs. split; [exact E|]. split; [now apply quiet_no_click|].
  rewrite (quiet_no_sighting evs F). discriminate.
Qed.

Lemma guarded_after_quiet {A B : Type} (T : result B -> Prop) (m : Act W A)
    (k : A -> Act W B) :
  appends quiet m -> (forall a, guarded T (k a)) -> guarded T (bind_act m k).
Proof.
  intros Hm Hk st r st' H.
  apply bind_act_inv in H as [[e [H ->]] | [a [st1 [H1 H2]]]].
  - apply Hm in H as [evs [E F]]. exists evs. split; [exact E|].
    split; [now apply quiet_no_click|].
    rewrite (quiet_no_sighting evs F). discriminate.
  - apply Hm in H1 as [e1 [E1 F1]]. apply Hk in H2 as [e2 [E2 [F2 G2]]].
    exists (e1 ++ e2). rewrite E2, E1, <- app_assoc. split; [reflexivity|].
    split.
    + rewrite forallb_app. now rewrite (quiet_no_click e1 F1), F2.
    + rewrite existsb_app, (quiet_no_sighting e1 F1). exact G2.
Qed.

Lemma guarded_branch {B : Type} (T : result B -> Prop) (m : Act W bool)
    (k : bool -> Act W B) (x : B) :
  guarded (fun r => r = Ok true) m ->
  k true = ret x -> T (Ok x) ->
  guarded T (k false) ->
  guarded T (bind_act m k).
Proof.
  intros Hm Htrue Hx Hfalse st r st' H.
  apply bind_act_inv in H as [[e [H ->]] | [a [st1 [H1 H2]]]].
  - apply Hm in H as [evs [E [F G]]]. exists evs. split; [exact E|].
    split; [exact F|]. intros Hs. apply G in Hs. discriminate Hs.
  - apply Hm in H1 as [e1 [E1 [F1 G1]]]. destruct a.
    + rewrite Htrue in H2. injection H2 as <- <-.
      exists e1. split; [exact E1|]. split; [exact F1 | intros _; exact Hx].
    + apply Hfalse in H2 as [e2 [E2 [F2 G2]]].
      exists (e1 ++ e2). rewrite E2, E1, <- app_assoc. split; [reflexivity|].
      split.
      * rewrite forallb_app. now rewrite F1, F2.
      * rewrite existsb_app. intros Hs. apply orb_true_iff in Hs as [Hs | Hs].
        -- apply G1 in Hs. discriminate Hs.
        -- now apply G2.
Qed.

End Combinators.

Section FlowFacts.
Context {W : Type}.
Variable config : Settings.AutomationConfig.
Variable Br : Browser W.

Lemma goto_quiet (url : string) : appends quiet (goto Br url).
Proof. apply appends_call. reflexivity. Qed.

Lemma wait_quiet (ms : Z) : appends quiet (wait_for_timeout Br ms).
Proof. apply appends_call. reflexivity. Qed.

Lemma click_apply_quiet : appends quiet (_click_apply Br).
Proof.
  unfold _click_apply.
  apply appends_bind; [apply wait_quiet | intros _].
  apply appends_bind; [apply appends_call_total; reflexivity | intros clicked].
  destruct clicked.
  - apply appends_bind; [apply wait_quiet | intros _; apply appends_ret].
  - apply appends_bind; [apply appends_call; reflexivity | intros visible].
    destruct visible; [|apply appends_ret].
    apply appends_try_except; [|intros _; apply appends_ret].
    apply appends_bind; [apply appends_call; reflexivity | intros _].
    apply appends_bind; [apply wait_quiet | intros _; apply appends_ret].
Qed.

Lemma click_next_quiet : appends quiet (_click_next_step Br).
Proof. apply appends_call_total. reflexivity. Qed.

Lemma probe_buttons_guarded (patterns : list string) :
  guarded (fun r => r = Ok true) (probe_buttons Br patterns).
Proof.
  induction patterns as [|p ps IH]; cbn [probe_buttons]; intros st r st' H.
  - injection H as <- <-. exists []. rewrite app_nil_r.
    split; [reflexivity|]. split; [reflexivity | discriminate].
  - apply bind_act_inv in H as [[e [H ->]] | [visible [st1 [H1 H2]]]].
    + apply call_inv in H as [[e' [_ E]] | [a [Ha _]]]; [|discriminate Ha].
      exists []. rewrite app_nil_r. split; [exact E|].
      split; [reflexivity | discriminate].
    + apply call_inv in H1 as [[e' [He' _]] | [a [Ha E]]]; [discriminate He'|].
      injection Ha as <-. destruct visible.
      * injection H2 as <- <-. exists [EvButtonProbe p true].
        split; [exact E|]. split; [reflexivity | reflexivity].
      * apply IH in H2 as [e2 [E2 [F2 G2]]].
        exists (EvButtonProbe p false :: e2). rewrite E2, E, <- app_assoc.
        split; [reflexivity|]. split; [exact F2 | exact G2].
Qed.

Lemma apply_steps_guarded (n : nat) (job : JobPosting.t) (resume_path : string)
    (uploaded_resume : bool) :
  Settings.dry_run (Settings.application config)
  || negb (Settings.auto_submit (Settings.application config)) = true ->
  guarded (fun r => r = Ok (Some (mk_result job "dry_run_ready" "submit_button_reached")))
    (apply_steps config Br n job resume_path uploaded_resume).
Proof.
  intros Hguard. revert uploaded_resume.
  induction n as [|n IH]; intros uploaded_resume; cbn [apply_steps].
  - apply guarded_quiet, appends_ret.
  - apply guarded_after_quiet.
    { destruct uploaded_resume; cbn [negb];
        [apply appends_ret | apply appends_call; reflexivity]. }
    intros uploaded. apply guarded_after_quiet; [apply appends_call; reflexivity|].
    intros _.
    apply (guarded_branch _ _ _
             (Some (mk_result job "dry_run_ready" "submit_button_reached"))).
    + apply probe_buttons_guarded.
    + cbv beta iota. now rewrite Hguard.
    + reflexivity.
    + apply guarded_after_quiet; [apply click_next_quiet|].
      intros advanced. destruct advanced; cbn [negb].
      * apply guarded_after_quiet; [apply wait_quiet | intros _; apply IH].
      * apply guarded_quiet, appends_ret.
Qed.

Lemma apply_body_guarded (job : JobPosting.t) :
  Settings.dry_run (Settings.application config)
  || negb (Settings.auto_submit (Settings.application config)) = true ->
  guarded (fun r => r = Ok (mk_result job "dry_run_ready" "submit_button_reached"))
    (apply_body config Br job).
Proof.
  intros Hguard. unfold apply_body.
  apply guarded_after_quiet; [apply goto_quiet | intros _].
  apply guarded_after_quiet; [apply wait_quiet | intros _].
  apply guarded_after_quiet; [apply click_apply_quiet | intros found].
  destruct found; cbn [negb]; [|apply guarded_quiet, appends_ret].
  apply guarded_after_quiet; [apply appends_call; reflexivity | intros resume_path].
  intros st r st' H.
  apply bind_act_inv in H as [[e [H ->]] | [o [st1 [H1 H2]]]].
  - apply (apply_steps_guarded 14 job resume_path false Hguard) in H
      as [evs [E [F G]]].
    exists evs. split; [exact E|]. split; [exact F|].
    intros Hs. apply G in Hs. discriminate Hs.
  - apply (apply_steps_guarded 14 job resume_path false Hguard) in H1
      as [evs [E [F G]]].
    exists evs. destruct o as [result|]; injection H2 as <- <-.
    + split; [exact E|]. split; [exact F|].
      intros Hs. apply G in Hs. now injection Hs as ->.
    + split; [exact E|]. split; [exact F|].
      intros Hs. apply G in Hs. discriminate Hs.
Qed.

(** The shape of what the apply flow hands back for [job]. *)
Lemma apply_steps_returns (n : nat) (job : JobPosting.t) (resume_path : string)
    (uploaded_resume : bool) :
  returns (fun o => forall r, o = Some r ->
                    exists status reason, r = mk_result job status reason
                                          /\ In status statuses)
    (apply_steps config Br n job resume_path uploaded_resume).
Proof.
  revert uploaded_resume.
  induction n as [|n IH]; intros uploaded_resume; cbn [apply_steps].
  - apply returns_ret. discriminate.
  - apply returns_then. intros uploaded. apply returns_then. intros _.
    apply returns_then. intros has_submit. destruct has_submit.
    + destruct (Settings.dry_run _ || negb _).
      * apply returns_ret. intros r [= <-]. eexists _, _. split; [reflexivity|].
        cbn. auto.
      * apply returns_then. intros _. apply returns_ret. intros r [= <-].
        eexists _, _. split; [reflexivity|]. cbn. auto.
    + apply returns_then. intros advanced. destruct advanced; cbn [negb].
      * apply returns_then. intros _. apply IH.
      * apply returns_ret. discriminate.
Qed.

Lemma apply_body_returns (job : JobPosting.t) :
  returns (fun r => exists status reason, r = mk_result job status reason
                                          /\ In status statuses)
    (apply_body config Br job).
Proof.
  unfold apply_body. apply returns_then. intros _. apply returns_then. intros _.
  apply returns_then. intros found. destruct found; cbn [negb].
  - apply returns_then. intros resume_path.
    eapply returns_bind; [apply apply_steps_returns|].
    intros o Ho. destruct o as [result|].
    + apply returns_ret. now apply Ho.
    + apply returns_ret. eexists _, _. split; [reflexivity|]. cbn. auto 10.
  - apply returns_ret. eexists _, _. split; [reflexivity|]. cbn. auto 10.
Qed.

(** What opening a page leaves: nothing when [new_page] raises, an open
    page when setting the timeout raises, otherwise the two events. *)
Lemma open_page_inv st r st' :
  open_page config Br st = (r, st') ->
  (exists e, r = Raise e /\ (new_page Br st.1).1 = Raise e /\ st'.2 = st.2)
  \/ (exists e w, r = Raise e
                  /\ (set_default_timeout Br (Settings.timeout_ms (Settings.browser config))
                        w).1 = Raise e
                  /\ st'.2 = st.2 ++ [EvNewPage])
  \/ (r = Ok tt
      /\ st'.2 = st.2 ++ [EvNewPage;
                          EvSetDefaultTimeout (Settings.timeout_ms (Settings.browser config))]).
Proof.
  unfold open_page. intros H.
  apply bind_act_inv in H as [[e [H ->]] | [[] [st1 [H1 H2]]]].
  - left. exists e. unfold call in H. destruct (new_page Br st.1) as [[[] | e0] w];
      [discriminate H|]. injection H as <- <-. now repeat split.
  - right. apply call_inv in H1 as [[e [He _]] | [[] [_ E1]]]; [discriminate He|].
    unfold call in H2.
    destruct (set_default_timeout Br _ st1.1) as [[[] | e0] w] eqn:Et;
      injection H2 as <- <-.
    + right. split; [reflexivity|]. cbn [snd]. now rewrite E1, <- app_assoc.
    + left. exists e0, st1.1. rewrite Et. cbn [fst snd]. now repeat split.
Qed.

(** A flow of the shape [page = ...; try: body / except: handler /
    finally: page.close()]. *)
Lemma paged_inv {A : Type} (body : Act W A) (handler : exn -> Act W A) st r st' :
  (_ <~ open_page config Br ;; finally (try_except body handler) (close_page Br)) st
  = (r, st') ->
  (exists e, r = Raise e /\ (new_page Br st.1).1 = Raise e /\ st'.2 = st.2)
  \/ (exists e w, r = Raise e
                  /\ (set_default_timeout Br (Settings.timeout_ms (Settings.browser config))
                        w).1 = Raise e
                  /\ st'.2 = st.2 ++ [EvNewPage])
  \/ (exists st0 r0 st1,
        st0.2 = st.2 ++ [EvNewPage;
                         EvSetDefaultTimeout (Settings.timeout_ms (Settings.browser config))]
        /\ try_except body handler st0 = (r0, st1)
        /\ st'.2 = st1.2 ++ [EvClosePage]
        /\ r = match (page_close Br st1.1).1 with Ok _ => r0 | Raise e => Raise e end).
Proof.
  intros H. apply bind_act_inv in H as [[e [H ->]] | [[] [st0 [H1 H2]]]].
  - apply open_page_inv in H as [(e' & [= <-] & Hn & E) | [(e' & w & [= <-] & Ht & E)
                                                          | [He _]]].
    + left. exists e. now repeat split.
    + right. left. exists e, w. now repeat split.
    + discriminate He.
  - apply open_page_inv in H1 as [(e' & He & _) | [(e' & w & He & _) | [_ E0]]];
      [discriminate He | discriminate He |].
    right. right. apply finally_inv in H2 as (r0 & st1 & u & Hb & Hc & ->).
    unfold close_page in Hc. apply attempt_inv in Hc as [-> E].
    exists st0, r0, st1. now repeat split.
Qed.

(** The handlers of the two flows never raise. *)
Lemma apply_try_returns (job : JobPosting.t) st r st' :
  try_except (apply_body config Br job) (apply_failed config Br job) st = (r, st') ->
  exists res status reason,
    r = Ok res /\ res = mk_result job status reason /\ In status statuses.
Proof.
  intros H. apply try_except_inv in H as [[res [Hb ->]] | [e [st1 [_ Hh]]]].
  - apply apply_body_returns in Hb as (status & reason & Hres & Hin).
    now exists res, status, reason.
  - unfold apply_failed in Hh. injection Hh as <- <-.
    eexists _, _, _. split; [reflexivity|]. split; [reflexivity|]. cbn. auto 10.
Qed.

Lemma apply_to_job_shape (job : JobPosting.t) (st : St W) (res : ApplicationResult.t) :
  (_apply_to_job config Br job st).1 = Ok res ->
  exists status reason, res = mk_result job status reason /\ In status statuses.
Proof.
  destruct (_apply_to_job config Br job st) as [r st'] eqn:H. cbn [fst]. intros ->.
  unfold _apply_to_job in H.
  apply paged_inv in H as [(e & He & _) | [(e & w & He & _) | (st0 & r0 & st1 & _ & Hb & _ & Hr)]];
    [discriminate He | discriminate He |].
  apply apply_try_returns in Hb as (res' & status & reason & -> & -> & Hin).
  destruct (page_close Br st1.1).1; [|discriminate Hr].
  injection Hr as ->. now exists status, reason.
Qed.

Lemma enrich_job_id (seed : JobPosting.t) (st : St W) (job : JobPosting.t) :
  (_enrich_job config Br seed st).1 = Ok job ->
  JobPosting.job_id job = JobPosting.job_id seed.
Proof.
  destruct (_enrich_job config Br seed st) as [r st'] eqn:H. cbn [fst]. intros ->.
  unfold _enrich_job in H.
  apply paged_inv in H as [(e & He & _) | [(e & w & He & _) | (st0 & r0 & st1 & _ & Hb & _ & Hr)]];
    [discriminate He | discriminate He |].
  destruct (page_close Br st1.1).1; [|discriminate Hr]. subst r0.
  apply try_except_inv in Hb as [[job' [Hb [= <-]]] | [e [st2 [_ Hh]]]].
  - assert (Hret : returns (fun j => JobPosting.job_id j = JobPosting.job_id seed)
                     (enrich_body Br seed)).
    { unfold enrich_body. do 6 (apply returns_then; intros ?).
      apply returns_ret. reflexivity. }
    now apply Hret in Hb.
  - now injection Hh as <- <-.
Qed.

(** The two flows raise only what opening the page, setting its timeout or
    closing it raises. *)
Lemma apply_to_job_raises (job : JobPosting.t) (st : St W) (e : exn) :
  (_apply_to_job config Br job st).1 = Raise e -> raised_at_page config Br e.
Proof.
  destruct (_apply_to_job config Br job st) as [r st'] eqn:H. cbn [fst]. intros ->.
  unfold _apply_to_job in H.
  apply paged_inv in H as [(e' & [= <-] & Hn & _) | [(e' & w & [= <-] & Ht & _)
                                                    | (st0 & r0 & st1 & _ & Hb & _ & Hr)]].
  - left. now exists st.1.
  - right. left. now exists w.
  - right. right. exists st1.1.
    apply apply_try_returns in Hb as (res' & status & reason & -> & _).
    destruct (page_close Br st1.1).1 as [[] | e']; [discriminate Hr|].
    now injection Hr as <-.
Qed.

Lemma enrich_job_raises (seed : JobPosting.t) (st : St W) (e : exn) :
  (_enrich_job config Br seed st).1 = Raise e -> raised_at_page config Br e.
Proof.
  destruct (_enrich_job config Br seed st) as [r st'] eqn:H. cbn [fst]. intros ->.
  unfold _enrich_job in H.
  apply paged_inv in H as [(e' & [= <-] & Hn & _) | [(e' & w & [= <-] & Ht & _)
                                                    | (st0 & r0 & st1 & _ & Hb & _ & Hr)]].
  - left. now exists st.1.
  - right. left. now exists w.
  - right. right. exists st1.1.
    destruct (page_close Br st1.1).1 as [[] | e']; [|now injection Hr as <-].
    subst r0. apply try_except_inv in Hb as [[job' [_ Hr]] | [e' [st2 [_ Hh]]]];
      [discriminate Hr | discriminate Hh].
Qed.

End FlowFacts.

End BotFacts.

Module BotClaims.
Import Py PyStr PyStrFacts HandshakeBot Bot BotFacts.

Lemma lowered_keywords_nil (kws : list string) :
  lowered_keywords kws = [] <-> (forall kw, In kw kws -> strip kw = "").
Proof.
  unfold lowered_keywords. induction kws as [|k kws IH]; cbn [List.filter map].
  - split; [intros _ kw [] | reflexivity].
  - destruct (truthy (strip k)) eqn:Hk; cbn [map].
    + split; [discriminate|]. intros H. apply truthy_true in Hk.
      exfalso. apply Hk, H. now left.
    + rewrite IH. apply truthy_false in Hk. split.
      * intros H kw [<- | Hin]; [exact Hk | now apply H].
      * intros H kw Hin. apply H. now right.
Qed.

Lemma lowered_keywords_hit (text : string) (kws : list string) :
  existsb (fun kw => str_in kw text) (lowered_keywords kws) = true
  <-> exists kw, In kw kws /\ strip kw <> "" /\ occurs_in (lower kw) text.
Proof.
  unfold lowered_keywords. rewrite existsb_exists. split.
  - intros [x [Hx Hocc]]. apply in_map_iff in Hx as [kw [<- Hkw]].
    apply List.filter_In in Hkw as [Hin Ht]. exists kw.
    split; [exact Hin|]. split; [now apply truthy_true | now apply str_in_spec].
  - intros [kw [Hin [Hne Hocc]]]. exists (lower kw). split.
    + apply in_map_iff. exists kw. split; [reflexivity|].
      apply List.filter_In. split; [exact Hin | now apply truthy_true].
    + now apply str_in_spec.
Qed.

Lemma any_of_dimension (text : string) (kws : list string) :
  nonempty (lowered_keywords kws)
  && negb (existsb (fun kw => str_in kw text) (lowered_keywords kws)) = false
  <-> ((forall kw, In kw kws -> strip kw = "")
       \/ (exists kw, In kw kws /\ strip kw <> "" /\ occurs_in (lower kw) text)).
Proof.
  rewrite <- lowered_keywords_nil, <- lowered_keywords_hit.
  destruct (lowered_keywords kws) as [|k ks]; cbn [nonempty andb].
  - split; [now left | reflexivity].
  - rewrite negb_false_iff. split; [now right | intros [H | H]; [discriminate | exact H]].
Qed.

Lemma none_of_dimension (text : string) (kws : list string) :
  nonempty (lowered_keywords kws)
  && existsb (fun kw => str_in kw text) (lowered_keywords kws) = false
  <-> (forall kw, In kw kws -> strip kw <> "" -> ~ occurs_in (lower kw) text).
Proof.
  assert (Hiff : existsb (fun kw => str_in kw text) (lowered_keywords kws) = false
                 <-> (forall kw, In kw kws -> strip kw <> "" -> ~ occurs_in (lower kw) text)).
  { split.
    - intros H kw Hin Hne Hocc.
      assert (Ht : existsb (fun kw => str_in kw text) (lowered_keywords kws) = true)
        by (apply lowered_keywords_hit; eauto).
      congruence.
    - intros H. destruct (existsb _ _) eqn:He; [|reflexivity].
      apply lowered_keywords_hit in He as [kw [Hin [Hne Hocc]]].
      exfalso. exact (H kw Hin Hne Hocc). }
  rewrite <- Hiff.
  destruct (lowered_keywords kws) as [|k ks]; cbn [nonempty andb]; [|reflexivity].
  split; reflexivity.
Qed.

Lemma matches_filters_iff (config : Settings.AutomationConfig) (job : JobPosting.t) :
  let f := Settings.filters config in
  let text := job_text job in
  _matches_filters config job = true
  <-> ((forall kw, In kw (Settings.include_keywords f) -> strip kw = "")
       \/ (exists kw, In kw (Settings.include_keywords f) /\ strip kw <> ""
                      /\ occurs_in (lower kw) text))
      /\ (forall kw, In kw (Settings.exclude_keywords f) -> strip kw <> "" ->
                     ~ occurs_in (lower kw) text)
      /\ (Settings.remote_only f = true -> occurs_in "remote" text)
      /\ ((forall kw, In kw (Settings.preferred_locations f) -> strip kw = "")
          \/ (exists kw, In kw (Settings.preferred_locations f) /\ strip kw <> ""
                         /\ occurs_in (lower kw) text)).
Proof.
  intros f text. unfold _matches_filters. cbv zeta. fold f. fold text.
  rewrite <- (any_of_dimension text (Settings.include_keywords f)).
  rewrite <- (none_of_dimension text (Settings.exclude_keywords f)).
  rewrite <- (any_of_dimension text (Settings.preferred_locations f)).
  rewrite <- (str_in_spec "remote" text).
  destruct (nonempty (lowered_keywords (Settings.include_keywords f)) && _);
    [split; [discriminate | intros [H _]; discriminate H]|].
  destruct (nonempty (lowered_keywords (Settings.exclude_keywords f)) && _);
    [split; [discriminate | intros (_ & H & _); discriminate H]|].
  destruct (Settings.remote_only f); cbn [andb].
  - destruct (str_in "remote" text); cbn [negb].
    + destruct (nonempty (lowered_keywords (Settings.preferred_locations f)) && _);
        [split; [discriminate | intros (_ & _ & _ & H); discriminate H]|].
      repeat split; reflexivity.
    + split; [discriminate | intros (_ & _ & H & _)]. now apply H.
  - destruct (nonempty (lowered_keywords (Settings.preferred_locations f)) && _);
      [split; [discriminate | intros (_ & _ & _ & H); discriminate H]|].
    split; [|reflexivity]. intros _. repeat split; try reflexivity. discriminate.
Qed.

Section Claims.
Context {W : Type}.
Variable config : Settings.AutomationConfig.
Variable Br : Browser W.

(** C1.  When [application.dry_run] is set or [auto_submit] is not, the
    apply flow of a job never presses a button looked up by the submit
    patterns, and if during the flow a visible button matching a submit
    pattern is seen, the job's result has status "dry_run_ready" and reason
    "submit_button_reached"; the flow then hands back no result only when
    closing the page raises, which nothing catches.  The events are those
    the flow adds to the log, from any browser state. *)
Theorem dry_run_stops_before_submit (job : JobPosting.t) (st : St W) :
  Settings.dry_run (Settings.application config)
  || negb (Settings.auto_submit (Settings.application config)) = true ->
  let out := _apply_to_job config Br job st in
  exists evs,
    out.2.2 = st.2 ++ evs
    /\ forallb (fun e => negb (is_submit_click e)) evs = true
    /\ (existsb is_submit_sighting evs = true ->
        match out.1 with
        | Ok result =>
            ApplicationResult.status result = "dry_run_ready"
            /\ ApplicationResult.reason result = "submit_button_reached"
        | Raise e => exists w, (page_close Br w).1 = Raise e
        end).
Proof.
  intros Hguard out. subst out.
  destruct (_apply_to_job config Br job st) as [r st'] eqn:H. cbn [fst snd].
  unfold _apply_to_job in H.
  apply paged_inv in H as [(e & -> & _ & E) | [(e & w & -> & _ & E)
                                              | (st0 & r0 & st1 & E0 & Hb & E & Hr)]].
  - exists []. rewrite app_nil_r. split; [exact E|]. split; [reflexivity|]. discriminate.
  - exists [EvNewPage]. split; [exact E|]. split; [reflexivity|]. discriminate.
  - apply try_except_inv in Hb as [[result [Hb ->]] | [exc [st2 [Hb Hh]]]];
      apply (apply_body_guarded config Br job Hguard) in Hb as [evs [Eb [F G]]].
    + exists ([EvNewPage;
               EvSetDefaultTimeout (Settings.timeout_ms (Settings.browser config))]
              ++ evs ++ [EvClosePage]).
      split; [rewrite E, Eb, E0, <- !app_assoc; reflexivity|]. split.
      * cbn [app forallb]. rewrite forallb_app, F. reflexivity.
      * cbn [app existsb is_submit_sighting orb]. rewrite existsb_app.
        cbn [existsb is_submit_sighting orb]. rewrite orb_false_r.
        intros Hs. apply G in Hs. injection Hs as ->. subst r.
        destruct (page_close Br st1.1).1 as [[] | e] eqn:Hc;
          [split; reflexivity | now exists st1.1].
    + unfold apply_failed in Hh. injection Hh as <- <-.
      assert (Hsave : exists saved,
                 (_save_failure_html config Br (JobPosting.job_id job) st2).2
                 = st2.2 ++ saved
                 /\ forallb quiet saved = true).
      { unfold _save_failure_html.
        destruct (Settings.save_html_on_failure (Settings.application config)).
        - exists [EvSaveFailureHtml (JobPosting.job_id job)]. now split.
        - exists []. now rewrite app_nil_r. }
      destruct Hsave as (saved & Es & Fs).
      exists ([EvNewPage;
               EvSetDefaultTimeout (Settings.timeout_ms (Settings.browser config))]
              ++ evs ++ saved ++ [EvClosePage]).
      split; [rewrite E, Es, Eb, E0, <- !app_assoc; reflexivity|]. split.
      * cbn [app forallb]. rewrite !forallb_app, F, (quiet_no_click saved Fs).
        reflexivity.
      * cbn [app existsb is_submit_sighting orb]. rewrite !existsb_app.
        rewrite (quiet_no_sighting saved Fs).
        cbn [existsb is_submit_sighting orb]. rewrite orb_false_r.
        intros Hs. apply G in Hs. discriminate Hs.
Qed.

(** C7 (as amended).  The filter passes a job exactly when all four
    dimensions pass: some non-blank include keyword occurs in the job text
    (or there is none), no non-blank exclude keyword occurs in it, the text
    mentions "remote" when [remote_only] is set, and some non-blank
    preferred location occurs in it (or there is none); keywords are
    compared lower-cased against the lower-cased text.  So a job that
    matches every include keyword and no exclude keyword, with
    [remote_only] off and no preferred location, passes; and a job whose
    text holds a non-blank exclude keyword fails, and the loop of [run]
    that reaches it appends a "skipped" result with reason
    "filter_mismatch" and goes on to the next job from the state enrichment
    left, without entering the apply flow.  An empty list, or one of blank
    keywords only, constrains nothing. *)
Theorem filters_are_anded (job : JobPosting.t) :
  let f := Settings.filters config in
  let text := job_text job in
  (_matches_filters config job = true
   <-> ((forall kw, In kw (Settings.include_keywords f) -> strip kw = "")
        \/ (exists kw, In kw (Settings.include_keywords f) /\ strip kw <> ""
                       /\ occurs_in (lower kw) text))
       /\ (forall kw, In kw (Settings.exclude_keywords f) -> strip kw <> "" ->
                      ~ occurs_in (lower kw) text)
       /\ (Settings.remote_only f = true -> occurs_in "remote" text)
       /\ ((forall kw, In kw (Settings.preferred_locations f) -> strip kw = "")
           \/ (exists kw, In kw (Settings.preferred_locations f) /\ strip kw <> ""
                          /\ occurs_in (lower kw) text)))
  /\ ((forall kw, In kw (Settings.include_keywords f) -> occurs_in (lower kw) text) ->
      (forall kw, In kw (Settings.exclude_keywords f) -> ~ occurs_in (lower kw) text) ->
      Settings.remote_only f = false ->
      Settings.preferred_locations f = [] ->
      _matches_filters config job = true)
  /\ (forall kw, In kw (Settings.exclude_keywords f) -> strip kw <> "" ->
                 occurs_in (lower kw) text ->
      _matches_filters config job = false
      /\ (forall seed rest results applied_or_ready st,
            (_enrich_job config Br seed st).1 = Ok job ->
            applied_or_ready < Settings.max_applications (Settings.application config) ->
            run_jobs config Br (seed :: rest) results applied_or_ready st
            = run_jobs config Br rest
                (results ++ [mk_result job "skipped" "filter_mismatch"])
                applied_or_ready (_enrich_job config Br seed st).2)).
Proof.
  intros f text. pose proof (matches_filters_iff config job) as Hiff.
  cbv zeta in Hiff. fold f in Hiff. fold text in Hiff.
  split; [exact Hiff|]. split.
  - intros Hinc Hexc Hrem Hloc. apply Hiff. split; [|split; [|split]].
    + destruct (Settings.include_keywords f) as [|k ks] eqn:Hk.
      * left. intros kw [].
      * destruct (strip k) eqn:Hs.
        -- assert (Hdec : forall l : list string,
                     (forall kw, In kw l -> strip kw = "")
                     \/ (exists kw, In kw l /\ strip kw <> "")).
           { induction l as [|x l IH].
             - left. intros kw [].
             - destruct (strip x) eqn:Hx.
               + destruct IH as [IH | [kw [Hin Hne]]].
                 * left. intros kw [<- | Hin]; [exact Hx | now apply IH].
                 * right. exists kw. split; [now right | exact Hne].
               + right. exists x. split; [now left | congruence]. }
           destruct (Hdec (k :: ks)) as [Hall | [kw [Hin Hne]]]; [now left|].
           right. exists kw. split; [exact Hin|]. split; [exact Hne | now apply Hinc].
        -- right. exists k. split; [now left|]. split; [congruence|].
           apply Hinc. now left.
    + intros kw Hin _. now apply Hexc.
    + rewrite Hrem. discriminate.
    + left. rewrite Hloc. intros kw [].
  - intros kw Hin Hne Hocc.
    assert (Hfalse : _matches_filters config job = false).
    { apply not_true_iff_false. intros Hm.
      apply Hiff in Hm as (_ & Hex & _). exact (Hex kw Hin Hne Hocc). }
    split; [exact Hfalse|].
    intros seed rest results applied_or_ready st Hjob Hmax.
    cbn [run_jobs].
    rewrite (proj2 (Z.leb_gt _ _) Hmax).
    destruct (_enrich_job config Br seed st) as [[job' | e] st1]; cbn [fst snd] in *;
      [|discriminate Hjob].
    injection Hjob as ->. now rewrite Hfalse.
Qed.

(** C8 (as amended).  The loop of [run] appends exactly one result for
    every job it reaches, in order, and nothing else, unless opening the
    page of the job, setting its timeout or closing it raises: the results
    it ends with are those it started from followed by one result per job
    of a prefix of the discovered jobs.  The result of a job is the
    "skipped" / "filter_mismatch" result when the enriched job fails the
    filter and what the apply flow returns otherwise; it carries the job's
    identifier, and its status is one of applied, ready_to_submit,
    dry_run_ready, skipped, failed.  The loop stops before the end of the
    list only when the application limit is reached or something raises:
    the pause after a result that counts, or the page of the next job, which
    then gets no result.  Whatever the loop raises [run] raises, so the
    list [run] returns holds one result for each job of the prefix. *)
Theorem run_appends_one_result_per_job (jobs : list JobPosting.t)
    (results0 : list ApplicationResult.t) (applied0 : Z) (st : St W) :
  (let out := (run_jobs config Br jobs results0 applied0 st).1 in
   exists (n : nat) (new : list ApplicationResult.t),
     (n <= length jobs)%nat
     /\ results out = results0 ++ new
     /\ Forall2 (fun seed r =>
                   (exists s, result_for config Br seed s = Ok r)
                   /\ ApplicationResult.job_id r = JobPosting.job_id seed
                   /\ In (ApplicationResult.status r) statuses)
          (firstn n jobs) new
     /\ ((n < length jobs)%nat ->
         Settings.max_applications (Settings.application config) <= applied_or_ready out
         \/ raised out <> None)
     /\ (forall e, raised out = Some e ->
         (exists s : St W,
             (sleep (Settings.pause_between_apps_sec (Settings.application config)) s).1
             = Raise e)
         \/ (exists seed s, nth_error jobs n = Some seed
                            /\ result_for config Br seed s = Raise e
                            /\ raised_at_page config Br e)))
  /\ (forall (Se : Session W) (st0 st1 : St W) (returned : list ApplicationResult.t),
        run config Br Se st0 = (Ok returned, st1) ->
        exists discovered s,
          returned = results (run_jobs config Br discovered [] 0 s).1
          /\ raised (run_jobs config Br discovered [] 0 s).1 = None).
Proof.
  split; cycle 1.
  { intros Se st0 st1 returned H. unfold run in H.
    destruct (call (launch Se) _ st0) as [[[] | e] sa]; [|discriminate H].
    destruct (bind_act _ _ sa) as [[found | e] sb].
    - destruct (run_jobs config Br found [] 0 sb) as [final sc] eqn:Hr.
      destruct (attempt (browser_close Se) EvCloseBrowser sc) as [[[] | e] sd];
        [|discriminate H].
      destruct (raised final) as [e|] eqn:Hraised; [discriminate H|].
      destruct (call (write_results Se (results final)) _ _) as [[[] | e] se];
        [|discriminate H].
      injection H as <- <-. exists found, sb. rewrite Hr. now split.
    - destruct (attempt (browser_close Se) EvCloseBrowser sb) as [[[] | e'] sd];
        discriminate H. }
  cbv zeta. revert results0 applied0 st.
  induction jobs as [|seed rest IH]; intros results0 applied0 st; cbn [run_jobs].
  - exists 0%nat, []. cbn [results raised firstn fst length]. rewrite app_nil_r.
    split; [lia|]. split; [reflexivity|]. split; [constructor|].
    split; [lia | discriminate].
  - destruct (Settings.max_applications (Settings.application config) <=? applied0)
      eqn:Hmax.
    { exists 0%nat, []. cbn [results applied_or_ready raised firstn fst length].
      rewrite app_nil_r.
      split; [lia|]. split; [reflexivity|]. split; [constructor|].
      split; [|discriminate]. intros _. left. now apply Z.leb_le. }
    destruct (_enrich_job config Br seed st) as [[job | e] st1] eqn:He; cycle 1.
    { exists 0%nat, []. cbn [results applied_or_ready raised firstn fst length].
      rewrite app_nil_r.
      split; [lia|]. split; [reflexivity|]. split; [constructor|].
      split; [intros _; right; discriminate|].
      intros e' [= <-]. right. exists seed, st. split; [reflexivity|]. split.
      - unfold result_for. now rewrite He.
      - apply (enrich_job_raises config Br seed st). now rewrite He. }
    assert (Hid : JobPosting.job_id job = JobPosting.job_id seed).
    { apply (enrich_job_id config Br seed st). now rewrite He. }
    destruct (negb (_matches_filters config job)) eqn:Hm.
    { destruct (IH (results0 ++ [mk_result job "skipped" "filter_mismatch"]) applied0 st1)
        as (n & new & Hn & Hres & Hall & Hstop & Hexc).
      exists (S n), (mk_result job "skipped" "filter_mismatch" :: new).
      split; [cbn; lia|]. split; [now rewrite Hres, <- app_assoc|]. split; [|split].
      - cbn [firstn]. constructor; [|exact Hall]. split; [|split].
        + exists st. unfold result_for. now rewrite He, Hm.
        + exact Hid.
        + cbn. auto.
      - intros Hlt. apply Hstop. cbn in Hlt. lia.
      - exact Hexc. }
    destruct (_apply_to_job config Br job st1) as [[result | e] st2] eqn:Ha; cycle 1.
    { exists 0%nat, []. cbn [results applied_or_ready raised firstn fst length].
      rewrite app_nil_r.
      split; [lia|]. split; [reflexivity|]. split; [constructor|].
      split; [intros _; right; discriminate|].
      intros e' [= <-]. right. exists seed, st. split; [reflexivity|]. split.
      - unfold result_for. now rewrite He, Hm, Ha.
      - apply (apply_to_job_raises config Br job st1). now rewrite Ha. }
    assert (Hshape : (exists s, result_for config Br seed s = Ok result)
                     /\ ApplicationResult.job_id result = JobPosting.job_id seed
                     /\ In (ApplicationResult.status result) statuses).
    { destruct (apply_to_job_shape config Br job st1 result) as (s & reason & Hr & Hin);
        [now rewrite Ha|].
      split; [|split].
      - exists st. unfold result_for. now rewrite He, Hm, Ha.
      - now rewrite Hr.
      - now rewrite Hr. }
    destruct (counts_as_application (ApplicationResult.status result)).
    + destruct (sleep _ st2) as [[[] | e] st3] eqn:Hs.
      * destruct (IH (results0 ++ [result]) (applied0 + 1) st3)
          as (n & new & Hn & Hres & Hall & Hstop & Hexc).
        exists (S n), (result :: new).
        split; [cbn; lia|]. split; [now rewrite Hres, <- app_assoc|]. split; [|split].
        -- cbn [firstn]. now constructor.
        -- intros Hlt. apply Hstop. cbn in Hlt. lia.
        -- exact Hexc.
      * exists 1%nat, [result]. cbn [results applied_or_ready raised fst].
        split; [cbn; lia|]. split; [reflexivity|]. split; [|split].
        -- cbn [firstn]. constructor; [exact Hshape | constructor].
        -- intros _. right. discriminate.
        -- intros e' [= <-]. left. exists st2. now rewrite Hs.
    + destruct (IH (results0 ++ [result]) applied0 st2)
        as (n & new & Hn & Hres & Hall & Hstop & Hexc).
      exists (S n), (result :: new).
      split; [cbn; lia|]. split; [now rewrite Hres, <- app_assoc|]. split; [|split].
      * cbn [firstn]. now constructor.
      * intros Hlt. apply Hstop. cbn in Hlt. lia.
      * exact Hexc.
Qed.

End Claims.

Lemma run_appends_one_result_per_job_witness :
  (exists (n : nat) (new : list ApplicationResult.t),
      (n <= 2)%nat
      /\ results (run_jobs Examples.config_keywords Examples.browser_two_steps
                    [Examples.seed_job "42" "Software Engineering Intern";
                     Examples.seed_job "43" "Senior Software Intern"] [] 0 (0%nat, [])).1
         = [] ++ new
      /\ Forall2 (fun seed r =>
                    (exists s, result_for Examples.config_keywords
                                 Examples.browser_two_steps seed s = Ok r)
                    /\ ApplicationResult.job_id r = JobPosting.job_id seed
                    /\ In (ApplicationResult.status r) statuses)
           (firstn n [Examples.seed_job "42" "Software Engineering Intern";
                      Examples.seed_job "43" "Senior Software Intern"]) new
      /\ ((n < 2)%nat ->
          Settings.max_applications (Settings.application Examples.config_keywords)
          <= applied_or_ready
               (run_jobs Examples.config_keywords Examples.browser_two_steps
                  [Examples.seed_job "42" "Software Engineering Intern";
                   Examples.seed_job "43" "Senior Software Intern"] [] 0 (0%nat, [])).1
          \/ raised (run_jobs Examples.config_keywords Examples.browser_two_steps
                       [Examples.seed_job "42" "Software Engineering Intern";
                        Examples.seed_job "43" "Senior Software Intern"] [] 0 (0%nat, [])).1
             <> None)
      /\ (forall e,
            raised (run_jobs Examples.config_keywords Examples.browser_two_steps
                      [Examples.seed_job "42" "Software Engineering Intern";
                       Examples.seed_job "43" "Senior Software Intern"] [] 0 (0%nat, [])).1
            = Some e ->
            (exists s : St nat,
                (sleep (Settings.pause_between_apps_sec
                          (Settings.application Examples.config_keywords)) s).1 = Raise e)
            \/ (exists seed s,
                   nth_error [Examples.seed_job "42" "Software Engineering Intern";
                              Examples.seed_job "43" "Senior Software Intern"] n = Some seed
                   /\ result_for Examples.config_keywords Examples.browser_two_steps seed s
                      = Raise e
                   /\ raised_at_page Examples.config_keywords Examples.browser_two_steps e)))
  /\ (exists returned st1,
        run Examples.config_keywords Examples.browser_two_steps
          (Examples.session_finding
             [Examples.seed_job "42" "Software Engineering Intern";
              Examples.seed_job "43" "Senior Software Intern"]) (0%nat, [])
        = (Ok returned, st1)
        /\ map (fun r => (ApplicationResult.job_id r, ApplicationResult.status r)) returned
           = [("42", "dry_run_ready"); ("43", "skipped")]
        /\ exists discovered s,
            returned = results (run_jobs Examples.config_keywords
                                  Examples.browser_two_steps discovered [] 0 s).1
            /\ raised (run_jobs Examples.config_keywords
                         Examples.browser_two_steps discovered [] 0 s).1 = None).
Proof.
  split.
  - exact (proj1 (run_appends_one_result_per_job Examples.config_keywords
                    Examples.browser_two_steps
                    [Examples.seed_job "42" "Software Engineering Intern";
                     Examples.seed_job "43" "Senior Software Intern"] [] 0 (0%nat, []))).
  - eexists _, _. split; [vm_compute; reflexivity|]. split; [reflexivity|].
    eapply (proj2 (run_appends_one_result_per_job Examples.config_keywords
                     Examples.browser_two_steps [] [] 0 (0%nat, []))
              (Examples.session_finding
                 [Examples.seed_job "42" "Software Engineering Intern";
                  Examples.seed_job "43" "Senior Software Intern"]) (0%nat, [])).
    vm_compute. reflexivity.
Defined.

Lemma dry_run_stops_before_submit_witness :
  exists result,
    (_apply_to_job Examples.config_keywords Examples.browser_two_steps
       (Examples.seed_job "42" "Software Engineering Intern") (0%nat, [])).1 = Ok result
    /\ ApplicationResult.status result = "dry_run_ready"
    /\ ApplicationResult.reason result = "submit_button_reached".
Proof.
  destruct (dry_run_stops_before_submit Examples.config_keywords
              Examples.browser_two_steps
              (Examples.seed_job "42" "Software Engineering Intern") (0%nat, []) eq_refl)
    as (evs & E & _ & G).
  assert (Hout : (_apply_to_job Examples.config_keywords Examples.browser_two_steps
                    (Examples.seed_job "42" "Software Engineering Intern") (0%nat, [])).1
                 = Ok (mk_result (Examples.seed_job "42" "Software Engineering Intern")
                         "dry_run_ready" "submit_button_reached"))
    by (vm_compute; reflexivity).
  rewrite Hout in G.
  eexists. split; [exact Hout|].
  apply G. vm_compute in E. rewrite <- E. vm_compute. reflexivity.
Defined.

Lemma filters_are_anded_witness :
  _matches_filters Examples.config_keywords
    (Examples.seed_job "42" "Software Engineering Intern") = true
  /\ _matches_filters Examples.config_keywords
       (Examples.seed_job "43" "Senior Software Intern") = false
  /\ run_jobs Examples.config_keywords Examples.browser_two_steps
       [Examples.seed_job "43" "Senior Software Intern"] [] 0 (0%nat, [])
     = run_jobs Examples.config_keywords Examples.browser_two_steps []
         ([] ++ [mk_result (Examples.seed_job "43" "Senior Software Intern")
                   "skipped" "filter_mismatch"])
         0
         (_enrich_job Examples.config_keywords Examples.browser_two_steps
            (Examples.seed_job "43" "Senior Software Intern") (0%nat, [])).2.
Proof.
  split.
  - apply (proj1 (proj2 (filters_are_anded Examples.config_keywords
                           Examples.browser_two_steps
                           (Examples.seed_job "42" "Software Engineering Intern")))).
    + intros kw [<- | [<- | []]]; apply str_in_spec; vm_compute; reflexivity.
    + intros kw [<- | []]. apply str_in_false. vm_compute. reflexivity.
    + reflexivity.
    + reflexivity.
  - destruct (proj2 (proj2 (filters_are_anded Examples.config_keywords
                              Examples.browser_two_steps
                              (Examples.seed_job "43" "Senior Software Intern")))
                "senior") as [Hfalse Hrun].
    + now left.
    + vm_compute. discriminate.
    + apply str_in_spec. vm_compute. reflexivity.
    + split; [exact Hfalse|]. apply Hrun; [vm_compute; reflexivity | reflexivity].
Defined.

(** C7 as stated fails twice.  A blank exclude keyword occurs in the job
    text and yet the job passes the filter and is applied to; and with no
    filter configured the include list is not empty but
    software / engineer / intern, which does constrain: a job without
    these words is skipped. *)
Lemma filters_counterexample :
  (In " " (Settings.exclude_keywords (Settings.filters Examples.config_blank_exclude))
   /\ occurs_in (lower " ") (job_text (Examples.seed_job "42" "SWE Intern"))
   /\ _matches_filters Examples.config_blank_exclude (Examples.seed_job "42" "SWE Intern")
      = true
   /\ map ApplicationResult.status
        (results (run_jobs Examples.config_blank_exclude Examples.browser_two_steps
                    [Examples.seed_job "42" "SWE Intern"] [] 0 (0%nat, [])).1)
      = ["dry_run_ready"])
  /\ (Settings.filters Examples.config_no_filters = Settings.default_FilterConfig
      /\ Settings.filters (Settings.defaults_with "test@example.com" "secret")
         = Settings.default_FilterConfig
      /\ Settings.exclude_keywords Settings.default_FilterConfig = []
      /\ Settings.preferred_locations Settings.default_FilterConfig = []
      /\ Settings.remote_only Settings.default_FilterConfig = false
      /\ _matches_filters Examples.config_no_filters (Examples.seed_job "7" "Data Analyst")
         = false
      /\ map (fun r => (ApplicationResult.status r, ApplicationResult.reason r))
           (results (run_jobs Examples.config_no_filters Examples.browser_two_steps
                       [Examples.seed_job "7" "Data Analyst"] [] 0 (0%nat, [])).1)
         = [("skipped", "filter_mismatch")]).
Proof.
  split.
  - split; [now left|]. split; [apply str_in_spec; vm_compute; reflexivity|].
    split; vm_compute; reflexivity.
  - repeat split; vm_compute; reflexivity.
Qed.

(** C8 as stated fails.  A job that the loop enriched and that passed the
    filter gets no result when the page of its apply flow cannot be opened:
    the loop stops with the exception, and [run], after closing the
    browser, raises it and returns no result. *)
Lemma page_failure_drops_job_counterexample :
  let seed := Examples.seed_job "42" "Software Engineering Intern" in
  let lost := HostError "Target page, context or browser has been closed" in
  (exists st1,
      _enrich_job Examples.config_keywords (Examples.browser_pages 2) seed (1%nat, [])
      = (Ok seed, st1))
  /\ _matches_filters Examples.config_keywords seed = true
  /\ (run_jobs Examples.config_keywords (Examples.browser_pages 2) [seed] [] 0
        (1%nat, [])).1
     = {| results := []; applied_or_ready := 0; raised := Some lost |}
  /\ (run Examples.config_keywords (Examples.browser_pages 2)
        (Examples.session_finding [seed]) (0%nat, [])).1 = Raise lost.
Proof.
  cbv zeta. split; [|split; [|split]].
  - eexists. vm_compute. reflexivity.
  - vm_compute. reflexivity.
  - vm_compute. reflexivity.
  - vm_compute. reflexivity.
Qed.

End BotClaims.

(** * Further properties of the sources *)

(** ** Choice matching and the answer policy *)

Module AnswerPolicy.
Import Py PyStr PyStrFacts QuestionAnswerer QuestionAnswererFacts.

Lemma foldl_lowered_other (cs : list string) (m : gmap string string) (k : string) :
  (forall x, In x cs -> lower x <> k) ->
  foldl (fun m c => <[lower c := c]> m) m cs !! k = m !! k.
Proof.
  revert m. induction cs as [|x cs IH]; intros m H; cbn [foldl]; [reflexivity|].
  rewrite IH by (intros y Hy; apply H; now right).
  apply lookup_insert_ne. apply H. now left.
Qed.

Lemma lowered_last (pre post : list string) (c : string) :
  (forall x, In x post -> lower x <> lower c) ->
  lowered (pre ++ c :: post) !! lower c = Some c.
Proof.
  intros H. unfold lowered. rewrite foldl_app. cbn [foldl].
  rewrite foldl_lowered_other by exact H. apply lookup_insert_eq.
Qed.

(** [_match_choice] puts the case-insensitive equality before containment,
    and among several choices equal to the answer up to case it returns the
    last one of the list (the dictionary keeps the last writer). *)
Theorem match_choice_exact_last_wins (answer c : string) (pre post : list string) :
  answer <> "" ->
  lower c = lower answer ->
  (forall x, In x post -> lower x <> lower answer) ->
  _match_choice answer (pre ++ c :: post) = c.
Proof.
  intros Hne Hc Hpost. unfold _match_choice.
  apply truthy_true in Hne. rewrite Hne. cbn [negb].
  rewrite <- Hc, lowered_last; [reflexivity|].
  intros x Hx. rewrite Hc. now apply Hpost.
Qed.

Lemma match_choice_exact_last_wins_witness :
  _match_choice "yes" (["Maybe"; "Yes, absolutely"] ++ "YES" :: ["No"]) = "YES"
  /\ _match_choice "yes" ([] ++ "Yes" :: ["Yes, absolutely"]) = "Yes".
Proof.
  split.
  - apply match_choice_exact_last_wins.
    + discriminate.
    + vm_compute. reflexivity.
    + intros x [<- | []]. vm_compute. discriminate.
  - apply match_choice_exact_last_wins.
    + discriminate.
    + vm_compute. reflexivity.
    + intros x [<- | []]. vm_compute. discriminate.
Defined.

(** For a non-empty answer and choices that are all non-empty,
    [_match_choice] gives the empty string exactly when no choice equals the
    answer up to case, contains it or is contained in it; in every other
    case it gives one of the listed choices. *)
Theorem match_choice_empty_iff_no_match (answer : string) (choices : list string) :
  answer <> "" ->
  (forall c, In c choices -> c <> "") ->
  (_match_choice answer choices = ""
   <-> (forall c, In c choices ->
          lower c <> lower answer
          /\ ~ occurs_in (lower c) (lower answer)
          /\ ~ occurs_in (lower answer) (lower c)))
  /\ (_match_choice answer choices <> "" -> In (_match_choice answer choices) choices).
Proof.
  intros Hne Hall. split.
  - unfold _match_choice. rewrite (proj2 (truthy_true answer) Hne). cbn [negb]. split.
    + intros H c Hin.
      destruct (lowered choices !! lower answer) as [x|] eqn:Hl.
      { apply lowered_Some in Hl as [Hx _]. subst x. now apply Hall in Hx. }
      destruct (List.find _ choices) as [x|] eqn:Hf.
      { apply find_In in Hf as [Hx _]. subst x. now apply Hall in Hx. }
      pose proof (List.find_none _ _ Hf c Hin) as Hc. cbv beta in Hc.
      apply orb_false_iff in Hc as [H1 H2].
      apply str_in_false in H1, H2. split; [|split; assumption].
      intros Heq. apply H1. rewrite Heq. exists "", "". now rewrite append_empty_r.
    + intros H.
      destruct (lowered choices !! lower answer) as [x|] eqn:Hl.
      { apply lowered_Some in Hl as [Hx Hlow]. now apply H in Hx as [Hx _]. }
      destruct (List.find _ choices) as [x|] eqn:Hf; [|reflexivity].
      apply find_In in Hf as [Hx Hm]. apply H in Hx as (_ & H1 & H2).
      apply str_in_false in H1, H2. rewrite H1, H2 in Hm. discriminate Hm.
  - intros H. destruct (match_choice_listed answer choices) as [He | Hin];
      [contradiction | exact Hin].
Qed.

Lemma match_choice_empty_iff_no_match_witness :
  _match_choice "Perhaps" ["Yes"; "No"] = ""
  /\ In (_match_choice "I have no preference" ["Yes"; "No"]) ["Yes"; "No"].
Proof.
  split.
  - apply (proj1 (match_choice_empty_iff_no_match "Perhaps" ["Yes"; "No"]
                    ltac:(discriminate)
                    ltac:(intros c [<- | [<- | []]]; discriminate))).
    intros c [<- | [<- | []]];
      (split; [vm_compute; discriminate|]);
      split; apply str_in_false; vm_compute; reflexivity.
  - apply (proj2 (match_choice_empty_iff_no_match "I have no preference" ["Yes"; "No"]
                    ltac:(discriminate)
                    ltac:(intros c [<- | [<- | []]]; discriminate))).
    vm_compute. discriminate.
Defined.

Lemma llm_sends_at_most_one (B : Builtins) (c : Llm.LLMClient) (prompt : string)
    (job : JobPosting.t) (d : string) (choices : list string) :
  (length (Llm.answer_application_question B c prompt job d choices).2 <= 1)%nat.
Proof.
  unfold Llm.answer_application_question, Llm._chat, Llm.enabled.
  destruct (Llm._client c) as [create|]; cbn [negb]; [|cbn; lia].
  destruct (negb (truthy _)); [cbn; lia|].
  destruct choices as [|first rest]; [cbn; lia|].
  destruct (lowered _ !! _); [cbn; lia|].
  destruct (List.find _ _); cbn; lia.
Qed.

(** One call of [answer] sends at most one request to the hosted model,
    none when the client is disabled, and none when the default answer
    already matches a choice. *)
Theorem answer_sends_at_most_one_request (B : Builtins) (self : t)
    (prompt input_type : string) (job : JobPosting.t) (choices : list string) :
  (length (answer B self prompt input_type job choices).2 <= 1)%nat
  /\ (Llm.enabled (llm self) = false ->
      (answer B self prompt input_type job choices).2 = [])
  /\ (normalize_choices choices <> [] ->
      _match_choice (default_answer_for self (lower (strip prompt)))
        (normalize_choices choices) <> "" ->
      (answer B self prompt input_type job choices).2 = []).
Proof.
  unfold answer.
  set (d := default_answer_for self (lower (strip prompt))).
  set (cs := normalize_choices choices).
  pose proof (llm_sends_at_most_one B (llm self) prompt job d cs) as Hone.
  split; [|split].
  - destruct (truthy (match cs with [] => "" | _ => _match_choice d cs end));
      [cbn; lia|].
    destruct (Llm.enabled (llm self)).
    + destruct (Llm.answer_application_question B (llm self) prompt job d cs)
        as [a sent]. cbn [snd] in Hone.
      destruct (truthy a); [destruct cs; exact Hone|].
      destruct (truthy d); destruct cs; exact Hone.
    + cbn [truthy]. destruct (truthy d); destruct cs; cbn; lia.
  - intros ->.
    destruct (truthy (match cs with [] => "" | _ => _match_choice d cs end));
      [reflexivity|].
    cbn [truthy]. destruct (truthy d); destruct cs; reflexivity.
  - intros Hcs Hm. destruct cs as [|first rest]; [congruence|].
    apply truthy_true in Hm. now rewrite Hm.
Qed.

Lemma answer_sends_at_most_one_request_witness :
  (answer Examples.builtins0 Examples.qa_empty
     "Why do you want this role?" "text" Examples.job0 []).2 = []
  /\ (answer Examples.builtins0
        (Examples.qa_with (Examples.llm_says "No") {[ "work_authorization_us" := "Yes" ]}
           [Examples.rule_work])
        "Are you authorized to work here?" "radio" Examples.job0 ["Yes"; "No"]).2 = [].
Proof.
  split.
  - apply (proj1 (proj2 (answer_sends_at_most_one_request Examples.builtins0
                           Examples.qa_empty "Why do you want this role?" "text"
                           Examples.job0 []))).
    reflexivity.
  - apply (proj2 (proj2 (answer_sends_at_most_one_request Examples.builtins0
                           (Examples.qa_with (Examples.llm_says "No")
                              {[ "work_authorization_us" := "Yes" ]} [Examples.rule_work])
                           "Are you authorized to work here?" "radio"
                           Examples.job0 ["Yes"; "No"])));
      vm_compute; discriminate.
Defined.

Lemma take_at_most (n : nat) (s : string) : (String.length (take n s) <= n)%nat.
Proof.
  revert n. induction s as [|c s IH]; intros [|n]; cbn [take String.length]; try lia.
  specialize (IH n). lia.
Qed.

Lemma slice_to_at_most (s : string) (n : Z) :
  0 <= n -> Z.of_nat (String.length (slice_to s n)) <= n.
Proof.
  intros Hn. unfold slice_to. rewrite (proj2 (Z.leb_le 0 n) Hn).
  pose proof (take_at_most (Z.to_nat n) s). lia.
Qed.

(** Without choices and with a cap [qa.max_answer_chars] that is not
    negative, an answer that comes from the hosted model or from a resolved
    default is never longer than the cap, whether or not there is a
    default; the only answers that are not cut are the profile fields
    given when there is neither a reply nor a default. *)
Theorem answer_respects_length_cap (B : Builtins) (self : t)
    (prompt input_type : string) (job : JobPosting.t) (choices : list string) :
  normalize_choices choices = [] ->
  0 <= Settings.max_answer_chars (qa_config self) ->
  let default_answer := default_answer_for self (lower (strip prompt)) in
  let reply :=
    if Llm.enabled (llm self)
    then (Llm.answer_application_question B (llm self) prompt job default_answer []).1
    else "" in
  (default_answer <> "" \/ reply <> "" ->
   Z.of_nat (String.length (answer B self prompt input_type job choices).1)
   <= Settings.max_answer_chars (qa_config self))
  /\ (default_answer = "" -> reply = "" ->
      (answer B self prompt input_type job choices).1
      = fallback_answer self input_type (lower (strip prompt))).
Proof.
  intros Hcs Hmax default_answer reply. subst default_answer reply.
  unfold answer. rewrite Hcs. cbn [truthy].
  destruct (Llm.enabled (llm self)).
  - destruct (Llm.answer_application_question B (llm self) prompt job
                (default_answer_for self (lower (strip prompt))) []) as [a sent].
    cbn [fst]. destruct (truthy a) eqn:Ha.
    + split; [intros _; now apply slice_to_at_most|].
      intros _ ->. discriminate Ha.
    + apply truthy_false in Ha. subst a.
      destruct (truthy (default_answer_for self (lower (strip prompt)))) eqn:Hd.
      * split; [intros _; now apply slice_to_at_most|].
        intros Hnone. rewrite Hnone in Hd. discriminate Hd.
      * apply truthy_false in Hd. split; [|reflexivity].
        intros [H | H]; contradiction.
  - cbn [truthy fst].
    destruct (truthy (default_answer_for self (lower (strip prompt)))) eqn:Hd.
    + split; [intros _; now apply slice_to_at_most|].
      intros Hnone. rewrite Hnone in Hd. discriminate Hd.
    + apply truthy_false in Hd. split; [|reflexivity].
      intros [H | H]; contradiction.
Qed.

Lemma answer_respects_length_cap_witness :
  Z.of_nat (String.length
              (answer Examples.builtins0 Examples.qa_short
                 "Are you willing to relocate for this internship?" "text"
                 Examples.job0 []).1)
  <= 2
  /\ Z.of_nat (String.length
                 (answer Examples.builtins0
                    (MoreExamples.qa_short_with
                       (Examples.llm_says "Because I like compilers."))
                    "Why do you want this role?" "text" Examples.job0 []).1)
     <= 2.
Proof.
  split.
  - apply (proj1 (answer_respects_length_cap Examples.builtins0 Examples.qa_short
                    "Are you willing to relocate for this internship?" "text"
                    Examples.job0 [] eq_refl ltac:(apply Z.leb_le; reflexivity))).
    left. vm_compute. discriminate.
  - apply (proj1 (answer_respects_length_cap Examples.builtins0
                    (MoreExamples.qa_short_with
                       (Examples.llm_says "Because I like compilers."))
                    "Why do you want this role?" "text"
                    Examples.job0 [] eq_refl ltac:(apply Z.leb_le; reflexivity))).
    right. vm_compute. discriminate.
Defined.

(** When choices are given, the client's answer to a question is one of
    them or the default answer it was handed, whatever the model replied. *)
Theorem client_answer_is_choice_or_default (B : Builtins) (c : Llm.LLMClient)
    (prompt : string) (job : JobPosting.t) (d : string) (choices : list string) :
  choices <> [] ->
  (Llm.answer_application_question B c prompt job d choices).1 = d
  \/ In (Llm.answer_application_question B c prompt job d choices).1 choices.
Proof.
  intros Hne. unfold Llm.answer_application_question.
  destruct (negb (Llm.enabled c)); [now left|].
  destruct (Llm._chat _ _ _) as [raw sent].
  destruct (negb (truthy (strip raw))); [now left|].
  destruct choices as [|first rest]; [congruence|].
  destruct (lowered (first :: rest) !! _) as [ch|] eqn:Hl.
  - right. now apply lowered_Some in Hl.
  - destruct (List.find _ _) as [ch|] eqn:Hf.
    + right. now apply find_In in Hf.
    + cbn [fst]. destruct (list_in d (first :: rest)); [now left | right; now left].
Qed.

Lemma client_answer_is_choice_or_default_witness :
  (Llm.answer_application_question Examples.builtins0
     (Examples.llm_says "It depends on the team.") "Remote or on site?"
     Examples.job0 "Hybrid" ["Remote"; "On site"]).1 = "Hybrid"
  \/ In (Llm.answer_application_question Examples.builtins0
           (Examples.llm_says "It depends on the team.") "Remote or on site?"
           Examples.job0 "Hybrid" ["Remote"; "On site"]).1 ["Remote"; "On site"].
Proof.
  apply client_answer_is_choice_or_default. discriminate.
Defined.

End AnswerPolicy.

(** ** More on strings *)

Module PyStrMore.
Import PyStr PyStrFacts.

Lemma char_lower_idem (c : ascii) : char_lower (char_lower c) = char_lower c.
Proof. destruct c as [[] [] [] [] [] [] [] []]; vm_compute; reflexivity. Qed.

Lemma lower_idem (s : string) : lower (lower s) = lower s.
Proof.
  induction s as [|c s IH]; [reflexivity|].
  cbn [lower]. now rewrite char_lower_idem, IH.
Qed.

Lemma lower_append (a b : string) : lower (a +:+ b) = lower a +:+ lower b.
Proof.
  induction a as [|c a IH]; [reflexivity|].
  rewrite append_cons. cbn [lower]. now rewrite IH, append_cons.
Qed.

Section Strip.
Variable p : ascii -> bool.

Lemma rstrip_cons (c : ascii) (r : string) :
  rstrip_with p (String c r)
  = match rstrip_with p r with
    | EmptyString => if p c then EmptyString else String c EmptyString
    | r' => String c r'
    end.
Proof. reflexivity. Qed.

Lemma rstrip_idem (s : string) : rstrip_with p (rstrip_with p s) = rstrip_with p s.
Proof.
  induction s as [|c s IH]; [reflexivity|].
  rewrite rstrip_cons. destruct (rstrip_with p s) as [|x t] eqn:Hr.
  - destruct (p c) eqn:Hc; [reflexivity|]. rewrite rstrip_cons. cbn [rstrip_with].
    now rewrite Hc.
  - rewrite rstrip_cons, IH. reflexivity.
Qed.

Lemma lstrip_head_kept (s : string) :
  match lstrip_with p s with
  | EmptyString => True
  | String c _ => p c = false
  end.
Proof.
  induction s as [|c s IH]; cbn [lstrip_with]; [exact I|].
  destruct (p c) eqn:Hc; [exact IH | exact Hc].
Qed.

Lemma rstrip_keeps_head (c : ascii) (r : string) :
  p c = false -> exists r', rstrip_with p (String c r) = String c r'.
Proof.
  intros Hc. cbn [rstrip_with]. destruct (rstrip_with p r) as [|x t].
  - rewrite Hc. now exists "".
  - now exists (String x t).
Qed.

Lemma strip_with_idem (s : string) : strip_with p (strip_with p s) = strip_with p s.
Proof.
  unfold strip_with. pose proof (lstrip_head_kept s) as Hh.
  destruct (lstrip_with p s) as [|c r].
  - reflexivity.
  - destruct (rstrip_keeps_head c r Hh) as [r' Hr]. rewrite Hr.
    cbn [lstrip_with]. rewrite Hh, <- Hr. apply rstrip_idem.
Qed.

Lemma strip_with_head (s : string) :
  match strip_with p s with
  | EmptyString => True
  | String c _ => p c = false
  end.
Proof.
  unfold strip_with. pose proof (lstrip_head_kept s) as Hh.
  destruct (lstrip_with p s) as [|c r]; [exact I|].
  destruct (rstrip_keeps_head c r Hh) as [r' Hr]. now rewrite Hr.
Qed.

End Strip.

Lemma strip_idem (s : string) : strip (strip s) = strip s.
Proof. apply strip_with_idem. Qed.

Lemma occurs_in_refl (s : string) : occurs_in s s.
Proof. exists "", "". now rewrite append_empty_r. Qed.

Lemma occurs_in_left (a b s : string) : occurs_in (a +:+ b) s -> occurs_in a s.
Proof.
  intros [x [y H]]. exists x, (b +:+ y). now rewrite H, append_assoc.
Qed.

Lemma occurs_in_right (a b s : string) : occurs_in (a +:+ b) s -> occurs_in b s.
Proof.
  intros [x [y H]]. exists (x +:+ a), y. now rewrite H, !append_assoc.
Qed.

End PyStrMore.

(** ** The slug, at any limit *)

Module SlugFacts.
Import PyStr PyStrFacts PyStrMore ResumeBuilder ResumeBuilderClaims.

Lemma slice_to_take (s : string) (n : Z) : exists k, slice_to s n = take k s.
Proof. unfold slice_to. destruct (0 <=? n); eauto. Qed.

Lemma cleaned_head (value : string) :
  head_hyphen (lower (strip_chars "-" (sub_runs false value))) = false.
Proof.
  rewrite lower_head. unfold strip_chars.
  pose proof (strip_with_head
                (fun c => existsb (Ascii.eqb c) (list_ascii_of_string "-"))
                (sub_runs false value)) as Hh.
  destruct (strip_with _ _) as [|c r]; [reflexivity|].
  cbn [head_hyphen]. unfold is_hyphen. cbn [existsb list_ascii_of_string] in Hh.
  now rewrite orb_false_r in Hh.
Qed.

(** At every limit the slug is non-empty, holds only lower-case letters,
    digits and hyphens, has no two hyphens in a row and does not start with
    a hyphen; for a non-negative limit it is at most [max limit 3]
    characters long (the fallback "job" has three). *)
Theorem safe_slug_at_any_limit (value : string) (limit : Z) :
  let slug := _safe_slug value limit in
  slug <> ""
  /\ forall_chars is_slug_char slug = true
  /\ ~ occurs_in "--" slug
  /\ head_hyphen slug = false
  /\ (0 <= limit -> Z.of_nat (String.length slug) <= Z.max limit 3).
Proof.
  intros slug. subst slug. unfold _safe_slug.
  set (cleaned := lower (strip_chars "-" (sub_runs false value))).
  assert (Hchars : forall_chars is_slug_char cleaned = true).
  { apply lower_chars, rstrip_chars, lstrip_chars, sub_runs_chars. }
  assert (Hsingle : single_hyphens cleaned = true).
  { unfold cleaned. rewrite lower_single.
    apply rstrip_single, lstrip_single, sub_runs_single. }
  pose proof (cleaned_head value) as Hhead. fold cleaned in Hhead.
  assert (Hlen : 0 <= limit -> Z.of_nat (String.length (slice_to cleaned limit)) <= limit).
  { intros Hl. unfold slice_to. rewrite (proj2 (Z.leb_le 0 limit) Hl).
    pose proof (take_length (Z.to_nat limit) cleaned). lia. }
  destruct (slice_to_take cleaned limit) as [k Hk]. rewrite Hk in *.
  unfold or_else. destruct (truthy (take k cleaned)) eqn:Ht.
  - split; [now apply truthy_true|]. split; [now apply take_chars|].
    split; [apply single_no_double; now apply take_single|].
    split.
    + destruct (head_hyphen (take k cleaned)) eqn:Hh; [|reflexivity].
      apply take_head in Hh. congruence.
    + intros Hl. specialize (Hlen Hl). lia.
  - split; [discriminate|]. split; [reflexivity|].
    split; [apply str_in_false; reflexivity|]. split; [reflexivity|].
    intros _. cbn. lia.
Qed.

Lemma safe_slug_at_any_limit_witness :
  Z.of_nat (String.length (_safe_slug "Acme, Inc.-SWE Intern!!-42" 8)) <= Z.max 8 3.
Proof.
  destruct (safe_slug_at_any_limit "Acme, Inc.-SWE Intern!!-42" 8) as (_ & _ & _ & _ & H).
  apply H. lia.
Defined.

End SlugFacts.

(** ** Markdown to plain text *)

Module PlainTextFacts.
Import PyStr PyStrFacts PyStrMore PlainText.

Lemma remove_chars_none (p : ascii -> bool) (s : string) :
  forall_chars (fun c => negb (p c)) (remove_chars p s) = true.
Proof.
  induction s as [|c s IH]; [reflexivity|].
  cbn [remove_chars]. destruct (p c) eqn:Hc; [exact IH|].
  cbn [forall_chars]. now rewrite Hc, IH.
Qed.

Lemma remove_chars_id (p : ascii -> bool) (s : string) :
  forall_chars (fun c => negb (p c)) s = true -> remove_chars p s = s.
Proof.
  induction s as [|c s IH]; [reflexivity|].
  cbn [forall_chars remove_chars]. intros H. apply andb_true_iff in H as [Hc Hs].
  apply negb_true_iff in Hc. now rewrite Hc, IH.
Qed.

Lemma strip_headings_id (b : bool) (s : string) :
  forall_chars (fun c => negb (is_hash c)) s = true ->
  strip_headings (AtText b) s = s.
Proof.
  revert b. induction s as [|c s IH]; intros b; [reflexivity|].
  cbn [forall_chars strip_headings]. intros H. apply andb_true_iff in H as [Hc Hs].
  apply negb_true_iff in Hc. rewrite Hc, andb_false_r. now rewrite IH.
Qed.

Lemma forall_chars_and (p q : ascii -> bool) (s : string) :
  forall_chars (fun c => p c && q c) s = true ->
  forall_chars p s = true /\ forall_chars q s = true.
Proof.
  induction s as [|c s IH]; [now split|].
  cbn [forall_chars]. intros H. apply andb_true_iff in H as [Hc Hs].
  apply andb_true_iff in Hc as [Hp Hq]. destruct (IH Hs) as [H1 H2].
  now rewrite Hp, Hq, H1, H2.
Qed.

Lemma strip_chars_kept (q : ascii -> bool) (s : string) :
  forall_chars q s = true -> forall_chars q (strip s) = true.
Proof.
  intros H. unfold strip, strip_with.
  now apply ResumeBuilderClaims.rstrip_chars, ResumeBuilderClaims.lstrip_chars.
Qed.

(** The plain text of a markdown document holds none of the characters
    asterisk, underscore, backquote, greater-than and hyphen (they are
    removed wherever they stand, inside words, addresses and numbers too),
    and has no white space at either end.  A document with no hash and none
    of these characters is only trimmed. *)
Theorem plain_text_has_no_markup (markdown : string) :
  forall_chars (fun c => negb (is_markup c)) (_markdown_to_plain_text markdown) = true
  /\ strip (_markdown_to_plain_text markdown) = _markdown_to_plain_text markdown
  /\ (forall_chars (fun c => negb (is_hash c) && negb (is_markup c)) markdown = true ->
      _markdown_to_plain_text markdown = strip markdown).
Proof.
  unfold _markdown_to_plain_text. cbv zeta. split; [|split].
  - apply strip_chars_kept, remove_chars_none.
  - apply strip_idem.
  - intros H. apply forall_chars_and in H as [Hh Hm].
    now rewrite (strip_headings_id true markdown Hh), (remove_chars_id _ _ Hm).
Qed.

Lemma plain_text_has_no_markup_witness :
  _markdown_to_plain_text "  Jane Doe, jane.doe@example.com  " = strip "  Jane Doe, jane.doe@example.com  ".
Proof.
  apply (proj2 (proj2 (plain_text_has_no_markup "  Jane Doe, jane.doe@example.com  "))).
  vm_compute. reflexivity.
Defined.

End PlainTextFacts.

(** ** The resume sections *)

Module ResumeSectionsFacts.
Import Py PyStr PyStrFacts LlmResume.

Lemma bind_Ok_inv {A B : Type} (m : result A) (k : A -> result B) (b : B) :
  bind m k = Ok b -> exists a, m = Ok a /\ k a = Ok b.
Proof. destruct m as [a | e]; cbn [bind]; [eauto | discriminate]. Qed.

Lemma In_firstn {A : Type} (n : nat) (l : list A) (x : A) :
  In x (firstn n l) -> In x l.
Proof.
  intros H. rewrite <- (firstn_skipn n l). apply in_or_app. now left.
Qed.

(** A list of sanitized entries is usable: not empty, at most [n] long,
    without an empty entry. *)
Lemma list_or_usable (n : nat) (xs dflt : list string) :
  dflt <> [] -> (length dflt <= n)%nat -> Forall (fun x => x <> "") dflt ->
  let l := list_or (firstn n (List.filter truthy xs)) dflt in
  l <> [] /\ (length l <= n)%nat /\ Forall (fun x => x <> "") l.
Proof.
  intros Hne Hlen Hall l. subst l. unfold list_or.
  destruct (firstn n (List.filter truthy xs)) as [|y ys] eqn:Hf.
  - now split.
  - split; [discriminate|]. split.
    + rewrite <- Hf. apply firstn_le_length.
    + rewrite <- Hf. apply List.Forall_forall. intros x Hx.
      apply In_firstn in Hx. apply List.filter_In in Hx as [_ Hx].
      now apply truthy_true.
Qed.

Lemma parse_sections_usable (B : Builtins) (json_loads : string -> result pyval)
    (raw : string) (s : Sections) :
  parse_sections B json_loads raw = Ok s ->
  summary s <> ""
  /\ (top_skills s <> [] /\ (length (top_skills s) <= 8)%nat
      /\ Forall (fun x => x <> "") (top_skills s))
  /\ (experience_highlights s <> [] /\ (length (experience_highlights s) <= 6)%nat
      /\ Forall (fun x => x <> "") (experience_highlights s)).
Proof.
  unfold parse_sections. intros H.
  apply bind_Ok_inv in H as [parsed [_ H]].
  apply bind_Ok_inv in H as [s0 [_ H]].
  apply bind_Ok_inv in H as [t0 [_ H]].
  apply bind_Ok_inv in H as [t1 [_ H]].
  apply bind_Ok_inv in H as [h0 [_ H]].
  apply bind_Ok_inv in H as [h1 [_ H]].
  injection H as <-. cbn [summary top_skills experience_highlights].
  split; [|split].
  - unfold or_else. destruct (truthy (strip (py_str B s0))) eqn:Ht.
    + now apply truthy_true.
    + discriminate.
  - apply list_or_usable; [discriminate | cbn; lia |].
    repeat constructor; discriminate.
  - apply list_or_usable; [discriminate | cbn; lia |].
    repeat constructor; discriminate.
Qed.

(** Whatever the hosted model replies, and whether or not the reply
    parses, [generate_resume_sections] hands back a usable bundle: a
    non-empty summary, between one and eight skills and between one and six
    highlights, none of them empty.  A disabled client gives the built-in
    bundle without sending anything. *)
Theorem resume_sections_always_usable (B : Builtins)
    (json_loads : string -> result pyval) (c : Llm.LLMClient) (job : JobPosting.t)
    (base_resume_text : string) :
  let out := generate_resume_sections B json_loads c job base_resume_text in
  summary out.1 <> ""
  /\ (top_skills out.1 <> [] /\ (length (top_skills out.1) <= 8)%nat
      /\ Forall (fun x => x <> "") (top_skills out.1))
  /\ (experience_highlights out.1 <> []
      /\ (length (experience_highlights out.1) <= 6)%nat
      /\ Forall (fun x => x <> "") (experience_highlights out.1))
  /\ (Llm.enabled c = false -> out = (default_sections, [])).
Proof.
  assert (Hdefault :
            summary default_sections <> ""
            /\ (top_skills default_sections <> []
                /\ (length (top_skills default_sections) <= 8)%nat
                /\ Forall (fun x => x <> "") (top_skills default_sections))
            /\ (experience_highlights default_sections <> []
                /\ (length (experience_highlights default_sections) <= 6)%nat
                /\ Forall (fun x => x <> "") (experience_highlights default_sections))).
  { split; [discriminate|]. split.
    - split; [discriminate|]. split; [cbn; lia|]. repeat constructor; discriminate.
    - split; [discriminate|]. split; [cbn; lia|]. repeat constructor; discriminate. }
  cbv zeta. unfold generate_resume_sections.
  destruct (Llm.enabled c) eqn:He; cbn [negb].
  - destruct (Llm._chat c resume_system (resume_user job base_resume_text))
      as [raw sent].
    destruct (negb (truthy raw)).
    + cbn [fst]. destruct Hdefault as (H1 & H2 & H3).
      split; [exact H1|]. split; [exact H2|]. split; [exact H3 | discriminate].
    + destruct (parse_sections B json_loads raw) as [s | e] eqn:Hp; cbn [fst].
      * destruct (parse_sections_usable B json_loads raw s Hp) as (H1 & H2 & H3).
        split; [exact H1|]. split; [exact H2|]. split; [exact H3 | discriminate].
      * destruct Hdefault as (H1 & H2 & H3).
        split; [exact H1|]. split; [exact H2|]. split; [exact H3 | discriminate].
  - cbn [fst]. destruct Hdefault as (H1 & H2 & H3).
    split; [exact H1|]. split; [exact H2|]. split; [exact H3 | reflexivity].
Qed.

Lemma resume_sections_always_usable_witness :
  generate_resume_sections Examples.builtins0 MoreExamples.json_skills Examples.no_llm
    Examples.job0 "Built compilers."
  = (default_sections, []).
Proof.
  apply (resume_sections_always_usable Examples.builtins0 MoreExamples.json_skills
           Examples.no_llm Examples.job0 "Built compilers.").
  reflexivity.
Defined.

End ResumeSectionsFacts.

(** ** Job identifiers and authenticated URLs *)

Module BotHelperFacts.
Import Py PyStr PyStrFacts PyStrMore BotHelpers.

Lemma digits_prefix_digits (s : string) : forall_chars is_digit (digits_prefix s) = true.
Proof.
  induction s as [|c s IH]; [reflexivity|].
  cbn [digits_prefix]. destruct (is_digit c) eqn:Hc; [|reflexivity].
  cbn [forall_chars]. now rewrite Hc, IH.
Qed.

Lemma startswith_append (w t : string) : startswith w (w +:+ t) = true.
Proof. apply startswith_spec. now exists t. Qed.

Lemma drop_append (w t : string) : drop (String.length w) (w +:+ t) = t.
Proof.
  induction w as [|c w IH]; [now destruct t|].
  rewrite append_cons. cbn [String.length drop]. exact IH.
Qed.

Lemma startswith_drop (w s : string) :
  startswith w s = true -> s = w +:+ drop (String.length w) s.
Proof.
  intros H. apply startswith_spec in H as [t ->]. now rewrite drop_append.
Qed.

Lemma digits_after_hit (w : string) (c : ascii) (r : string) :
  is_digit c = true -> exists d, digits_after w (w +:+ String c r) = Some d.
Proof.
  intros Hc. unfold digits_after. rewrite startswith_append, drop_append.
  cbn [digits_prefix]. rewrite Hc. cbn [truthy]. eauto.
Qed.

Lemma digits_after_some (w s d : string) :
  digits_after w s = Some d ->
  d <> "" /\ forall_chars is_digit d = true
  /\ exists c r, is_digit c = true /\ s = w +:+ String c r.
Proof.
  unfold digits_after. destruct (startswith w s) eqn:Hw; [|discriminate].
  destruct (truthy (digits_prefix _)) eqn:Ht; [|discriminate].
  intros [= <-]. split; [now apply truthy_true|].
  split; [apply digits_prefix_digits|].
  apply startswith_drop in Hw.
  destruct (drop (String.length w) s) as [|c r]; [discriminate Ht|].
  cbn [digits_prefix] in Ht. destruct (is_digit c) eqn:Hc; [|discriminate Ht].
  now exists c, r.
Qed.

Lemma id_here_some (s d : string) :
  id_here s = Some d ->
  d <> "" /\ forall_chars is_digit d = true
  /\ exists c r, is_digit c = true
                 /\ (s = "/jobs/" +:+ String c r \/ s = "/postings/" +:+ String c r).
Proof.
  unfold id_here. destruct (digits_after "/jobs/" s) as [d1|] eqn:H1.
  - intros [= <-]. apply digits_after_some in H1 as (Hn & Hd & c & r & Hc & Hs).
    split; [exact Hn|]. split; [exact Hd|]. exists c, r. split; [exact Hc | now left].
  - intros H2. apply digits_after_some in H2 as (Hn & Hd & c & r & Hc & Hs).
    split; [exact Hn|]. split; [exact Hd|]. exists c, r. split; [exact Hc | now right].
Qed.

Lemma id_here_hit (c : ascii) (r : string) :
  is_digit c = true ->
  (exists d, id_here ("/jobs/" +:+ String c r) = Some d)
  /\ (exists d, id_here ("/postings/" +:+ String c r) = Some d).
Proof.
  intros Hc. split.
  - unfold id_here. destruct (digits_after_hit "/jobs/" c r Hc) as [d ->]. eauto.
  - unfold id_here.
    destruct (digits_after "/jobs/" ("/postings/" +:+ String c r)); [eauto|].
    apply digits_after_hit. exact Hc.
Qed.

Lemma id_search_some (url d : string) :
  id_search url = Some d ->
  d <> "" /\ forall_chars is_digit d = true /\ has_numbered_segment url.
Proof.
  induction url as [|x url IH]; cbn [id_search].
  - destruct (id_here "") as [d'|] eqn:Hh; [|discriminate].
    intros [= <-]. apply id_here_some in Hh as (Hn & Hd & c & r & Hc & Hs).
    split; [exact Hn|]. split; [exact Hd|]. exists "", c, r. now split.
  - destruct (id_here (String x url)) as [d'|] eqn:Hh.
    + intros [= <-]. apply id_here_some in Hh as (Hn & Hd & c & r & Hc & Hs).
      split; [exact Hn|]. split; [exact Hd|]. exists "", c, r. now split.
    + intros H. apply IH in H as (Hn & Hd & p & c & r & Hc & Hs).
      split; [exact Hn|]. split; [exact Hd|]. exists (String x p), c, r.
      split; [exact Hc|]. rewrite !append_cons. destruct Hs as [-> | ->]; auto.
Qed.

Lemma id_search_hit (url : string) :
  has_numbered_segment url -> exists d, id_search url = Some d.
Proof.
  intros (p & c & r & Hc & Hs). revert url Hs.
  induction p as [|x p IH]; intros url Hs.
  - rewrite !append_nil in Hs.
    assert (Hh : exists d, id_here url = Some d).
    { destruct (id_here_hit c r Hc) as [H1 H2]. destruct Hs as [-> | ->]; assumption. }
    destruct Hh as [d Hd]. exists d. destruct url; cbn [id_search]; now rewrite Hd.
  - rewrite !append_cons in Hs.
    assert (Hu : exists rest, url = String x rest
                              /\ (rest = p +:+ "/jobs/" +:+ String c r
                                  \/ rest = p +:+ "/postings/" +:+ String c r)).
    { destruct Hs as [-> | ->]; eexists; split; try reflexivity; auto. }
    destruct Hu as [rest [-> Hrest]]. cbn [id_search].
    destruct (id_here (String x rest)) as [d|]; [eauto|].
    now apply IH.
Qed.

(** [_extract_job_id] gives a non-empty string of decimal digits when the
    URL holds [/jobs/] or [/postings/] followed by a digit, and
    [idx-<fallback>] otherwise.  The two kinds never meet: a positional
    identifier is not a number. *)
Theorem extract_job_id_kinds (url : string) (index_fallback : Z) :
  let job_id := _extract_job_id url index_fallback in
  (has_numbered_segment url ->
   job_id <> "" /\ forall_chars is_digit job_id = true)
  /\ (~ has_numbered_segment url -> job_id = "idx-" +:+ pretty index_fallback)
  /\ job_id <> ""
  /\ forall_chars is_digit ("idx-" +:+ pretty index_fallback) = false.
Proof.
  intros job_id. subst job_id. unfold _extract_job_id. split; [|split; [|split]].
  - intros Hseg. destruct (id_search_hit url Hseg) as [d Hd]. rewrite Hd.
    now apply id_search_some in Hd as (Hn & Hdig & _).
  - intros Hno. destruct (id_search url) as [d|] eqn:Hd; [|reflexivity].
    apply id_search_some in Hd as (_ & _ & Hseg). contradiction.
  - destruct (id_search url) as [d|] eqn:Hd.
    + now apply id_search_some in Hd as (Hn & _).
    + discriminate.
  - reflexivity.
Qed.

Lemma extract_job_id_kinds_witness :
  forall_chars is_digit
    (_extract_job_id "https://app.joinhandshake.com/stu/postings/98765?ref=search" 3) = true
  /\ _extract_job_id "https://app.joinhandshake.com/stu/jobs/new" 3 = "idx-" +:+ pretty 3.
Proof.
  split.
  - apply (proj1 (extract_job_id_kinds
                    "https://app.joinhandshake.com/stu/postings/98765?ref=search" 3)).
    exists "https://app.joinhandshake.com/stu", "9"%char, "8765?ref=search".
    split; [reflexivity | right; reflexivity].
  - apply (proj1 (proj2 (extract_job_id_kinds
                           "https://app.joinhandshake.com/stu/jobs/new" 3))).
    intros Hseg. apply id_search_hit in Hseg as [d Hd]. vm_compute in Hd. discriminate Hd.
Defined.

(** Only a URL that mentions the Handshake application host can count as
    authenticated, and the test does not see letter case; on that host a
    path with [/login] or [/auth/] counts only under [/stu/]. *)
Theorem authenticated_url_is_on_host (url : string) :
  (_is_authenticated_url url = true -> occurs_in "app.joinhandshake.com" (lower url))
  /\ _is_authenticated_url (lower url) = _is_authenticated_url url
  /\ (~ occurs_in "app.joinhandshake.com/stu/" (lower url) ->
      occurs_in "/login" (lower url) \/ occurs_in "/auth/" (lower url) ->
      _is_authenticated_url url = false).
Proof.
  unfold _is_authenticated_url. cbv zeta. rewrite lower_idem. split; [|split].
  - destruct (truthy (lower url)); cbn [negb]; [|discriminate].
    destruct (str_in "app.joinhandshake.com/stu/" (lower url)) eqn:Hs.
    + intros _. apply str_in_spec in Hs.
      apply (occurs_in_left "app.joinhandshake.com" "/stu/"). exact Hs.
    + intros H. apply andb_true_iff in H as [H _]. apply andb_true_iff in H as [H _].
      now apply str_in_spec.
  - reflexivity.
  - intros Hstu Hbad. apply str_in_false in Hstu. rewrite Hstu.
    destruct (truthy (lower url)); cbn [negb]; [|reflexivity].
    destruct Hbad as [H | H]; apply str_in_spec in H; rewrite H; cbn [negb];
      now rewrite ?andb_false_r.
Qed.

Lemma authenticated_url_is_on_host_witness :
  occurs_in "app.joinhandshake.com" (lower "https://App.JoinHandshake.com/stu/postings")
  /\ _is_authenticated_url "https://app.joinhandshake.com/login?next=/stu" = false.
Proof.
  split.
  - apply (proj1 (authenticated_url_is_on_host "https://App.JoinHandshake.com/stu/postings")).
    vm_compute. reflexivity.
  - apply (proj2 (proj2 (authenticated_url_is_on_host
                           "https://app.joinhandshake.com/login?next=/stu"))).
    + apply str_in_false. vm_compute. reflexivity.
    + left. apply str_in_spec. vm_compute. reflexivity.
Defined.

End BotHelperFacts.

(** ** Harvesting the listing *)

Module HarvestFacts.
Import Py PyStr PyStrFacts PyStrMore BotHelpers BotHelperFacts.

Lemma harvest_loop_invariant (urljoin : string -> string -> string) (page_url : string)
    (max_discovered_jobs : Z) (all : list Anchor) (anchors : list Anchor) :
  forall (idx : Z) (seen_urls : gset string) (jobs out : list JobPosting.t),
    (forall node, In node anchors -> In node all) ->
    harvest_loop urljoin page_url max_discovered_jobs anchors idx seen_urls jobs
    = Harvested out ->
    NoDup (map JobPosting.url jobs) ->
    (forall j, In j jobs -> JobPosting.url j ∈ seen_urls) ->
    Z.of_nat (length jobs) < max_discovered_jobs ->
    Forall (well_formed urljoin page_url all) jobs ->
    NoDup (map JobPosting.url out)
    /\ Z.of_nat (length out) <= max_discovered_jobs
    /\ Forall (well_formed urljoin page_url all) out.
Proof.
  induction anchors as [|node rest IH];
    intros idx seen_urls jobs out Hsub H Hnd Hseen Hlen Hwf; cbn [harvest_loop] in H.
  - injection H as <-. split; [exact Hnd|]. split; [lia | exact Hwf].
  - assert (Hrest : forall n, In n rest -> In n all) by (intros n Hn; apply Hsub; now right).
    set (h := strip (default "" (href node))) in *.
    destruct (truthy h) eqn:Hh; cbn [negb] in H; [|now apply (IH _ _ _ _ Hrest H)].
    destruct (negb (str_in "/jobs/" h) && negb (str_in "/postings/" h)) eqn:Hp;
      [now apply (IH _ _ _ _ Hrest H)|].
    set (url := urljoin page_url (before_char "?" h)) in *.
    case_bool_decide as Hin; [now apply (IH _ _ _ _ Hrest H)|].
    destruct (default "" (inner_text node)) as [|c text] eqn:Ht; [discriminate H|].
    set (job := {| JobPosting.job_id := _extract_job_id url idx;
                   JobPosting.title := or_else (strip (first_line (String c text)))
                                         "Unknown Role";
                   JobPosting.company := ""; JobPosting.location := "";
                   JobPosting.description := ""; JobPosting.url := url |}) in *.
    assert (Hnd' : NoDup (map JobPosting.url (jobs ++ [job]))).
    { rewrite map_app. apply NoDup_app. split; [exact Hnd|]. split.
      - intros x Hx Hx'. cbn in Hx'. apply list_elem_of_In in Hx, Hx'.
        destruct Hx' as [<- | []]. apply in_map_iff in Hx as [j [Hj Hjin]].
        apply Hin. cbn [JobPosting.url job] in Hj. rewrite <- Hj. now apply Hseen.
      - cbn. apply NoDup_singleton. }
    assert (Hwf' : Forall (well_formed urljoin page_url all) (jobs ++ [job])).
    { apply Forall_app. split; [exact Hwf|]. constructor; [|constructor].
      split; [|split].
      - cbn [JobPosting.title job]. unfold or_else.
        destruct (truthy (strip _)) eqn:Htt; [now apply truthy_true | discriminate].
      - cbn [JobPosting.job_id job].
        apply (extract_job_id_kinds url idx).
      - exists node. split; [apply Hsub; now left|]. split; [reflexivity|].
        fold h. apply andb_false_iff in Hp as [Hp | Hp];
          apply negb_false_iff in Hp; apply str_in_spec in Hp; auto. }
    assert (Hlen' : Z.of_nat (length (jobs ++ [job])) = Z.of_nat (length jobs) + 1).
    { rewrite length_app. cbn. lia. }
    destruct (max_discovered_jobs <=? Z.of_nat (length (jobs ++ [job]))) eqn:Hmax.
    + injection H as <-. split; [exact Hnd'|]. split; [lia | exact Hwf'].
    + apply Z.leb_gt in Hmax.
      apply (IH _ _ _ _ Hrest H Hnd'); [|lia | exact Hwf'].
      intros j Hj. apply in_app_or in Hj as [Hj | [<- | []]].
      * apply elem_of_union. right. now apply Hseen.
      * apply elem_of_union. left. now apply elem_of_singleton.
Qed.

(** The harvest of a listing never holds two jobs with the same URL, never
    more jobs than [max_discovered_jobs] (none when that is zero or less),
    and each job has a title, an identifier, and the URL of a link that
    points to a job or a posting. *)
Theorem harvest_is_deduplicated_and_capped (urljoin : string -> string -> string)
    (page_url : string) (max_discovered_jobs : Z) (anchors : list Anchor)
    (jobs : list JobPosting.t) :
  harvest_jobs urljoin page_url max_discovered_jobs anchors = Harvested jobs ->
  NoDup (map JobPosting.url jobs)
  /\ Z.of_nat (length jobs) <= Z.max 0 max_discovered_jobs
  /\ Forall (well_formed urljoin page_url anchors) jobs.
Proof.
  unfold harvest_jobs. cbv zeta. intros H.
  destruct (Z.le_gt_cases max_discovered_jobs 0) as [Hle | Hgt].
  - assert (Hn : Z.to_nat (Z.min (Z.of_nat (length anchors)) (max_discovered_jobs * 4)) = 0%nat)
      by lia.
    rewrite Hn in H. cbn [firstn harvest_loop] in H. injection H as <-.
    split; [constructor|]. split; [cbn; lia | constructor].
  - destruct (harvest_loop_invariant urljoin page_url max_discovered_jobs anchors _
                0 ∅ [] jobs
                (fun node Hn => ResumeSectionsFacts.In_firstn _ _ _ Hn) H)
      as (H1 & H2 & H3).
    + constructor.
    + intros j [].
    + cbn. lia.
    + constructor.
    + split; [exact H1|]. split; [lia | exact H3].
Qed.

Lemma harvest_is_deduplicated_and_capped_witness :
  exists jobs,
    harvest_jobs MoreExamples.urljoin_site "https://app.joinhandshake.com/stu/postings" 2
      MoreExamples.listing = Harvested jobs
    /\ map JobPosting.title jobs = ["Software Engineer Intern"; "Unknown Role"]
    /\ NoDup (map JobPosting.url jobs)
    /\ Z.of_nat (length jobs) <= Z.max 0 2.
Proof.
  eexists. split; [vm_compute; reflexivity|]. split; [reflexivity|].
  destruct (harvest_is_deduplicated_and_capped MoreExamples.urljoin_site
              "https://app.joinhandshake.com/stu/postings" 2 MoreExamples.listing _
              ltac:(vm_compute; reflexivity)) as (H1 & H2 & _).
  split; [exact H1 | exact H2].
Defined.

(** A link to a job that has no text at all stops the harvest with an
    [IndexError]: when it is the first anchor and at least one job is
    wanted, no job is returned. *)
Theorem harvest_raises_on_link_without_text (urljoin : string -> string -> string)
    (page_url : string) (max_discovered_jobs : Z) (node : Anchor) (rest : list Anchor) :
  1 <= max_discovered_jobs ->
  strip (default "" (href node)) <> "" ->
  occurs_in "/jobs/" (strip (default "" (href node)))
  \/ occurs_in "/postings/" (strip (default "" (href node))) ->
  default "" (inner_text node) = "" ->
  harvest_jobs urljoin page_url max_discovered_jobs (node :: rest) = IndexErrorRaised.
Proof.
  intros Hmax Hh Hp Ht. unfold harvest_jobs. cbv zeta.
  assert (Hn : exists k, Z.to_nat (Z.min (Z.of_nat (length (node :: rest)))
                                     (max_discovered_jobs * 4)) = S k).
  { cbn [length]. exists (Z.to_nat (Z.min (Z.of_nat (S (length rest)))
                                         (max_discovered_jobs * 4)) - 1)%nat. lia. }
  destruct Hn as [k ->]. cbn [firstn harvest_loop].
  apply truthy_true in Hh. rewrite Hh. cbn [negb].
  assert (Hb : negb (str_in "/jobs/" (strip (default "" (href node))))
               && negb (str_in "/postings/" (strip (default "" (href node)))) = false).
  { destruct Hp as [Hp | Hp]; apply str_in_spec in Hp; rewrite Hp; cbn [negb];
      now rewrite ?andb_false_r. }
  rewrite Hb. rewrite bool_decide_eq_false_2 by apply not_elem_of_empty.
  now rewrite Ht.
Qed.

Lemma harvest_raises_on_link_without_text_witness :
  harvest_jobs MoreExamples.urljoin_site "https://app.joinhandshake.com/stu/postings" 150
    ({| href := Some "/stu/jobs/404"; inner_text := None |} :: MoreExamples.listing)
  = IndexErrorRaised.
Proof.
  apply harvest_raises_on_link_without_text.
  - lia.
  - vm_compute. discriminate.
  - left. apply str_in_spec. vm_compute. reflexivity.
  - reflexivity.
Defined.

End HarvestFacts.

(** ** The choices of the command line and the loaded alias rules *)

Module LoadingFacts.
Import Py PyStr PyStrFacts PyStrMore Scripts QuestionAnswerer ResumeSectionsFacts.

Lemma trimmed_nonblank_entries (parts : list string) :
  Forall (fun c => c <> "" /\ strip c = c) (trimmed_nonblank parts).
Proof.
  unfold trimmed_nonblank. apply List.Forall_forall. intros x Hx.
  apply in_map_iff in Hx as [y [<- Hy]]. apply List.filter_In in Hy as [_ Hy].
  split; [now apply truthy_true | apply strip_idem].
Qed.

Lemma normalize_fixed (cs : list string) :
  Forall (fun c => c <> "" /\ strip c = c) cs -> normalize_choices cs = cs.
Proof.
  unfold normalize_choices. induction 1 as [|c cs [Hne Hs] _ IH]; [reflexivity|].
  cbn [List.filter]. rewrite Hs, (proj2 (truthy_true c) Hne). cbn [map].
  now rewrite Hs, IH.
Qed.

(** The choices [_parse_choices] reads from the command line, from a JSON
    array or from a pipe-separated list, are trimmed and non-empty, so the
    normalization [answer] applies leaves them as they are; a blank argument
    gives no choice. *)
Theorem parsed_choices_are_normalized (B : Builtins)
    (json_loads : string -> result pyval) (raw : string) :
  Forall (fun c => c <> "" /\ strip c = c) (_parse_choices B json_loads raw)
  /\ normalize_choices (_parse_choices B json_loads raw) = _parse_choices B json_loads raw
  /\ (strip raw = "" -> _parse_choices B json_loads raw = []).
Proof.
  assert (H : Forall (fun c => c <> "" /\ strip c = c) (_parse_choices B json_loads raw)).
  { unfold _parse_choices. cbv zeta.
    destruct (truthy (strip raw)); cbn [negb]; [|constructor].
    destruct (startswith "[" (strip raw)); [|apply trimmed_nonblank_entries].
    destruct (json_loads (strip raw)) as [[] | e]; apply trimmed_nonblank_entries. }
  split; [exact H|]. split; [now apply normalize_fixed|].
  intros Hr. unfold _parse_choices. now rewrite Hr.
Qed.

Lemma parsed_choices_are_normalized_witness :
  _parse_choices Examples.builtins0 MoreExamples.json_skills "   " = [].
Proof.
  apply (proj2 (proj2 (parsed_choices_are_normalized Examples.builtins0
                         MoreExamples.json_skills "   "))).
  reflexivity.
Defined.

Lemma load_rule_lowercase (B : Builtins) (item : pyval) (r : AliasRule) :
  load_rule B item = Ok r -> Forall (fun p => lower p = p) (patterns r).
Proof.
  unfold load_rule. intros H.
  apply bind_Ok_inv in H as [k [_ H]].
  apply bind_Ok_inv in H as [ps0 [_ H]].
  apply bind_Ok_inv in H as [ps [_ H]].
  injection H as <-. cbn [patterns]. apply List.Forall_forall. intros x Hx.
  apply in_map_iff in Hx as [y [<- _]]. apply lower_idem.
Qed.

Lemma load_rules_lowercase (B : Builtins) (l : list pyval) (rs : list AliasRule) :
  load_rules B l = Ok rs ->
  Forall (fun r => Forall (fun p => lower p = p) (patterns r)) rs.
Proof.
  revert rs. induction l as [|item l IH]; intros rs H; cbn [load_rules] in H.
  - injection H as <-. constructor.
  - apply bind_Ok_inv in H as [r [Hr H]].
    apply bind_Ok_inv in H as [rs' [Hrs H]].
    injection H as <-. constructor; [now apply (load_rule_lowercase B item) | now apply IH].
Qed.

(** Every pattern of an alias rule that [_load_defaults] returns is in
    lower case, however it is written in the file; since prompts are
    lower-cased before matching, alias matching does not see letter case. *)
Theorem loaded_patterns_are_lowercase (H : Settings.Host) (path : string)
    (defaults : gmap string string) (rules : list AliasRule) :
  _load_defaults H path = Ok (defaults, rules) ->
  Forall (fun r => Forall (fun p => lower p = p) (patterns r)) rules.
Proof.
  unfold _load_defaults.
  destruct (negb (Settings.path_exists H path)).
  - intros [= <- <-]. constructor.
  - intros Hl.
    apply bind_Ok_inv in Hl as [text [_ Hl]].
    apply bind_Ok_inv in Hl as [doc [_ Hl]]. cbv zeta in Hl.
    apply bind_Ok_inv in Hl as [d0 [_ Hl]].
    apply bind_Ok_inv in Hl as [kvs [_ Hl]].
    apply bind_Ok_inv in Hl as [a0 [_ Hl]].
    apply bind_Ok_inv in Hl as [l [_ Hl]].
    apply bind_Ok_inv in Hl as [rs [Hrs Hl]].
    injection Hl as _ <-. now apply (load_rules_lowercase (Settings.builtins H) l).
Qed.

Lemma loaded_patterns_are_lowercase_witness :
  _load_defaults (Examples.host_with_config MoreExamples.doc_capital_patterns)
    "config/application.yaml"
  = Ok ({[ "work_authorization_us" := "Yes" ]},
        [ {| key := "work_authorization_us";
             patterns := ["authorized to work"; "work authorization"] |} ])
  /\ Forall (fun r => Forall (fun p => lower p = p) (patterns r))
       [ {| key := "work_authorization_us";
            patterns := ["authorized to work"; "work authorization"] |} ].
Proof.
  assert (Hload : _load_defaults
                    (Examples.host_with_config MoreExamples.doc_capital_patterns)
                    "config/application.yaml"
                  = Ok ({[ "work_authorization_us" := "Yes" ]},
                        [ {| key := "work_authorization_us";
                             patterns := ["authorized to work"; "work authorization"] |} ]))
    by (vm_compute; reflexivity).
  split; [exact Hload|].
  exact (loaded_patterns_are_lowercase _ _ _ _ Hload).
Defined.

End LoadingFacts.

(** ** What the event log of a run shows *)

Module BotTraceFacts.
Import Py PyStr PyStrFacts HandshakeBot Bot BotFacts BotTrace BotHelpers.

Section Generic.
Context {W : Type}.

Lemma appends_weaken {A : Type} (P Q : Event -> bool) (m : Act W A) :
  (forall e, P e = true -> Q e = true) -> appends P m -> appends Q m.
Proof.
  intros HPQ Hm st r st' H. apply Hm in H as [evs [E F]].
  exists evs. split; [exact E|].
  apply forallb_forall. intros e He. apply HPQ.
  now apply (proj1 (forallb_forall P evs) F).
Qed.

Lemma shows_bind {A B : Type} (R1 : result A -> list Event -> Prop)
    (R2 : A -> result B -> list Event -> Prop) (R : result B -> list Event -> Prop)
    (m : Act W A) (k : A -> Act W B) :
  shows R1 m -> (forall a, shows (R2 a) (k a)) ->
  (forall e evs, R1 (Raise e) evs -> R (Raise e) evs) ->
  (forall a e1 r e2, R1 (Ok a) e1 -> R2 a r e2 -> R r (e1 ++ e2)) ->
  shows R (bind_act m k).
Proof.
  intros Hm Hk Hraise Hok st r st' H.
  apply bind_act_inv in H as [[e [H ->]] | [a [st1 [H1 H2]]]].
  - apply Hm in H as [evs [E F]]. exists evs. split; [exact E | now apply Hraise].
  - apply Hm in H1 as [e1 [E1 F1]]. apply Hk in H2 as [e2 [E2 F2]].
    exists (e1 ++ e2). rewrite E2, E1, <- app_assoc. split; [reflexivity|].
    now apply (Hok a).
Qed.

Lemma shows_of_appends {A : Type} (P : Event -> bool) (m : Act W A) :
  appends P m -> shows (fun _ evs => forallb P evs = true) m.
Proof. intros Hm st r st' H. now apply Hm in H. Qed.

Lemma shows_after {A B : Type} (P : Event -> bool) (R : result B -> list Event -> Prop)
    (m : Act W A) (k : A -> Act W B) :
  appends P m -> (forall a, shows R (k a)) ->
  (forall e evs, R (Raise e) evs) ->
  (forall r e1 e2, R r e2 -> R r (e1 ++ e2)) ->
  shows R (bind_act m k).
Proof.
  intros Hm Hk Hraise Hmono.
  apply (shows_bind (fun _ evs => forallb P evs = true) (fun _ => R)).
  - now apply shows_of_appends.
  - exact Hk.
  - intros e evs _. apply Hraise.
  - intros a e1 r e2 _. apply Hmono.
Qed.

Lemma shows_ret {A : Type} (R : result A -> list Event -> Prop) (a : A) :
  R (Ok a) [] -> shows (W:=W) R (ret a).
Proof.
  intros Ha st r st' H. injection H as <- <-. exists []. now rewrite app_nil_r.
Qed.

Lemma shows_raise {A : Type} (R : result A -> list Event -> Prop) (e : exn) :
  R (Raise e) [] -> shows (W:=W) (A:=A) R (raise e).
Proof.
  intros Ha st r st' H. injection H as <- <-. exists []. now rewrite app_nil_r.
Qed.

End Generic.

Lemma backed_by_grows (res : ApplicationResult.t) (e1 e2 : list Event) :
  backed_by res e2 -> backed_by res (e1 ++ e2).
Proof.
  intros [Ha Hd]. split.
  - intros H. apply in_or_app. right. now apply Ha.
  - intros H. rewrite existsb_app, (Hd H). apply orb_true_r.
Qed.

Section Flow.
Context {W : Type}.
Variable config : Settings.AutomationConfig.
Variable Br : Browser W.

Lemma probe_shows_sighting (patterns : list string) :
  (forall p, In p patterns -> list_in p submit_patterns = true) ->
  shows (fun r evs => r = Ok true -> existsb is_submit_sighting evs = true)
    (probe_buttons Br patterns).
Proof.
  induction patterns as [|p ps IH]; intros Hsub; cbn [probe_buttons].
  - apply shows_ret. discriminate.
  - intros st r st' H.
    apply bind_act_inv in H as [[e [H ->]] | [visible [st1 [H1 H2]]]].
    + apply call_inv in H as [[e' [_ E]] | [a [Ha _]]]; [|discriminate Ha].
      exists []. rewrite app_nil_r. split; [exact E | discriminate].
    + apply call_inv in H1 as [[e' [He' _]] | [a [Ha E]]]; [discriminate He'|].
      injection Ha as <-. destruct visible.
      * injection H2 as <- <-. exists [EvButtonProbe p true]. split; [exact E|].
        intros _. cbn [existsb is_submit_sighting]. rewrite (Hsub p) by now left.
        reflexivity.
      * apply IH in H2 as [e2 [E2 F2]]; [|intros q Hq; apply Hsub; now right].
        exists (EvButtonProbe p false :: e2). rewrite E2, E, <- app_assoc.
        split; [reflexivity|]. intros Hr. cbn [existsb is_submit_sighting orb].
        now apply F2.
Qed.

Lemma click_submit_shows_press :
  shows (fun r evs => r = Ok tt -> In submit_pressed evs) (_click_submit Br).
Proof.
  unfold _click_submit. intros st r st' H.
  apply bind_act_inv in H as [[e [H ->]] | [clicked [st1 [H1 H2]]]].
  - apply call_total_inv in H as [a [Ha _]]. discriminate Ha.
  - apply call_total_inv in H1 as [a [Ha E]]. injection Ha as <-. destruct clicked.
    + apply (wait_quiet Br 1500) in H2 as [e2 [E2 _]].
      exists (EvClickButton submit_patterns true :: e2). rewrite E2, E, <- app_assoc.
      split; [reflexivity|]. intros _. now left.
    + injection H2 as <- <-. exists [EvClickButton submit_patterns false].
      split; [exact E | discriminate].
Qed.

Lemma apply_steps_backed (n : nat) (job : JobPosting.t) (resume_path : string)
    (uploaded_resume : bool) :
  shows (fun r evs => forall res, r = Ok (Some res) -> backed_by res evs)
    (apply_steps config Br n job resume_path uploaded_resume).
Proof.
  revert uploaded_resume.
  induction n as [|n IH]; intros uploaded_resume; cbn [apply_steps].
  - apply shows_ret. discriminate.
  - assert (Hmono : forall (r : result (option ApplicationResult.t)) e1 e2,
               (forall res, r = Ok (Some res) -> backed_by res e2) ->
               forall res, r = Ok (Some res) -> backed_by res (e1 ++ e2)).
    { intros r e1 e2 H res Hr. apply backed_by_grows. now apply H. }
    apply (shows_after quiet).
    { destruct uploaded_resume; cbn [negb];
        [apply appends_ret | apply appends_call; reflexivity]. }
    2: discriminate. 2: exact Hmono.
    intros uploaded. apply (shows_after quiet);
      [apply appends_call; reflexivity | | discriminate | exact Hmono].
    intros _.
    apply (shows_bind
             (fun r evs => r = Ok true -> existsb is_submit_sighting evs = true)
             (fun (has : bool) r evs =>
                forall res, r = Ok (Some res) ->
                  if has then
                    (ApplicationResult.status res = "dry_run_ready"
                     /\ ApplicationResult.status res <> "applied")
                    \/ (ApplicationResult.status res = "applied"
                        /\ ApplicationResult.status res <> "dry_run_ready"
                        /\ In submit_pressed evs)
                  else backed_by res evs)).
    + apply probe_shows_sighting. intros p Hp. cbn in Hp.
      repeat (destruct Hp as [<- | Hp]; [reflexivity|]). destruct Hp.
    + intros has. destruct has.
      * destruct (Settings.dry_run _ || negb _).
        -- apply shows_ret. intros res [= <-]. left. split; [reflexivity | discriminate].
        -- intros st r st' H.
           apply bind_act_inv in H as [[e [H ->]] | [u [st1 [H1 H2]]]].
           ++ apply click_submit_shows_press in H as [evs [E _]].
              exists evs. split; [exact E | discriminate].
           ++ apply click_submit_shows_press in H1 as [evs [E F]].
              injection H2 as <- <-. exists evs. split; [exact E|].
              intros res [= <-]. right. split; [reflexivity|].
              split; [discriminate|]. destruct u. now apply F.
      * apply (shows_after quiet);
          [apply click_next_quiet | | discriminate | exact Hmono].
        intros advanced. destruct advanced; cbn [negb].
        -- apply (shows_after quiet);
             [apply wait_quiet | intros _; apply IH | discriminate | exact Hmono].
        -- apply shows_ret. discriminate.
    + discriminate.
    + intros has e1 r e2 H1 H2 res Hr. specialize (H2 res Hr). destruct has.
      * destruct H2 as [[Hd Hna] | (Ha & Hnd & Hin)].
        -- split; [intros Hs; contradiction|].
           intros _. rewrite existsb_app, (H1 eq_refl). reflexivity.
        -- split; [intros _; apply in_or_app; now right | intros Hs; contradiction].
      * now apply backed_by_grows.
Qed.

Lemma apply_body_backed (job : JobPosting.t) :
  shows (fun r evs => forall res, r = Ok res -> backed_by res evs)
    (apply_body config Br job).
Proof.
  assert (Hmono : forall (r : result ApplicationResult.t) e1 e2,
             (forall res, r = Ok res -> backed_by res e2) ->
             forall res, r = Ok res -> backed_by res (e1 ++ e2)).
  { intros r e1 e2 H res Hr. apply backed_by_grows. now apply H. }
  unfold apply_body.
  apply (shows_after quiet); [apply goto_quiet | | discriminate | exact Hmono].
  intros _.
  apply (shows_after quiet); [apply wait_quiet | | discriminate | exact Hmono].
  intros _.
  apply (shows_after quiet); [apply click_apply_quiet | | discriminate | exact Hmono].
  intros found. destruct found; cbn [negb].
  - apply (shows_after quiet);
      [apply appends_call; reflexivity | | discriminate | exact Hmono].
    intros resume_path.
    apply (shows_bind
             (fun r evs => forall res, r = Ok (Some res) -> backed_by res evs)
             (fun o r evs => forall res, r = Ok res ->
                             match o with
                             | Some res' => res = res'
                             | None => ApplicationResult.status res = "failed"
                             end)).
    + apply apply_steps_backed.
    + intros o. destruct o as [res'|]; apply shows_ret; intros res [= <-]; reflexivity.
    + discriminate.
    + intros o e1 r e2 H1 H2 res Hr. specialize (H2 res Hr). destruct o as [res'|].
      * subst res'. destruct (H1 res eq_refl) as [Ha Hd]. split.
        -- intros Hs. apply in_or_app. left. now apply Ha.
        -- intros Hs. rewrite existsb_app, (Hd Hs). reflexivity.
      * split; intros Hs; rewrite H2 in Hs; discriminate Hs.
  - apply shows_ret. intros res [= <-]. split; discriminate.
Qed.

(** The result of an apply flow is backed by what happened: "applied" is
    reported only when a button found by the submit patterns was pressed and
    the press went through, and "dry_run_ready" only when a visible submit
    button was seen. *)
Theorem reported_status_is_backed_by_events (job : JobPosting.t) (st : St W) :
  exists evs,
    (_apply_to_job config Br job st).2.2 = st.2 ++ evs
    /\ forall result,
         (_apply_to_job config Br job st).1 = Ok result ->
         (ApplicationResult.status result = "applied" -> In submit_pressed evs)
         /\ (ApplicationResult.status result = "dry_run_ready" ->
             existsb is_submit_sighting evs = true).
Proof.
  destruct (_apply_to_job config Br job st) as [r st'] eqn:H. cbn [fst snd].
  unfold _apply_to_job in H.
  apply paged_inv in H as [(e & -> & _ & E) | [(e & w & -> & _ & E)
                                              | (st0 & r0 & st1 & E0 & Hb & E & Hr)]].
  - exists []. rewrite app_nil_r. split; [exact E | discriminate].
  - exists [EvNewPage]. split; [exact E | discriminate].
  - apply try_except_inv in Hb as [[res [Hb ->]] | [exc [st2 [Hb Hh]]]];
      apply apply_body_backed in Hb as [evs [Eb F]].
    + exists ([EvNewPage;
               EvSetDefaultTimeout (Settings.timeout_ms (Settings.browser config))]
              ++ evs ++ [EvClosePage]).
      split; [rewrite E, Eb, E0, <- !app_assoc; reflexivity|].
      intros result Hres. subst r.
      destruct (page_close Br st1.1).1; [|discriminate Hres]. injection Hres as <-.
      destruct (F res eq_refl) as [Ha Hd]. split.
      * intros Hs. cbn [app]. right. right. apply in_or_app. left. now apply Ha.
      * intros Hs. cbn [app existsb is_submit_sighting orb].
        rewrite existsb_app, (Hd Hs). reflexivity.
    + unfold apply_failed in Hh. injection Hh as <- <-.
      exists ([EvNewPage;
               EvSetDefaultTimeout (Settings.timeout_ms (Settings.browser config))]
              ++ evs
              ++ (if Settings.save_html_on_failure (Settings.application config)
                  then [EvSaveFailureHtml (JobPosting.job_id job)] else [])
              ++ [EvClosePage]).
      split.
      * rewrite E. unfold _save_failure_html.
        destruct (Settings.save_html_on_failure (Settings.application config));
          cbn [step fst snd]; rewrite Eb, E0, <- !app_assoc; reflexivity.
      * intros result Hres. subst r.
        destruct (page_close Br _).1; [|discriminate Hres]. injection Hres as <-.
        split; discriminate.
Qed.

End Flow.

Lemma reported_status_is_backed_by_events_witness :
  existsb is_submit_sighting
    (_apply_to_job Examples.config_keywords Examples.browser_two_steps
       (Examples.seed_job "42" "Software Engineering Intern") (0%nat, [])).2.2 = true.
Proof.
  destruct (reported_status_is_backed_by_events Examples.config_keywords
              Examples.browser_two_steps
              (Examples.seed_job "42" "Software Engineering Intern") (0%nat, []))
    as (evs & E & F).
  cbn [snd app] in E. rewrite E.
  apply (F (mk_result (Examples.seed_job "42" "Software Engineering Intern")
              "dry_run_ready" "submit_button_reached")).
  - vm_compute. reflexivity.
  - reflexivity.
Defined.

End BotTraceFacts.

(** ** The loop over the jobs and the whole run *)

Module RunFacts.
Import Py PyStr PyStrFacts HandshakeBot Bot BotFacts BotTrace BotHelpers BotTraceFacts.

Ltac page_work :=
  repeat first
    [ apply appends_ret
    | apply appends_raise
    | apply appends_call; reflexivity
    | apply appends_call_total; reflexivity
    | apply appends_try_except; [|intros ?]
    | apply appends_bind; [|intros ?]
    | match goal with
      | |- appends _ (if ?b then _ else _) => destruct b
      | |- appends _ (match ?o with Some _ => _ | None => _ end) => destruct o
      end ].

Lemma count_ready_app (l1 l2 : list ApplicationResult.t) :
  count_ready (l1 ++ l2) = count_ready l1 + count_ready l2.
Proof. unfold count_ready. rewrite List.filter_app, length_app. lia. Qed.

Lemma count_ready_one (r : ApplicationResult.t) :
  count_ready [r] = if counts_as_application (ApplicationResult.status r) then 1 else 0.
Proof.
  unfold count_ready. cbn [List.filter].
  now destruct (counts_as_application (ApplicationResult.status r)).
Qed.

Section Loop.
Context {W : Type}.
Variable config : Settings.AutomationConfig.
Variable Br : Browser W.

Lemma probe_buttons_in_page (patterns : list string) :
  appends in_page (probe_buttons Br patterns).
Proof. induction patterns as [|p ps IH]; cbn [probe_buttons]; page_work. exact IH. Qed.

Lemma apply_steps_in_page (n : nat) (job : JobPosting.t) (resume_path : string)
    (uploaded_resume : bool) :
  appends in_page (apply_steps config Br n job resume_path uploaded_resume).
Proof.
  revert uploaded_resume. induction n as [|n IH]; intros uploaded_resume;
    cbn [apply_steps]; [apply appends_ret|].
  apply appends_bind; [destruct uploaded_resume; cbn [negb]; page_work | intros ?].
  apply appends_bind; [page_work | intros _].
  apply appends_bind; [apply probe_buttons_in_page | intros has].
  destruct has.
  - unfold _click_submit, _click_button, wait_for_timeout. page_work.
  - unfold _click_next_step, _click_button, wait_for_timeout.
    apply appends_bind; [page_work | intros advanced].
    destruct advanced; cbn [negb]; [|apply appends_ret].
    apply appends_bind; [page_work | intros _; apply IH].
Qed.

Lemma apply_body_in_page (job : JobPosting.t) : appends in_page (apply_body config Br job).
Proof.
  unfold apply_body, goto, wait_for_timeout.
  apply appends_bind; [page_work | intros _].
  apply appends_bind; [page_work | intros _].
  apply appends_bind;
    [unfold _click_apply, _click_button, wait_for_timeout; page_work | intros found].
  destruct found; cbn [negb]; [|apply appends_ret].
  apply appends_bind; [page_work | intros resume_path].
  apply appends_bind; [apply apply_steps_in_page | intros r].
  destruct r; apply appends_ret.
Qed.

Lemma enrich_body_in_page (seed : JobPosting.t) : appends in_page (enrich_body Br seed).
Proof. unfold enrich_body, goto, wait_for_timeout. page_work. Qed.

Lemma enrich_body_quiet (seed : JobPosting.t) : appends quiet (enrich_body Br seed).
Proof. unfold enrich_body, goto, wait_for_timeout. page_work. Qed.

(** The shape of what one job adds to the log, for any class [P] of events
    the two [try] blocks stay in. *)
Section Shape.
Variable P : Event -> bool.
Hypothesis P_apply : forall job, appends P (apply_body config Br job).
Hypothesis P_enrich : forall seed, appends P (enrich_body Br seed).
Hypothesis P_save : forall job_id, P (EvSaveFailureHtml job_id) = true.

Lemma apply_try_appends (job : JobPosting.t) :
  appends P (try_except (apply_body config Br job) (apply_failed config Br job)).
Proof.
  apply appends_try_except; [apply P_apply|].
  intros exc st r st' H. unfold apply_failed in H. injection H as <- <-.
  unfold _save_failure_html.
  destruct (Settings.save_html_on_failure (Settings.application config)).
  - exists [EvSaveFailureHtml (JobPosting.job_id job)]. split; [reflexivity|].
    cbn [forallb]. now rewrite P_save.
  - exists []. now rewrite app_nil_r.
Qed.

Lemma enrich_try_appends (seed : JobPosting.t) :
  appends P (try_except (enrich_body Br seed) (fun _ => ret seed)).
Proof. apply appends_try_except; [apply P_enrich | intros _; apply appends_ret]. Qed.

Lemma paged_bracket {A : Type} (body : Act W A) (handler : exn -> Act W A) (st : St W) :
  appends P (try_except body handler) ->
  page_bracket config Br P st
    ((_ <~ open_page config Br ;; finally (try_except body handler) (close_page Br)) st).
Proof.
  intros Hbody.
  destruct ((_ <~ open_page config Br ;; finally (try_except body handler) (close_page Br))
              st) as [r st'] eqn:H.
  apply paged_inv in H as [(e & -> & Hn & E) | [(e & w & -> & Ht & E)
                                               | (st0 & r0 & st1 & E0 & Hb & E & Hr)]].
  - left. now exists e.
  - right. left. now exists e, w.
  - right. right. apply Hbody in Hb as [mid [Eb F]]. exists mid. split; [|exact F].
    cbn [snd]. rewrite E, Eb, E0, <- !app_assoc. reflexivity.
Qed.

Lemma apply_to_job_bracket (job : JobPosting.t) (st : St W) :
  page_bracket config Br P st (_apply_to_job config Br job st).
Proof. apply paged_bracket, apply_try_appends. Qed.

Lemma enrich_job_bracket (seed : JobPosting.t) (st : St W) :
  page_bracket config Br P st (_enrich_job config Br seed st).
Proof. apply paged_bracket, enrich_try_appends. Qed.

Hypothesis P_new : P EvNewPage = true.
Hypothesis P_timeout : forall ms, P (EvSetDefaultTimeout ms) = true.
Hypothesis P_close : P EvClosePage = true.
Hypothesis P_sleep : forall seconds, P (EvSleep seconds) = true.

Lemma bracket_appends {A : Type} (st : St W) (out : result A * St W) :
  page_bracket config Br P st out ->
  exists evs, out.2.2 = st.2 ++ evs /\ forallb P evs = true.
Proof.
  intros [(e & _ & _ & E) | [(e & w & _ & _ & E) | (mid & E & F)]].
  - exists []. now rewrite app_nil_r.
  - exists [EvNewPage]. split; [exact E|]. cbn [forallb]. now rewrite P_new.
  - eexists. split; [exact E|]. cbn [forallb].
    rewrite P_new, P_timeout, forallb_app, F. cbn [forallb]. now rewrite P_close.
Qed.

Lemma open_page_appends : appends P (open_page config Br).
Proof.
  unfold open_page. apply appends_bind; [apply appends_call; intros _; exact P_new|].
  intros _. apply appends_call. intros _. apply P_timeout.
Qed.

Lemma run_jobs_appends (jobs : list JobPosting.t) (results0 : list ApplicationResult.t)
    (applied0 : Z) (st : St W) :
  exists evs,
    (run_jobs config Br jobs results0 applied0 st).2.2 = st.2 ++ evs
    /\ forallb P evs = true.
Proof.
  revert results0 applied0 st.
  induction jobs as [|seed rest IH]; intros results0 applied0 st; cbn [run_jobs].
  - exists []. now rewrite app_nil_r.
  - destruct (Settings.max_applications (Settings.application config) <=? applied0).
    { exists []. now rewrite app_nil_r. }
    destruct (bracket_appends st _ (enrich_job_bracket seed st)) as [m1 [E1 F1]].
    destruct (_enrich_job config Br seed st) as [[job | e] st1]; cbn [snd] in E1;
      [|now exists m1].
    destruct (negb (_matches_filters config job)).
    { destruct (IH (results0 ++ [mk_result job "skipped" "filter_mismatch"]) applied0 st1)
        as [evs [E F]].
      exists (m1 ++ evs). rewrite E, E1, <- app_assoc. split; [reflexivity|].
      now rewrite forallb_app, F1, F. }
    destruct (bracket_appends st1 _ (apply_to_job_bracket job st1)) as [m2 [E2 F2]].
    destruct (_apply_to_job config Br job st1) as [[result | e] st2]; cbn [snd] in E2.
    2:{ exists (m1 ++ m2). cbn [snd]. rewrite E2, E1, <- app_assoc.
        split; [reflexivity|]. now rewrite forallb_app, F1, F2. }
    destruct (counts_as_application (ApplicationResult.status result)).
    + unfold sleep.
      destruct (Settings.pause_between_apps_sec (Settings.application config) <? 0).
      * exists (m1 ++ m2). cbn [snd]. rewrite E2, E1, <- app_assoc.
        split; [reflexivity|]. now rewrite forallb_app, F1, F2.
      * destruct (IH (results0 ++ [result]) (applied0 + 1)
                    (st2.1, st2.2 ++ [EvSleep (Settings.pause_between_apps_sec
                                                 (Settings.application config))]))
          as [evs [E F]].
        exists ((m1 ++ m2)
                ++ EvSleep (Settings.pause_between_apps_sec (Settings.application config))
                :: evs).
        split; [rewrite E; cbn [snd]; rewrite E2, E1, <- !app_assoc; reflexivity|].
        rewrite !forallb_app, F1, F2. cbn [forallb]. now rewrite P_sleep, F.
    + destruct (IH (results0 ++ [result]) applied0 st2) as [evs [E F]].
      exists ((m1 ++ m2) ++ evs).
      split; [rewrite E, E2, E1, <- !app_assoc; reflexivity|].
      now rewrite !forallb_app, F1, F2, F.
Qed.

Hypothesis P_login : P EvLogin = true.
Hypothesis P_discover : forall found, P (EvDiscover found) = true.

Lemma run_shape (Se : Session W) (st : St W) :
  (exists e, (launch Se st.1).1 = Raise e
             /\ (run config Br Se st).1 = Raise e
             /\ (run config Br Se st).2.2 = st.2)
  \/ (exists mid,
        (launch Se st.1).1 = Ok tt
        /\ (run config Br Se st).2.2
           = st.2 ++ EvLaunch :: mid ++ EvCloseBrowser :: written (run config Br Se st).1
        /\ forallb P mid = true).
Proof.
  destruct (run config Br Se st) as [r st'] eqn:Hrun. cbn [fst snd].
  unfold run in Hrun. unfold call at 1 in Hrun.
  destruct (launch Se st.1) as [[[] | e] w0]; cbn [fst snd] in *; cycle 1.
  { left. injection Hrun as <- <-. exists e. repeat split. }
  right.
  set (st0 := (w0, st.2 ++ [EvLaunch])) in Hrun.
  assert (E0 : st0.2 = st.2 ++ [EvLaunch]) by reflexivity.
  clearbody st0.
  assert (Hfind : appends P
                    (_ <~ open_page config Br ;;
                     _ <~ call (login Se) (fun _ => EvLogin) ;;
                     call (discover_jobs Se) (fun jobs => EvDiscover (length jobs)))).
  { apply appends_bind; [apply open_page_appends | intros _].
    apply appends_bind; [apply appends_call; intros _; exact P_login | intros _].
    apply appends_call. intros jobs. apply P_discover. }
  destruct (bind_act _ _ st0) as [[jobs | e] st1] eqn:Hf;
    apply Hfind in Hf as [e1 [E1 F1]].
  - destruct (run_jobs_appends jobs [] 0 st1) as [e2 [E2 F2]].
    destruct (run_jobs config Br jobs [] 0 st1) as [final st2]. cbn [snd] in E2.
    destruct (attempt (browser_close Se) EvCloseBrowser st2) as [rc st3] eqn:Hc.
    apply attempt_inv in Hc as [-> E3].
    exists (e1 ++ e2). split; [reflexivity|].
    split; [|now rewrite forallb_app, F1, F2].
    destruct (browser_close Se st2.1).1 as [[] | e].
    + destruct (raised final) as [e|].
      * injection Hrun as <- <-. cbn [written].
        rewrite E3, E2, E1, E0. cbn [app]. rewrite <- !app_assoc. reflexivity.
      * unfold call in Hrun.
        destruct (write_results Se (results final) st3.1) as [[[] | e] w3];
          injection Hrun as <- <-; cbn [fst snd written];
          rewrite E3, E2, E1, E0; cbn [app]; rewrite <- !app_assoc; reflexivity.
    + injection Hrun as <- <-. cbn [written].
      rewrite E3, E2, E1, E0. cbn [app]. rewrite <- !app_assoc. reflexivity.
  - destruct (attempt (browser_close Se) EvCloseBrowser st1) as [rc st3] eqn:Hc.
    apply attempt_inv in Hc as [-> E3].
    exists e1. split; [reflexivity|]. split; [|exact F1].
    destruct (browser_close Se st1.1).1 as [[] | e']; injection Hrun as <- <-;
      cbn [written]; rewrite E3, E1, E0; cbn [app]; rewrite <- !app_assoc; reflexivity.
Qed.

End Shape.

Lemma run_jobs_counts (jobs : list JobPosting.t) (results0 : list ApplicationResult.t)
    (applied0 : Z) (st : St W) :
  let out := (run_jobs config Br jobs results0 applied0 st).1 in
  exists new,
    results out = results0 ++ new
    /\ applied_or_ready out = applied0 + count_ready new
    /\ applied_or_ready out
       <= Z.max applied0 (Settings.max_applications (Settings.application config)).
Proof.
  cbv zeta. revert results0 applied0 st.
  assert (Hstop : forall results0 applied0,
             exists new : list ApplicationResult.t,
               results0 = results0 ++ new
               /\ applied0 = applied0 + count_ready new
               /\ applied0
                  <= Z.max applied0 (Settings.max_applications (Settings.application config))).
  { intros results0 applied0. exists []. rewrite app_nil_r. unfold count_ready. cbn.
    split; [reflexivity|]. lia. }
  induction jobs as [|seed rest IH]; intros results0 applied0 st; cbn [run_jobs].
  - apply Hstop.
  - destruct (Settings.max_applications (Settings.application config) <=? applied0)
      eqn:Hmax; [apply Hstop|].
    apply Z.leb_gt in Hmax.
    destruct (_enrich_job config Br seed st) as [[job | e] st1]; [|apply Hstop].
    destruct (negb (_matches_filters config job)).
    { destruct (IH (results0 ++ [mk_result job "skipped" "filter_mismatch"]) applied0 st1)
        as (new & Hres & Hcount & Hcap).
      exists (mk_result job "skipped" "filter_mismatch" :: new).
      split; [now rewrite Hres, <- app_assoc|].
      change (mk_result job "skipped" "filter_mismatch" :: new)
        with ([mk_result job "skipped" "filter_mismatch"] ++ new).
      rewrite count_ready_app, count_ready_one.
      change (counts_as_application
                (ApplicationResult.status (mk_result job "skipped" "filter_mismatch")))
        with false.
      split; lia. }
    destruct (_apply_to_job config Br job st1) as [[result | e] st2]; [|apply Hstop].
    destruct (counts_as_application (ApplicationResult.status result)) eqn:Hc.
    + destruct (sleep _ st2) as [[[] | e] st3].
      * destruct (IH (results0 ++ [result]) (applied0 + 1) st3)
          as (new & Hres & Hcount & Hcap).
        exists (result :: new). split; [now rewrite Hres, <- app_assoc|].
        change (result :: new) with ([result] ++ new).
        rewrite count_ready_app, count_ready_one, Hc. split; lia.
      * exists [result]. cbn [fst results applied_or_ready].
        rewrite count_ready_one, Hc. split; [reflexivity|]. lia.
    + destruct (IH (results0 ++ [result]) applied0 st2) as (new & Hres & Hcount & Hcap).
      exists (result :: new). split; [now rewrite Hres, <- app_assoc|].
      change (result :: new) with ([result] ++ new).
      rewrite count_ready_app, count_ready_one, Hc. split; lia.
Qed.

(** A job page that was opened and given its timeout is closed, whatever
    happens on it.  What the apply flow of a job adds to the log is then
    the opening of a page, the setting of its timeout, work on that page
    only, and its closing as the last thing, also when the flow fails; the
    same holds for the look at a job's details before the filter.  When
    the page cannot be opened nothing is logged, when its timeout cannot
    be set the page stays open, and in both cases the exception goes to the
    caller. *)
Theorem job_page_is_closed_once_opened (job : JobPosting.t) (st : St W) :
  page_bracket config Br in_page st (_apply_to_job config Br job st)
  /\ page_bracket config Br in_page st (_enrich_job config Br job st).
Proof.
  split.
  - apply apply_to_job_bracket; [apply apply_body_in_page | reflexivity].
  - apply enrich_job_bracket. apply enrich_body_in_page.
Qed.

(** A run whose browser could not be launched raises and logs nothing.
    Otherwise the browser is closed exactly once, after everything the
    session did, whether the session raised or not; the results are written
    only after that, and only when the run returns them. *)
Theorem run_closes_browser_once (Se : Session W) (st : St W) :
  (exists e, (launch Se st.1).1 = Raise e
             /\ (run config Br Se st).1 = Raise e
             /\ (run config Br Se st).2.2 = st.2)
  \/ (exists mid,
        (launch Se st.1).1 = Ok tt
        /\ (run config Br Se st).2.2
           = st.2 ++ EvLaunch :: mid ++ EvCloseBrowser :: written (run config Br Se st).1
        /\ forallb in_session mid = true).
Proof.
  apply run_shape; try reflexivity.
  - intros job. apply (appends_weaken in_page); [|apply apply_body_in_page].
    intros e. now destruct e.
  - intros seed. apply (appends_weaken in_page); [|apply enrich_body_in_page].
    intros e. now destruct e.
Qed.

(** The results a run returns hold at most [max_applications] results that
    count as applications (applied, ready_to_submit, dry_run_ready), and none
    when the limit is zero or negative. *)
Theorem run_respects_application_cap (Se : Session W) (st : St W)
    (returned : list ApplicationResult.t) :
  (run config Br Se st).1 = Ok returned ->
  count_ready returned
  <= Z.max 0 (Settings.max_applications (Settings.application config)).
Proof.
  unfold run. intros H.
  destruct (call (launch Se) _ st) as [[[] | e] sa]; [|discriminate H].
  destruct (bind_act _ _ sa) as [[found | e] sb]; cycle 1.
  { destruct (attempt (browser_close Se) EvCloseBrowser sb) as [[[] | e'] sd];
      discriminate H. }
  destruct (run_jobs_counts found [] 0 sb) as (new & Hres & Hcount & Hcap).
  destruct (run_jobs config Br found [] 0 sb) as [final sc].
  cbn [fst] in Hres, Hcount, Hcap.
  destruct (attempt (browser_close Se) EvCloseBrowser sc) as [[[] | e] sd];
    [|discriminate H].
  destruct (raised final) as [e|]; [discriminate H|].
  destruct (call (write_results Se (results final)) _ _) as [[[] | e] se];
    [|discriminate H].
  cbn [fst] in H. injection H as <-. rewrite Hres. cbn [app]. lia.
Qed.

End Loop.

(** With the flag [--dry-run] on the command line, whatever the loaded
    configuration says, a whole run never presses a button found by the
    submit patterns. *)
Theorem dry_run_flag_never_submits {W : Type} (args : Cli.Args)
    (config : Settings.AutomationConfig) (Br : Browser W) (Se : Session W) (st : St W) :
  Cli.arg_dry_run args = true ->
  exists evs,
    (run (Cli.apply_overrides args config) Br Se st).2.2 = st.2 ++ evs
    /\ forallb no_submit_click evs = true.
Proof.
  intros Hflag.
  assert (Hguard : Settings.dry_run (Settings.application (Cli.apply_overrides args config))
                   || negb (Settings.auto_submit
                              (Settings.application (Cli.apply_overrides args config)))
                   = true).
  { unfold Cli.apply_overrides. rewrite Hflag.
    destruct (Cli.arg_max_applications args), (Cli.arg_headless args); reflexivity. }
  destruct (run_shape (Cli.apply_overrides args config) Br no_submit_click) with
    (Se := Se) (st := st) as [(e & _ & _ & E) | (mid & _ & E & F)]; try reflexivity.
  - intros job st0 r st1 H.
    apply (apply_body_guarded _ Br job Hguard) in H as [evs [E [F _]]].
    now exists evs.
  - intros seed. apply (appends_weaken quiet); [|apply enrich_body_quiet].
    intros e He. unfold quiet in He. apply andb_prop in He. apply He.
  - exists []. now rewrite app_nil_r.
  - exists (EvLaunch :: mid ++ EvCloseBrowser :: written (run (Cli.apply_overrides args config) Br Se st).1).
    split; [exact E|]. cbn [forallb]. rewrite forallb_app, F. cbn [forallb].
    now destruct (run _ _ _ _).1.
Qed.

Lemma job_page_is_closed_once_opened_witness :
  (exists e,
      (_apply_to_job Examples.config_keywords (Examples.browser_pages 0)
         (Examples.seed_job "42" "Software Engineering Intern") (0%nat, [])).1 = Raise e
      /\ (_apply_to_job Examples.config_keywords (Examples.browser_pages 0)
            (Examples.seed_job "42" "Software Engineering Intern") (0%nat, [])).2.2 = [])
  /\ List.last (_enrich_job Examples.config_keywords Examples.browser_two_steps
             (Examples.seed_job "42" "Software Engineering Intern") (0%nat, [])).2.2
       EvNewPage
     = EvClosePage.
Proof.
  split.
  - destruct (proj1 (job_page_is_closed_once_opened Examples.config_keywords
                       (Examples.browser_pages 0)
                       (Examples.seed_job "42" "Software Engineering Intern") (0%nat, [])))
      as [(e & He & _ & E) | [(e & w & _ & Ht & _) | (mid & E & _)]].
    + now exists e.
    + discriminate Ht.
    + vm_compute in E. now destruct mid.
  - destruct (proj2 (job_page_is_closed_once_opened Examples.config_keywords
                       Examples.browser_two_steps
                       (Examples.seed_job "42" "Software Engineering Intern") (0%nat, [])))
      as [(e & He & _) | [(e & w & He & _) | (mid & E & _)]].
    + vm_compute in He. discriminate He.
    + vm_compute in He. discriminate He.
    + rewrite E. cbn [app]. rewrite !app_comm_cons. apply List.last_last.
Defined.

Lemma run_respects_application_cap_witness :
  count_ready
    (results (run_jobs Examples.config_keywords Examples.browser_two_steps
                [Examples.seed_job "42" "Software Engineering Intern";
                 Examples.seed_job "43" "Software Intern";
                 Examples.seed_job "44" "Intern, software tools"] [] 0 (0%nat, [])).1)
  <= Z.max 0 (Settings.max_applications (Settings.application Examples.config_keywords)).
Proof.
  apply (run_respects_application_cap Examples.config_keywords
           Examples.browser_two_steps
           (Examples.session_finding
              [Examples.seed_job "42" "Software Engineering Intern";
               Examples.seed_job "43" "Software Intern";
               Examples.seed_job "44" "Intern, software tools"])
           (0%nat, [])).
  vm_compute. reflexivity.
Defined.

Lemma dry_run_flag_never_submits_witness :
  exists evs,
    (run (Cli.apply_overrides Examples.args_all Examples.config_live)
       Examples.browser_two_steps
       (Examples.session_finding [Examples.seed_job "42" "Software Engineering Intern"])
       (0%nat, [])).2.2 = evs
    /\ forallb no_submit_click evs = true.
Proof.
  destruct (dry_run_flag_never_submits Examples.args_all Examples.config_live
              Examples.browser_two_steps
              (Examples.session_finding
                 [Examples.seed_job "42" "Software Engineering Intern"])
              (0%nat, []) eq_refl) as (evs & E & F).
  exists evs. split; [exact E | exact F].
Defined.

End RunFacts.

(** ** Signing in *)

Module LoginFacts.
Import Py PyStr BotHelpers Login.

Section Generic.
Context {W : Type}.

Lemma login_bind_inv {A B : Type} (m : M W A) (k : A -> M W B) st r st' :
  bind m k st = (r, st') ->
  (exists e, m st = (Raise e, st') /\ r = Raise e)
  \/ (exists a st1, m st = (Ok a, st1) /\ k a st1 = (r, st')).
Proof.
  unfold bind. destruct (m st) as [[a | e] st1]; intros H.
  - right. now exists a, st1.
  - left. injection H as <- <-. now exists e.
Qed.

Lemma login_shows_bind {A B : Type} (R1 : result A -> list Event -> Prop)
    (R2 : A -> result B -> list Event -> Prop) (R : result B -> list Event -> Prop)
    (m : M W A) (k : A -> M W B) :
  shows R1 m -> (forall a, shows (R2 a) (k a)) ->
  (forall e evs, R1 (Raise e) evs -> R (Raise e) evs) ->
  (forall a e1 r e2, R1 (Ok a) e1 -> R2 a r e2 -> R r (e1 ++ e2)) ->
  shows R (bind m k).
Proof.
  intros Hm Hk Hraise Hok st r st' H.
  apply login_bind_inv in H as [[e [H ->]] | [a [st1 [H1 H2]]]].
  - apply Hm in H as [evs [E F]]. exists evs. split; [exact E | now apply Hraise].
  - apply Hm in H1 as [e1 [E1 F1]]. apply Hk in H2 as [e2 [E2 F2]].
    exists (e1 ++ e2). rewrite E2, E1, <- app_assoc. split; [reflexivity|].
    now apply (Hok a).
Qed.

Lemma login_shows_ret {A : Type} (R : result A -> list Event -> Prop) (a : A) :
  R (Ok a) [] -> shows (W:=W) R (ret a).
Proof.
  intros Ha st r st' H. injection H as <- <-. exists []. now rewrite app_nil_r.
Qed.

Lemma login_shows_raise {A : Type} (R : result A -> list Event -> Prop) (e : exn) :
  R (Raise e) [] -> shows (W:=W) (A:=A) R (raise e).
Proof.
  intros Ha st r st' H. injection H as <- <-. exists []. now rewrite app_nil_r.
Qed.

Lemma shows_call {O A : Type} (R : result A -> list Event -> Prop) (f : W -> O * W)
    (ev : Event) (after : O -> result A) :
  (forall o, R (after o) [ev]) -> shows R (call f ev after).
Proof.
  intros Hev st r st' H. unfold call in H. destruct (f st.1) as [o w].
  injection H as <- <-. exists [ev]. split; [reflexivity | apply Hev].
Qed.

Lemma shows_ask {A : Type} (R : result A -> list Event -> Prop) (f : W -> A * W)
    (ev : A -> Event) :
  (forall a, R (Ok a) [ev a]) -> shows R (ask f ev).
Proof.
  intros Hev st r st' H. unfold ask in H. destruct (f st.1) as [a w].
  injection H as <- <-. exists [ev a]. split; [reflexivity | apply Hev].
Qed.

Lemma shows_weaken {A : Type} (R R' : result A -> list Event -> Prop) (m : M W A) :
  (forall r evs, R r evs -> R' r evs) -> shows R m -> shows R' m.
Proof.
  intros HR Hm st r st' H. apply Hm in H as [evs [E F]]. exists evs. auto.
Qed.

(** Every event [m] appends satisfies [Q]. *)
Lemma only_bind {A B : Type} (Q : Event -> Prop) (m : M W A) (k : A -> M W B) :
  shows (fun _ evs => Forall Q evs) m ->
  (forall a, shows (fun _ evs => Forall Q evs) (k a)) ->
  shows (fun _ evs => Forall Q evs) (bind m k).
Proof.
  intros Hm Hk.
  apply (login_shows_bind (fun _ evs => Forall Q evs) (fun _ _ evs => Forall Q evs));
    [exact Hm | exact Hk | auto |].
  intros a e1 r e2 H1 H2. apply Forall_app. now split.
Qed.

(** [m] calls [_fill_first] at most [n] times. *)
Lemma fills_bind {A B : Type} (n1 n2 : nat) (m : M W A) (k : A -> M W B) :
  shows (fun _ evs => (fills evs <= n1)%nat) m ->
  (forall a, shows (fun _ evs => (fills evs <= n2)%nat) (k a)) ->
  shows (fun _ evs => (fills evs <= n1 + n2)%nat) (bind m k).
Proof.
  intros Hm Hk.
  apply (login_shows_bind (fun _ evs => (fills evs <= n1)%nat)
           (fun _ _ evs => (fills evs <= n2)%nat));
    [exact Hm | exact Hk | intros; lia |].
  intros a e1 r e2 H1 H2. unfold fills in *.
  rewrite List.filter_app, length_app. lia.
Qed.

End Generic.

Lemma saw_signed_in_grows_l (e1 e2 : list Event) :
  saw_signed_in e1 -> saw_signed_in (e1 ++ e2).
Proof. intros (u & Hin & Hu). exists u. split; [apply in_or_app; now left | exact Hu]. Qed.

Lemma saw_signed_in_grows_r (e1 e2 : list Event) :
  saw_signed_in e2 -> saw_signed_in (e1 ++ e2).
Proof. intros (u & Hin & Hu). exists u. split; [apply in_or_app; now right | exact Hu]. Qed.

Ltac other_event := intros; constructor; [exact I | constructor].

Section Flow.
Context {W : Type}.
Variable config : Settings.AutomationConfig.
Variable P : Page W.

Lemma attempt_rounds_due (rounds : nat) :
  shows (fun _ evs => Forall (fill_is_due config) evs) (attempt_rounds config P rounds).
Proof.
  induction rounds as [|rounds IH]; cbn [attempt_rounds].
  { apply login_shows_ret. constructor. }
  apply only_bind; [apply shows_ask; other_event | intros closed].
  destruct closed; [apply login_shows_raise; constructor|].
  apply only_bind; [apply shows_ask; other_event | intros current_url].
  destruct (_is_authenticated_url current_url) eqn:Hauth; [apply login_shows_ret; constructor|].
  destruct (str_in "app.joinhandshake.com" (lower current_url)) eqn:Hhost; cbn [negb];
    [|apply login_shows_ret; constructor].
  apply only_bind.
  { apply shows_call. intros o. constructor; [|constructor].
    cbn [fill_is_due]. split; [exact Hhost|]. split; [exact Hauth|]. left. now split. }
  intros _. apply only_bind.
  { apply shows_call. intros o. constructor; [|constructor].
    cbn [fill_is_due]. split; [exact Hhost|]. split; [exact Hauth|]. right. now split. }
  intros _. apply only_bind; [apply shows_ask; other_event | intros clicked].
  apply only_bind.
  { destruct clicked; cbn [negb];
      [apply login_shows_ret; constructor | apply shows_call; other_event]. }
  intros clicked'. apply only_bind.
  { destruct clicked'; cbn [negb];
      [apply login_shows_ret; constructor | apply shows_call; other_event]. }
  intros _. apply only_bind; [apply shows_call; other_event | intros _; exact IH].
Qed.

Lemma wait_seconds_due (left : nat) (second : Z) :
  shows (fun _ evs => Forall (fill_is_due config) evs) (wait_seconds config P left second).
Proof.
  revert second. induction left as [|left IH]; intros second; cbn [wait_seconds].
  { apply login_shows_raise. constructor. }
  apply only_bind; [apply shows_ask; other_event | intros closed].
  destruct closed; [apply login_shows_raise; constructor|].
  apply only_bind; [apply shows_ask; other_event | intros current].
  destruct (_is_authenticated_url current); [apply login_shows_ret; constructor|].
  apply only_bind.
  { destruct (second mod 5 =? 0); [apply attempt_rounds_due | apply login_shows_ret; constructor]. }
  intros _. apply only_bind; [apply shows_call; other_event | intros _; apply IH].
Qed.

Lemma attempt_rounds_fills (rounds : nat) :
  shows (fun _ evs => (fills evs <= 2 * rounds)%nat) (attempt_rounds config P rounds).
Proof.
  induction rounds as [|rounds IH]; cbn [attempt_rounds].
  { apply login_shows_ret. cbn. lia. }
  apply (shows_weaken
           (fun _ evs => (fills evs <= 0 + (0 + (1 + (1 + (0 + (0 + (0 + (0 + 2 * rounds))))))))%nat));
    [intros; lia|].
  apply fills_bind; [apply shows_ask; intros; cbn; lia | intros closed].
  destruct closed; [apply login_shows_raise; cbn; lia|].
  apply fills_bind; [apply shows_ask; intros; cbn; lia | intros current_url].
  destruct (_is_authenticated_url current_url); [apply login_shows_ret; cbn; lia|].
  destruct (negb _); [apply login_shows_ret; cbn; lia|].
  apply fills_bind; [apply shows_call; intros; cbn; lia | intros _].
  apply fills_bind; [apply shows_call; intros; cbn; lia | intros _].
  apply fills_bind; [apply shows_ask; intros; cbn; lia | intros clicked].
  apply fills_bind.
  { destruct (negb clicked); [apply shows_call | apply login_shows_ret]; intros; cbn; lia. }
  intros clicked'. apply fills_bind.
  { destruct (negb clicked'); [apply shows_call | apply login_shows_ret]; intros; cbn; lia. }
  intros _. apply fills_bind; [apply shows_call; intros; cbn; lia | intros _; exact IH].
Qed.

Lemma wait_seconds_fills (left : nat) (second : Z) :
  shows (fun _ evs => (fills evs <= 2 * due left second)%nat)
    (wait_seconds config P left second).
Proof.
  revert second. induction left as [|left IH]; intros second; cbn [wait_seconds due].
  { apply login_shows_raise. cbn. lia. }
  apply (shows_weaken
           (fun _ evs =>
              (fills evs <= 0 + (0 + (2 * (if (second mod 5 =? 0)%Z then 1 else 0)
                                      + (0 + 2 * due left (second + 1)%Z))))%nat));
    [intros; lia|].
  apply fills_bind; [apply shows_ask; intros; cbn; lia | intros closed].
  destruct closed; [apply login_shows_raise; cbn; lia|].
  apply fills_bind; [apply shows_ask; intros; cbn; lia | intros current].
  destruct (_is_authenticated_url current); [apply login_shows_ret; cbn; lia|].
  apply fills_bind.
  { destruct (second mod 5 =? 0);
      [apply (attempt_rounds_fills 1) | apply login_shows_ret; cbn; lia]. }
  intros _. apply fills_bind; [apply shows_call; intros; cbn; lia | intros _; apply IH].
Qed.

Lemma wait_seconds_signed_in (left : nat) (second : Z) :
  shows (fun r evs => (exists a, r = Ok a) -> saw_signed_in evs)
    (wait_seconds config P left second).
Proof.
  revert second. induction left as [|left IH]; intros second; cbn [wait_seconds].
  { apply login_shows_raise. intros [a Ha]. discriminate Ha. }
  assert (Hlater : forall (A : Type) (m : M W A) (k : A -> M W unit),
             shows (fun _ _ => True) m ->
             (forall a, shows (fun r evs => (exists b, r = Ok b) -> saw_signed_in evs) (k a)) ->
             shows (fun r evs => (exists b, r = Ok b) -> saw_signed_in evs) (bind m k)).
  { intros A m k Hm Hk.
    apply (login_shows_bind (fun _ _ => True)
             (fun _ r evs => (exists b, r = Ok b) -> saw_signed_in evs));
      [exact Hm | exact Hk | |].
    - intros e evs _ [b Hb]. discriminate Hb.
    - intros a e1 r e2 _ H2 Hr. apply saw_signed_in_grows_r. now apply H2. }
  apply Hlater; [apply shows_ask; auto | intros closed].
  destruct closed; [apply login_shows_raise; intros [a Ha]; discriminate Ha|].
  apply (login_shows_bind (fun r evs => forall u, r = Ok u -> evs = [EvUrl u])
           (fun u r evs => (exists b, r = Ok b) ->
                           _is_authenticated_url u = true \/ saw_signed_in evs)).
  - apply shows_ask. intros u u' [= <-]. reflexivity.
  - intros current. destruct (_is_authenticated_url current) eqn:Hauth.
    + apply login_shows_ret. intros _. now left.
    + apply (shows_weaken (fun r evs => (exists b, r = Ok b) -> saw_signed_in evs));
        [intros r evs H Hr; right; now apply H|].
      apply Hlater.
      { apply (shows_weaken (fun _ evs => Forall (fill_is_due config) evs)); [auto|].
        destruct (second mod 5 =? 0);
          [apply attempt_rounds_due | apply login_shows_ret; constructor]. }
      intros _. apply Hlater; [apply shows_call; auto | intros _; apply IH].
  - intros e evs _ [b Hb]. discriminate Hb.
  - intros u e1 r e2 H1 H2 Hr. rewrite (H1 u eq_refl).
    destruct (H2 Hr) as [Hauth | Hseen].
    + exists u. split; [now left | exact Hauth].
    + now apply (saw_signed_in_grows_r [EvUrl u]).
Qed.

(** The credentials go only to Handshake pages that ask for them.  In all
    that [_login] does, [_fill_first] is called only with the e-mail for the
    e-mail fields or the password for the password fields, and only when
    the URL read just before holds "app.joinhandshake.com" and does not
    count as signed in. *)
Theorem credentials_go_only_to_handshake_pages (st : St W) :
  exists evs,
    (_login config P st).2.2 = st.2 ++ evs
    /\ Forall (fill_is_due config) evs.
Proof.
  assert (H : shows (fun _ evs => Forall (fill_is_due config) evs) (_login config P)).
  { unfold _login, _attempt_login_submission, _wait_for_login_completion.
    apply only_bind; [apply shows_call; other_event | intros _].
    apply only_bind; [apply attempt_rounds_due | intros _].
    apply only_bind; [apply wait_seconds_due | intros _].
    apply only_bind; [apply shows_call; other_event | intros _].
    apply shows_call; other_event. }
  destruct (_login config P st) as [r st'] eqn:E. now apply H in E.
Qed.

(** Signing in hands the credentials to the page at most 39 times: three
    rounds at the start and one every fifth second of the 180 the bot
    waits, two calls of [_fill_first] each. *)
Theorem login_fills_at_most_78_times (st : St W) :
  exists evs,
    (_login config P st).2.2 = st.2 ++ evs
    /\ (fills evs <= 78)%nat.
Proof.
  assert (H : shows (fun _ evs => (fills evs <= 0 + (2 * 3 + (2 * due 180 0 + (0 + 0))))%nat)
                (_login config P)).
  { unfold _login, _attempt_login_submission, _wait_for_login_completion.
    apply fills_bind; [apply shows_call; intros; cbn; lia | intros _].
    apply fills_bind; [apply (attempt_rounds_fills 3) | intros _].
    apply fills_bind; [apply (wait_seconds_fills 180 0) | intros _].
    apply fills_bind; [apply shows_call; intros; cbn; lia | intros _].
    apply shows_call; intros; cbn; lia. }
  destruct (_login config P st) as [r st'] eqn:E. apply H in E as [evs [E F]].
  exists evs. split; [exact E|].
  assert (Hdue : due 180 0 = 36%nat) by (vm_compute; reflexivity).
  rewrite Hdue in F. lia.
Qed.

(** [_login] returns only after the bot has read a URL that counts as
    signed in; otherwise it raises. *)
Theorem login_returns_only_when_signed_in (st st' : St W) :
  _login config P st = (Ok tt, st') ->
  exists evs, st'.2 = st.2 ++ evs /\ saw_signed_in evs.
Proof.
  assert (H : shows (fun r evs => (exists a, r = Ok a) -> saw_signed_in evs)
                (_login config P)).
  { unfold _login, _attempt_login_submission, _wait_for_login_completion.
    assert (Hlater : forall (A : Type) (m : M W A) (k : A -> M W unit),
               shows (fun _ _ => True) m ->
               (forall a, shows (fun r evs => (exists b, r = Ok b) -> saw_signed_in evs)
                            (k a)) ->
               shows (fun r evs => (exists b, r = Ok b) -> saw_signed_in evs) (bind m k)).
    { intros A m k Hm Hk.
      apply (login_shows_bind (fun _ _ => True)
               (fun _ r evs => (exists b, r = Ok b) -> saw_signed_in evs));
        [exact Hm | exact Hk | |].
      - intros e evs _ [b Hb]. discriminate Hb.
      - intros a e1 r e2 _ H2 Hr. apply saw_signed_in_grows_r. now apply H2. }
    apply Hlater; [apply shows_call; auto | intros _].
    apply Hlater.
    { apply (shows_weaken (fun _ evs => Forall (fill_is_due config) evs)); [auto|].
      apply attempt_rounds_due. }
    intros _.
    apply (login_shows_bind (fun r evs => (exists a, r = Ok a) -> saw_signed_in evs)
             (fun _ _ _ => True)).
    - apply wait_seconds_signed_in.
    - intros _.
      apply (login_shows_bind (fun _ _ => True) (fun _ _ _ => True) (fun _ _ => True));
        [apply shows_call; auto | intros _; apply shows_call; auto | auto | auto].
    - intros e evs _ [b Hb]. discriminate Hb.
    - intros a e1 r e2 H1 _ _. apply saw_signed_in_grows_l. apply H1. now exists a. }
  intros E. apply H in E as [evs [E F]]. exists evs. split; [exact E|].
  apply F. now exists tt.
Qed.

End Flow.

Lemma login_returns_only_when_signed_in_witness :
  exists evs,
    (_login Examples.config_live MoreExamples.page_signed_in (0%nat, [])).2.2 = [] ++ evs
    /\ saw_signed_in evs.
Proof.
  apply (login_returns_only_when_signed_in Examples.config_live
           MoreExamples.page_signed_in (0%nat, [])
           (_login Examples.config_live MoreExamples.page_signed_in (0%nat, [])).2).
  vm_compute. reflexivity.
Defined.

End LoginFacts.

(** ** The prompt of a form field *)

Module PromptFacts.
Import Py PyStr Prompt.

Lemma result_bind_inv {A B : Type} (m : result A) (k : A -> result B) (b : B) :
  bind m k = Ok b -> exists a, m = Ok a /\ k a = Ok b.
Proof. destruct m as [a | e]; [intros H; now exists a | discriminate]. Qed.

Lemma first_attribute_truthy (locator : Field) (attrs : list string) (value : string) :
  first_attribute locator attrs = Ok (Some value) -> truthy value = true.
Proof.
  induction attrs as [|attr rest IH]; cbn [first_attribute]; [discriminate|].
  intros H. apply result_bind_inv in H as (v & _ & H).
  destruct (truthy (strip (default "" v))) eqn:Ht; [|now apply IH].
  now injection H as <-.
Qed.

Lemma first_attribute_returns (locator : Field) (attrs : list string) :
  (forall attr e, get_attribute locator attr <> Raise e) ->
  exists r, first_attribute locator attrs = Ok r.
Proof.
  intros Hattr. induction attrs as [|attr rest IH]; cbn [first_attribute]; [now eexists|].
  destruct (get_attribute locator attr) as [v | e] eqn:Hv; [|now apply Hattr in Hv].
  cbn [bind]. destruct (truthy _); [now eexists | exact IH].
Qed.

Lemma prompt_truthy (locator : Field) (s : string) :
  _prompt_for_input locator = Ok s -> truthy s = true.
Proof.
  unfold _prompt_for_input. intros H.
  apply result_bind_inv in H as (v & _ & H). apply result_bind_inv in H as (labelled & Hl & H).
  destruct labelled as [text|].
  - injection H as <-.
    destruct (truthy (strip (default "" v))); [|discriminate Hl].
    apply result_bind_inv in Hl as (label & _ & Hl).
    destruct label as [inner|]; [|discriminate Hl].
    destruct (truthy (strip (default "" inner))) eqn:Ht; [|discriminate Hl].
    now injection Hl as <-.
  - apply result_bind_inv in H as (named & Hn & H). destruct named as [value|].
    + injection H as <-. now apply first_attribute_truthy in Hn.
    + destruct (closest_text locator) as [[text|] | e]; injection H as <-;
        [|reflexivity | reflexivity].
      destruct (truthy text) eqn:Ht; [exact Ht | reflexivity].
Qed.

(** [_prompt_for_input] never returns an empty prompt, and it raises only
    what [get_attribute] or the look-up of the label raise: an exception of
    [evaluate] gives the prompt "Application question". *)
Theorem prompt_is_never_empty (locator : Field) :
  (forall s, _prompt_for_input locator = Ok s -> truthy s = true)
  /\ ((forall attr e, get_attribute locator attr <> Raise e) ->
      (forall input_id e, label_for locator input_id <> Raise e) ->
      exists s, _prompt_for_input locator = Ok s).
Proof.
  split; [apply prompt_truthy|].
  intros Hattr Hlabel. unfold _prompt_for_input.
  destruct (get_attribute locator "id") as [v | e] eqn:Hv; [|now apply Hattr in Hv].
  cbn [bind].
  assert (Hl : exists labelled,
             (if truthy (strip (default "" v))
              then label <- label_for locator (strip (default "" v)) ;;
                   match label with
                   | Some inner_text =>
                       Ok (if truthy (strip (default "" inner_text))
                           then Some (strip (default "" inner_text)) else None)
                   | None => Ok None
                   end
              else Ok None) = Ok labelled).
  { destruct (truthy (strip (default "" v))); [|now eexists].
    destruct (label_for locator (strip (default "" v))) as [label | e] eqn:Hlab;
      [|now apply Hlabel in Hlab].
    cbn [bind]. destruct label; now eexists. }
  destruct Hl as [labelled ->]. cbn [bind]. destruct labelled; [now eexists|].
  destruct (first_attribute_returns locator ["aria-label"; "placeholder"; "name"] Hattr)
    as [named ->].
  cbn [bind]. destruct named; [now eexists|].
  destruct (closest_text locator) as [[text|] | e]; now eexists.
Qed.

Lemma radio_labels_are_prompts (group : list Field) (i : Z) (labels : list string) :
  radio_labels group i = Ok labels ->
  labels = visible_prompts group /\ Forall (fun label => truthy label = true) labels.
Proof.
  revert i labels. induction group as [|radio rest IH]; intros i labels;
    cbn [radio_labels visible_prompts].
  - intros [= <-]. split; [reflexivity | constructor].
  - destruct (is_visible radio); cbn [negb]; [|apply IH].
    intros H. apply result_bind_inv in H as (label & Hp & H).
    apply result_bind_inv in H as (v & _ & H). apply result_bind_inv in H as (others & Hr & H).
    injection H as <-. rewrite Hp. apply prompt_truthy in Hp.
    apply IH in Hr as [-> Hall].
    assert (Hor : forall other, or_else label other = label).
    { intros other. unfold or_else. now rewrite Hp. }
    rewrite Hor. split; [reflexivity | now constructor].
Qed.

(** The labels [_radio_group_labels] returns are the prompts of the visible
    radios among the first 30 of the group, none of them empty: the value
    of a radio and "Option n" are never used in place of a prompt. *)
Theorem radio_labels_are_the_prompts (group : list Field) (labels : list string) :
  _radio_group_labels group = Ok labels ->
  labels = visible_prompts (firstn 30 group)
  /\ Forall (fun label => truthy label = true) labels
  /\ (length labels <= 30)%nat.
Proof.
  unfold _radio_group_labels. intros H.
  assert (Hn : firstn (Z.to_nat (Z.min (Z.of_nat (length group)) 30)) group
               = firstn 30 group).
  { destruct (Z.min_spec (Z.of_nat (length group)) 30) as [[Hlt ->] | [Hge ->]].
    - rewrite Nat2Z.id, firstn_all. symmetry. apply firstn_all2. lia.
    - reflexivity. }
  rewrite Hn in H. apply radio_labels_are_prompts in H as [-> Hall].
  split; [reflexivity|]. split; [exact Hall|].
  assert (Hlen : forall g, (length (visible_prompts g) <= length g)%nat).
  { induction g as [|r g IHg]; cbn [visible_prompts length]; [lia|].
    destruct (is_visible r); [|lia].
    destruct (_prompt_for_input r); cbn [length]; lia. }
  specialize (Hlen (firstn 30 group)). rewrite length_firstn in Hlen. lia.
Qed.

Lemma prompt_is_never_empty_witness :
  truthy "Application question" = true.
Proof.
  apply (proj1 (prompt_is_never_empty MoreExamples.field_bare)). reflexivity.
Defined.

Lemma radio_labels_are_the_prompts_witness :
  ["Yes"; "Application question"]
  = visible_prompts (firstn 30 [MoreExamples.field_named "Yes"; MoreExamples.field_hidden;
                                MoreExamples.field_bare])
  /\ Forall (fun label => truthy label = true) ["Yes"; "Application question"]
  /\ (length ["Yes"; "Application question"] <= 30)%nat.
Proof.
  apply (radio_labels_are_the_prompts
           [MoreExamples.field_named "Yes"; MoreExamples.field_hidden;
            MoreExamples.field_bare]).
  vm_compute. reflexivity.
Defined.

End PromptFacts.

(** ** Choosing among the options of a select or a radio group *)

Module OptionChoice.
Import Py PyStr PyStrFacts PyStrMore BotHelpers QuestionAnswererFacts Prompt PromptFacts.

Lemma best_choice_listed (answer : string) (options : list string) :
  _best_choice answer options = "" \/ In (_best_choice answer options) options.
Proof. exact (match_choice_listed answer options). Qed.

Lemma index_of_lt (x : string) (xs : list string) :
  In x xs -> (index_of x xs < length xs)%nat.
Proof.
  induction xs as [|y xs IH]; intros Hin; [destruct Hin|].
  cbn [index_of length]. destruct (String.eqb y x) eqn:He; [lia|].
  destruct Hin as [-> | Hin]; [now rewrite String.eqb_refl in He|].
  specialize (IH Hin). lia.
Qed.

Lemma nth_index_of (x : string) (xs : list string) :
  In x xs -> nth (index_of x xs) xs "" = x.
Proof.
  induction xs as [|y xs IH]; intros Hin; [destruct Hin|].
  cbn [index_of]. destruct (String.eqb y x) eqn:He.
  - now apply String.eqb_eq in He.
  - destruct Hin as [-> | Hin]; [now rewrite String.eqb_refl in He|].
    cbn [nth]. now apply IH.
Qed.

Lemma list_in_In (x : string) (xs : list string) : list_in x xs = true <-> In x xs.
Proof.
  unfold list_in. rewrite existsb_exists. split.
  - intros [y [Hy Heq]]. apply String.eqb_eq in Heq. now subst.
  - intros H. exists x. split; [exact H | apply String.eqb_refl].
Qed.

Lemma radio_index_lt (answer : string) (options : list string) :
  options <> [] -> (radio_index answer options < length options)%nat.
Proof.
  intros Hne. unfold radio_index.
  set (selected := if truthy answer then _ else _).
  destruct (list_in selected options) eqn:Hin.
  - apply index_of_lt. now apply list_in_In.
  - destruct options; [congruence | cbn; lia].
Qed.

Lemma visible_prompts_length (group : list Field) :
  (length (visible_prompts group) <= length group)%nat.
Proof.
  induction group as [|r g IH]; cbn [visible_prompts length]; [lia|].
  destruct (is_visible r); [|lia].
  destruct (_prompt_for_input r); cbn [length]; lia.
Qed.

(** With every radio visible, the labels are the prompts of the radios,
    one for one. *)
Lemma radio_labels_aligned (group : list Field) (i : Z) (labels : list string) :
  radio_labels group i = Ok labels ->
  Forall (fun radio => is_visible radio = true) group ->
  Forall2 (fun radio label => _prompt_for_input radio = Ok label) group labels.
Proof.
  revert i labels. induction group as [|radio rest IH]; intros i labels;
    cbn [radio_labels].
  - intros [= <-] _. constructor.
  - intros H Hall. inversion Hall as [|? ? Hv Hrest]; subst.
    rewrite Hv in H. cbn [negb] in H.
    apply result_bind_inv in H as (label & Hp & H).
    apply result_bind_inv in H as (v & _ & H).
    apply result_bind_inv in H as (others & Hr & H).
    injection H as <-. pose proof (prompt_truthy _ _ Hp) as Ht.
    unfold or_else at 1. rewrite Ht. constructor; [exact Hp|].
    now apply (IH (i + 1)).
Qed.

Lemma Forall2_nth_error {A B : Type} (R : A -> B -> Prop) (xs : list A) (ys : list B)
    (n : nat) (y : B) :
  Forall2 R xs ys -> nth_error ys n = Some y ->
  exists x, nth_error xs n = Some x /\ R x y.
Proof.
  intros H. revert n. induction H as [|x0 y0 xs ys Hxy _ IH]; intros n Hn.
  - destruct n; discriminate Hn.
  - destruct n as [|n]; cbn [nth_error] in *.
    + injection Hn as <-. now exists x0.
    + now apply IH.
Qed.

(** Whatever the answer is, the label picked for a select is one of its
    option labels; when the answer matches an option, that option is the
    one picked.  For a radio group the position picked is that of one of
    the labels read from the group, the matching one when the answer
    matches, and it lies inside the group.  The position is counted among
    the labels, which leave out the radios that are not visible, and is
    used among all radios of the group: the radio checked is the one the
    picked label belongs to when the group has at most 30 radios, all of
    them visible. *)
Theorem picked_option_is_listed (answer : string) (options : list string)
    (group : list Field) (labels : list string) :
  (options <> [] ->
   exists label, select_label answer options = Some label /\ In label options)
  /\ (_best_choice answer options <> "" ->
      select_label answer options = Some (_best_choice answer options))
  /\ (_radio_group_labels group = Ok labels -> labels <> [] ->
      let index := radio_index answer labels in
      (index < length group)%nat
      /\ (exists label, nth_error labels index = Some label
                        /\ (_best_choice answer labels <> "" ->
                            label = _best_choice answer labels)
                        /\ ((length group <= 30)%nat ->
                            Forall (fun radio => is_visible radio = true) group ->
                            exists radio, nth_error group index = Some radio
                                          /\ _prompt_for_input radio = Ok label))).
Proof.
  split; [|split].
  - intros Hne. destruct options as [|first rest]; [congruence|].
    unfold select_label.
    set (selected := if truthy answer then _ else "").
    assert (Hsel : selected = "" \/ In selected (first :: rest)).
    { unfold selected. destruct (truthy answer); [apply best_choice_listed | now left]. }
    destruct (truthy selected) eqn:Ht; cbn [negb].
    + exists selected. split; [reflexivity|].
      destruct Hsel as [He | Hin]; [rewrite He in Ht; discriminate | exact Hin].
    + exists first. split; [reflexivity | now left].
  - intros Hbest.
    assert (Ha : truthy answer = true).
    { destruct (truthy answer) eqn:Ha; [reflexivity|].
      exfalso. apply Hbest. unfold _best_choice. now rewrite Ha. }
    assert (Hin : In (_best_choice answer options) options).
    { destruct (best_choice_listed answer options); [contradiction | assumption]. }
    unfold select_label. destruct options as [|first rest]; [destruct Hin|].
    rewrite Ha. now rewrite (proj2 (truthy_true _) Hbest).
  - intros Hlabels Hne index. subst index.
    pose proof (radio_index_lt answer labels Hne) as Hlt.
    unfold _radio_group_labels in Hlabels.
    assert (Hn : firstn (Z.to_nat (Z.min (Z.of_nat (length group)) 30)) group
                 = firstn 30 group).
    { destruct (Z.min_spec (Z.of_nat (length group)) 30) as [[Hl ->] | [Hg ->]].
      - rewrite Nat2Z.id, firstn_all. symmetry. apply firstn_all2. lia.
      - reflexivity. }
    rewrite Hn in Hlabels.
    pose proof (radio_labels_are_prompts _ _ _ Hlabels) as [Hvis _].
    split.
    { pose proof (visible_prompts_length (firstn 30 group)) as Hlen.
      rewrite <- Hvis, length_firstn in Hlen. lia. }
    destruct (nth_error labels (radio_index answer labels)) as [label|] eqn:Hnth;
      [|apply nth_error_None in Hnth; lia].
    exists label. split; [reflexivity|]. split.
    + intros Hbest.
      assert (Ha : truthy answer = true).
      { destruct (truthy answer) eqn:Ha; [reflexivity|].
        exfalso. apply Hbest. unfold _best_choice. now rewrite Ha. }
      assert (Hin : In (_best_choice answer labels) labels).
      { destruct (best_choice_listed answer labels); [contradiction | assumption]. }
      pose proof (nth_index_of _ _ Hin) as Hpick.
      unfold radio_index in Hnth. rewrite Ha, (proj2 (list_in_In _ _) Hin) in Hnth.
      apply (nth_error_nth _ _ "") in Hnth. congruence.
    + intros Hsmall Hall. rewrite firstn_all2 in Hlabels by lia.
      apply (Forall2_nth_error (fun radio label => _prompt_for_input radio = Ok label)
               group labels (radio_index answer labels) label);
        [now apply (radio_labels_aligned group 0) | exact Hnth].
Qed.

Lemma picked_option_is_listed_witness :
  (radio_index "No" ["Yes"; "No"] < 3)%nat
  /\ nth_error [MoreExamples.field_named "Yes"; MoreExamples.field_hidden;
                MoreExamples.field_named "No"] (radio_index "No" ["Yes"; "No"])
     = Some MoreExamples.field_hidden
  /\ select_label "no" ["Yes"; "No"] = Some (_best_choice "no" ["Yes"; "No"]).
Proof.
  split; [|split].
  - apply (proj2 (proj2 (picked_option_is_listed "No" []
                           [MoreExamples.field_named "Yes"; MoreExamples.field_hidden;
                            MoreExamples.field_named "No"] ["Yes"; "No"]))).
    + vm_compute. reflexivity.
    + discriminate.
  - reflexivity.
  - apply (proj1 (proj2 (picked_option_is_listed "no" ["Yes"; "No"] [] []))).
    vm_compute. discriminate.
Defined.

End OptionChoice.

(** ** The command line *)

Module CliFacts.
Import Py PyStr Settings Cli CliSummary.

(** The flags of the command line can only make a run more careful.  They
    leave every section other than [application] and [browser] as loaded,
    and in those two the pause, the saving of failures and the timings;
    they never turn [dry_run] or [headless] off nor [auto_submit] on; they
    change [max_applications] only when the flag is given; with no flag
    the configuration is the one loaded. *)
Theorem overrides_only_restrict (args : Args) (config : AutomationConfig) :
  let config' := apply_overrides args config in
  handshake config' = handshake config
  /\ filters config' = filters config
  /\ resume config' = resume config
  /\ llm config' = llm config
  /\ qa config' = qa config
  /\ pause_between_apps_sec (application config')
     = pause_between_apps_sec (application config)
  /\ save_html_on_failure (application config') = save_html_on_failure (application config)
  /\ slow_mo_ms (browser config') = slow_mo_ms (browser config)
  /\ timeout_ms (browser config') = timeout_ms (browser config)
  /\ (dry_run (application config) = true -> dry_run (application config') = true)
  /\ (auto_submit (application config') = true -> auto_submit (application config) = true)
  /\ (headless (browser config) = true -> headless (browser config') = true)
  /\ (arg_max_applications args = None ->
      max_applications (application config') = max_applications (application config))
  /\ (arg_dry_run args = false -> arg_max_applications args = None ->
      arg_headless args = false -> config' = config).
Proof.
  unfold apply_overrides.
  destruct (arg_dry_run args), (arg_max_applications args) as [n|], (arg_headless args);
    cbn; repeat (split; [try reflexivity; try discriminate; auto|]);
    try reflexivity; try discriminate; auto.
Qed.

Lemma status_counts_from (results : list ApplicationResult.t) (m : gmap string Z)
    (status : string) :
  fold_left count_result results m !! status
  = match with_status status results with
    | [] => m !! status
    | found => Some (default 0 (m !! status) + Z.of_nat (length found))
    end.
Proof.
  revert m. induction results as [|r rest IH]; intros m; cbn [fold_left with_status List.filter].
  { reflexivity. }
  rewrite IH. fold (with_status status rest). unfold count_result.
  destruct (String.eqb (ApplicationResult.status r) status) eqn:Hs.
  - apply String.eqb_eq in Hs. rewrite Hs, lookup_insert_eq. cbn [default].
    destruct (with_status status rest) as [|r' found']; cbn [length]; unfold id;
      f_equal; lia.
  - apply String.eqb_neq in Hs. rewrite lookup_insert_ne by exact Hs.
    reflexivity.
Qed.

(** The summary of a run counts every result once under its status: the
    entry of a status is the number of results that carry it, and a status
    no result carries has no entry. *)
Theorem status_counts_are_exact (results : list ApplicationResult.t) (status : string) :
  default 0 (status_counts results !! status)
  = Z.of_nat (length (with_status status results))
  /\ (status_counts results !! status = None <->
      forall r, In r results -> ApplicationResult.status r <> status).
Proof.
  unfold status_counts. rewrite status_counts_from, lookup_empty. cbn [default].
  destruct (with_status status results) as [|r found] eqn:Hw.
  - split; [reflexivity|]. split; [|reflexivity]. intros _ r Hin Hs.
    assert (Hr : In r (with_status status results)).
    { apply filter_In. split; [exact Hin | now apply String.eqb_eq]. }
    rewrite Hw in Hr. destruct Hr.
  - split; [unfold default, id; lia|]. split; [discriminate|]. intros Hnone. exfalso.
    assert (Hr : In r (with_status status results)) by (rewrite Hw; now left).
    apply filter_In in Hr as [Hin Hs]. apply String.eqb_eq in Hs.
    exact (Hnone r Hin Hs).
Qed.

End CliFacts.

(** ** Laying the text out on pages *)

Module PdfFacts.
Import Py PyStr Pdf.

Lemma well_paged_app_turned (last : option Z) (y : Z) (rest : list Op) :
  well_paged last ((advance y).2 ++ rest)
  = well_paged (if y - line_height <? margin then None else last) rest.
Proof. unfold advance. destruct (y - line_height <? margin); reflexivity. Qed.

Lemma advance_fits (y : Z) (last : option Z) :
  fits y last ->
  fits (advance y).1 (if y - line_height <? margin then None else last)
  /\ fits (advance y).1 (if y - line_height <? margin then None else Some y).
Proof.
  unfold fits, advance, margin, height, line_height. intros [Hy Hl].
  destruct (y - 14 <? 48) eqn:E; cbn [fst].
  - split; split; (lia || exact I).
  - apply Z.ltb_ge in E. split; (split; [lia|]); [destruct last|]; lia.
Qed.

Lemma draw_segments_paged (wrapped : list string) (y : Z) (last : option Z)
    (rest : list Op) :
  fits y last ->
  (forall y' last', fits y' last' -> (draw_segments wrapped y).1 = y' ->
                    well_paged last' rest = true) ->
  well_paged last ((draw_segments wrapped y).2 ++ rest) = true.
Proof.
  revert y last. induction wrapped as [|segment more IH]; intros y last Hfit Hrest;
    cbn [draw_segments].
  - cbn [snd app]. now apply (Hrest y last).
  - destruct (advance y) as [y' turned] eqn:Ea.
    destruct (draw_segments more y') as [y'' ops] eqn:Ed.
    cbn [snd app well_paged].
    assert (Hhere : (margin =? margin) && (margin <=? y) && (y <=? height - margin)
                    && match last with Some l => y <? l | None => true end = true).
    { destruct Hfit as [Hy Hl]. rewrite Z.eqb_refl.
      rewrite (proj2 (Z.leb_le _ _) (proj1 Hy)), (proj2 (Z.leb_le _ _) (proj2 Hy)).
      destruct last; [now apply Z.ltb_lt | reflexivity]. }
    rewrite Hhere. cbn [andb]. rewrite <- app_assoc.
    replace turned with (advance y).2 by now rewrite Ea.
    rewrite well_paged_app_turned.
    replace ops with (draw_segments more y').2 by now rewrite Ed.
    apply IH.
    + replace y' with (advance y).1 by now rewrite Ea.
      apply (advance_fits y last Hfit).
    + intros z last' Hz Hend. apply (Hrest z last' Hz).
      cbn [draw_segments]. now rewrite Ea, Ed, <- Hend, Ed.
Qed.

Lemma render_lines_paged (wrap : string -> list string) (lines : list string) (y : Z)
    (last : option Z) :
  fits y last -> well_paged last (render_lines wrap lines y ++ [Save]) = true.
Proof.
  revert y last. induction lines as [|raw_line rest IH]; intros y last Hfit;
    cbn [render_lines].
  - reflexivity.
  - destruct (negb (truthy (strip raw_line))).
    + destruct (advance y) as [y' turned] eqn:Ea. rewrite <- app_assoc.
      replace turned with (advance y).2 by now rewrite Ea.
      rewrite well_paged_app_turned. apply IH.
      replace y' with (advance y).1 by now rewrite Ea.
      apply (advance_fits y last Hfit).
    + set (wrapped := match wrap (strip raw_line) with [] => [""] | _ => _ end).
      destruct (draw_segments wrapped y) as [y' ops] eqn:Ed. rewrite <- app_assoc.
      replace ops with (draw_segments wrapped y).2 by now rewrite Ed.
      apply draw_segments_paged; [exact Hfit|].
      intros z last' Hz Hend. rewrite Ed in Hend. cbn [fst] in Hend. subst z.
      now apply IH.
Qed.

(** Whatever the text and however its lines are wrapped, [_render_pdf]
    draws every string at the left margin, no higher than the top margin and
    no lower than the bottom one, and below the string drawn before it on
    the same page: nothing is printed over or off the page. *)
Theorem render_pdf_stays_on_the_page (wrap : string -> list string) (lines : list string) :
  well_paged None (_render_pdf wrap lines) = true.
Proof.
  unfold _render_pdf. apply render_lines_paged.
  unfold fits, height, margin. split; [lia | exact I].
Qed.

End PdfFacts.
